(** * The PostgreSQL blockchain store of libbitcoin: organizer, validator
      queries and barrier

    A shallow embedding of [src/storage/postgresql_blockchain.cpp].  The
    relational store is a record of tables, every table a list of rows; a
    prepared statement is the list function its SQL text denotes
    ([UPDATE] maps over the table, [DELETE] filters it, [INSERT ... SELECT]
    appends).  Values computed by the C++ code in [size_t], [uint32_t] or
    [uint64_t] wrap around; values computed inside a statement by the store
    are integers. *)

From Stdlib Require Import ZArith List String Bool Lia Permutation Sorted.
Import ListNotations.
Open Scope Z_scope.

Set Implicit Arguments.

(** ** Machine integers *)

Module Cxx.

Definition size_t_modulus : Z := 2 ^ 64.
Definition uint32_modulus : Z := 2 ^ 32.

(** The value an unsigned 64-bit computation ([size_t], [uint64_t]) keeps. *)
Definition size_t (z : Z) : Z := z mod size_t_modulus.

(** The value an unsigned 32-bit computation keeps. *)
Definition uint32_t (z : Z) : Z := z mod uint32_modulus.

Definition add (a b : Z) : Z := size_t (a + b).
Definition sub (a b : Z) : Z := size_t (a - b).

End Cxx.

(** ** Outcomes of the database driver

    [statement::row()] yields an empty result when the query selects
    nothing, the row when it selects one, and raises
    [multiple_rows_query] when it selects more; reading a column of an
    empty result raises [empty_row_access], reading a NULL into a value
    raises [null_value_fetch], reading a number that the C++ type cannot
    hold raises [bad_value_cast].  The columns of a row hold values of the
    C++ type the code reads them into, so that reading a column of a
    fetched row is the identity.  [undefined_subscript] stands for a
    vector subscript outside the range the code asserts.

    [statement::query()] yields a result that stands before its first
    row: [next()] fetches the rows one after the other, and [empty()]
    says that no row is fetched, so that it answers [true] until a
    [next()] has found a row, whatever the query selected. *)

Inductive failure : Set :=
| multiple_rows_query
| empty_row_access
| null_value_fetch
| bad_value_cast
| undefined_subscript.

Inductive fetched (A : Type) : Type :=
| no_row
| one_row (a : A)
| many_rows.
Arguments no_row {A}.
Arguments one_row {A} a.
Arguments many_rows {A}.

Definition row {A : Type} (selected : list A) : fetched A :=
  match selected with
  | [] => no_row
  | [a] => one_row a
  | _ :: _ :: _ => many_rows
  end.

Record result (A : Type) : Type := {
  current : option A;
  pending : list A
}.

Definition query {A : Type} (selected : list A) : result A :=
  {| current := None; pending := selected |}.

Definition next {A : Type} (r : result A) : bool * result A :=
  match pending r with
  | [] => (false, {| current := None; pending := [] |})
  | a :: rest => (true, {| current := Some a; pending := rest |})
  end.

Definition empty {A : Type} (r : result A) : bool :=
  match current r with
  | None => true
  | Some _ => false
  end.

(** A [size_t] that the code binds to a statement reaches the store as a
    number.  No integer type of the store holds [2^63] or more, which is
    what a subtraction of depths gives when it wraps around in [size_t];
    how the statement ends then is for the driver's backend and the
    schema to say, and neither is at hand: there the model gives no
    outcome ([None]). *)
Definition bind_size_t (v : Z) : option Z :=
  if v <? 2 ^ 63 then Some v else None.

(** A call either returns a value or leaves by an exception. *)
Inductive outcome (A : Type) : Type :=
| Returned (a : A)
| Thrown (e : failure).
Arguments Returned {A} a.
Arguments Thrown {A} e.

(** ** Statements over a table *)

Definition sql_select {A : Type} (where_ : A -> bool) (t : list A) : list A :=
  filter where_ t.

Definition sql_update {A : Type} (where_ : A -> bool) (set : A -> A)
    (t : list A) : list A :=
  map (fun r => if where_ r then set r else r) t.

Definition sql_delete {A : Type} (where_ : A -> bool) (t : list A) : list A :=
  filter (fun r => negb (where_ r)) t.

Definition limit_1 {A : Type} (t : list A) : list A := firstn 1 t.

Definition is_empty {A : Type} (t : list A) : bool :=
  match t with [] => true | _ :: _ => false end.

(** [ORDER BY key ASC]: insertion into an ascending list. *)
Fixpoint insert_by {A : Type} (key : A -> Z) (x : A) (l : list A) : list A :=
  match l with
  | [] => [x]
  | y :: l' => if key x <=? key y then x :: l else y :: insert_by key x l'
  end.

Definition order_by {A : Type} (key : A -> Z) (t : list A) : list A :=
  fold_right (insert_by key) [] t.

(** The store's numeric columns may be NULL; [SUM] over no row is NULL and
    arithmetic with NULL is NULL. *)
Definition sql_sum (l : list Z) : option Z :=
  match l with
  | [] => None
  | _ :: _ => Some (fold_right Z.add 0 l)
  end.

Definition sql_minus (a b : option Z) : option Z :=
  match a, b with
  | Some x, Some y => Some (x - y)
  | _, _ => None
  end.

Definition sql_plus (a b : option Z) : option Z :=
  match a, b with
  | Some x, Some y => Some (x + y)
  | _, _ => None
  end.

(** ** Data model *)

Inductive block_status : Set := orphan | valid.

Definition is_valid (s : block_status) : bool :=
  match s with valid => true | orphan => false end.

Definition is_orphan (s : block_status) : bool :=
  match s with orphan => true | valid => false end.

Record block_row : Type := {
  block_id : Z;
  block_hash : string;
  prev_block_hash : string;
  prev_block_id : option Z;
  space : Z;
  depth : Z;
  span_left : Z;
  span_right : Z;
  version : Z;
  when_created : Z;
  bits_head : Z;
  bits_body : Z;
  nonce : Z;
  merkle : string;
  status : block_status
}.

Record chain_row : Type := {
  chain_id : Z;
  work : option Z;
  chain_depth : Z
}.

Record transaction_row : Type := {
  transaction_id : Z;
  transaction_hash : string;
  tx_version : Z;
  tx_locktime : Z
}.

Record transactions_parents_row : Type := {
  tp_block_id : Z;
  tp_transaction_id : Z;
  index_in_block : Z
}.

Record input_row : Type := {
  input_id : Z;
  in_transaction_id : Z;
  in_index_in_parent : Z;
  previous_output_hash : string;
  previous_output_index : Z;
  in_script_id : Z;
  in_sequence : Z
}.

Record output_row : Type := {
  output_id : Z;
  out_transaction_id : Z;
  out_index_in_parent : Z;
  internal_value : Z;
  out_script_id : Z
}.

Record operation_row : Type := {
  operation_id : Z;
  op_script_id : Z;
  opcode : string;
  data : option string
}.

Record database : Type := {
  blocks : list block_row;
  chains : list chain_row;
  transactions : list transaction_row;
  transactions_parents : list transactions_parents_row;
  inputs : list input_row;
  outputs : list output_row;
  operations : list operation_row
}.

Definition with_blocks (bs : list block_row) (db : database) : database :=
  {| blocks := bs; chains := chains db; transactions := transactions db;
     transactions_parents := transactions_parents db; inputs := inputs db;
     outputs := outputs db; operations := operations db |}.

Definition with_chains (cs : list chain_row) (db : database) : database :=
  {| blocks := blocks db; chains := cs; transactions := transactions db;
     transactions_parents := transactions_parents db; inputs := inputs db;
     outputs := outputs db; operations := operations db |}.

(** Column assignments of the [UPDATE] statements. *)

Definition set_prev_block_id (v : option Z) (b : block_row) : block_row :=
  {| block_id := block_id b; block_hash := block_hash b;
     prev_block_hash := prev_block_hash b; prev_block_id := v;
     space := space b; depth := depth b; span_left := span_left b;
     span_right := span_right b; version := version b;
     when_created := when_created b; bits_head := bits_head b;
     bits_body := bits_body b; nonce := nonce b; merkle := merkle b;
     status := status b |}.

Definition set_span_left (v : Z) (b : block_row) : block_row :=
  {| block_id := block_id b; block_hash := block_hash b;
     prev_block_hash := prev_block_hash b; prev_block_id := prev_block_id b;
     space := space b; depth := depth b; span_left := v;
     span_right := span_right b; version := version b;
     when_created := when_created b; bits_head := bits_head b;
     bits_body := bits_body b; nonce := nonce b; merkle := merkle b;
     status := status b |}.

Definition set_span_right (v : Z) (b : block_row) : block_row :=
  {| block_id := block_id b; block_hash := block_hash b;
     prev_block_hash := prev_block_hash b; prev_block_id := prev_block_id b;
     space := space b; depth := depth b; span_left := span_left b;
     span_right := v; version := version b;
     when_created := when_created b; bits_head := bits_head b;
     bits_body := bits_body b; nonce := nonce b; merkle := merkle b;
     status := status b |}.

Definition set_position (sp d l r : Z) (b : block_row) : block_row :=
  {| block_id := block_id b; block_hash := block_hash b;
     prev_block_hash := prev_block_hash b; prev_block_id := prev_block_id b;
     space := sp; depth := d; span_left := l;
     span_right := r; version := version b;
     when_created := when_created b; bits_head := bits_head b;
     bits_body := bits_body b; nonce := nonce b; merkle := merkle b;
     status := status b |}.

Definition set_status (s : block_status) (b : block_row) : block_row :=
  {| block_id := block_id b; block_hash := block_hash b;
     prev_block_hash := prev_block_hash b; prev_block_id := prev_block_id b;
     space := space b; depth := depth b; span_left := span_left b;
     span_right := span_right b; version := version b;
     when_created := when_created b; bits_head := bits_head b;
     bits_body := bits_body b; nonce := nonce b; merkle := merkle b;
     status := s |}.

Definition set_chain_id (v : Z) (c : chain_row) : chain_row :=
  {| chain_id := v; work := work c; chain_depth := chain_depth c |}.

Definition set_work (v : option Z) (c : chain_row) : chain_row :=
  {| chain_id := chain_id c; work := v; chain_depth := chain_depth c |}.

Definition set_work_depth (v : option Z) (d : Z) (c : chain_row) : chain_row :=
  {| chain_id := chain_id c; work := v; chain_depth := d |}.

Record span : Type := { left : Z; right : Z }.

(** ** The organizer ([postgresql_organizer])

    [BITCOIN_ASSERT] is compiled out, as in a release build: a build that
    keeps the assertions stops where one fails and has no other
    behaviour. *)

Module Organizer.

Section Statements.

(** The stored function [difficulty(bits_head, bits_body)] of the schema. *)
Variable difficulty : Z -> Z -> Z.

Definition delete_chains (left right : Z) (db : database) : database :=
  let db1 :=
    with_chains
      (sql_delete (fun c => (left <=? chain_id c) && (chain_id c <=? right))
         (chains db)) db in
  let offset := Cxx.sub (Cxx.add right 1) left in
  with_chains
    (sql_update (fun c => chain_id c >? right)
       (fun c => set_chain_id (chain_id c - offset) c) (chains db1)) db1.

Definition unwind_chain (depth_ chain_id_ : Z) (db : database) : database :=
  let unwound :=
    sql_sum
      (map (fun b => difficulty (bits_head b) (bits_body b))
         (sql_select
            (fun b => (space b =? 0) && (depth b >=? depth_)
                      && (span_left b <=? chain_id_)
                      && (span_right b >=? chain_id_)
                      && is_valid (status b))
            (blocks db))) in
  with_chains
    (sql_update (fun c => chain_id c =? chain_id_)
       (fun c => set_work (sql_minus (work c) unwound) c) (chains db)) db.

Definition lonely_child (space_ depth_ span_left_ span_right_ : Z)
    (db : database) : list block_row :=
  limit_1
    (sql_select
       (fun b => (space b =? space_) && (depth b =? depth_ - 1)
                 && (span_left b =? span_left_)
                 && (span_right b =? span_right_))
       (blocks db)).

(** The offset [delete_branch] shifts the spans by. *)
Definition delete_branch_offset (space_ depth_ span_left_ span_right_ : Z)
    (db : database) : Z :=
  let offset := Cxx.sub span_right_ span_left_ in
  if is_empty (lonely_child space_ depth_ span_left_ span_right_ db)
  then Cxx.add offset 1
  else offset.

Definition delete_branch (space_ depth_ span_left_ span_right_ : Z)
    (db : database) : database :=
  let offset := delete_branch_offset space_ depth_ span_left_ span_right_ db in
  let db1 :=
    if is_empty (lonely_child space_ depth_ span_left_ span_right_ db)
    then delete_chains span_left_ span_right_ db
    else unwind_chain depth_ span_left_
           (delete_chains (Cxx.add span_left_ 1) span_right_ db) in
  let db2 :=
    with_blocks
      (sql_delete
         (fun b => (space b =? space_) && (depth b >=? depth_)
                   && (span_left b >=? span_left_)
                   && (span_right b <=? span_right_))
         (blocks db1)) db1 in
  let db3 :=
    with_blocks
      (sql_update (fun b => (space b =? space_) && (span_left b >? span_right_))
         (fun b => set_span_left (span_left b - offset) b) (blocks db2)) db2 in
  with_blocks
    (sql_update (fun b => (space b =? space_) && (span_right b >=? span_right_))
       (fun b => set_span_right (span_right b - offset) b) (blocks db3)) db3.

(** [load_span]: [None] is the [false] return (after [log_fatal]). *)
Definition load_span (block_id_ : Z) (db : database) : outcome (option span) :=
  match row (sql_select (fun b => block_id b =? block_id_) (blocks db)) with
  | no_row => Returned None
  | one_row b =>
      Returned (Some {| left := span_left b; right := span_right b |})
  | many_rows => Thrown multiple_rows_query
  end.

Definition load_position_info (block_id_ : Z) (db : database)
    : outcome (option (Z * Z * span)) :=
  match row (sql_select (fun b => block_id b =? block_id_) (blocks db)) with
  | no_row => Returned None
  | one_row b =>
      Returned (Some (space b, depth b,
                      {| left := span_left b; right := span_right b |}))
  | many_rows => Thrown multiple_rows_query
  end.

Definition get_block_width (space_ depth_ : Z) (block_span : span)
    (db : database) : Z :=
  if left block_span <? right block_span
  then Cxx.add (Cxx.sub (right block_span) (left block_span)) 1
  else
    if is_empty
         (limit_1
            (sql_select
               (fun b => (space b =? space_) && (depth b >? depth_)
                         && (span_left b >=? left block_span)
                         && (span_right b <=? right block_span))
               (blocks db)))
    then 0
    else 1.

(** [INSERT INTO chains ... SELECT work, chain_id + ?, depth FROM chains
    WHERE chain_id = ?]. *)
Definition tween_chains (sub_chain parent_left : Z) (cs : list chain_row)
    : list chain_row :=
  cs ++ map (fun c => set_chain_id (chain_id c + sub_chain) c)
          (sql_select (fun c => chain_id c =? parent_left) cs).

(** The values [from, from+1, ...] below [upto] that the [for] loop of
    [reserve_branch_area] runs through. *)
Definition sub_chains (from upto : Z) : list Z :=
  map (fun i => from + Z.of_nat i) (seq 0 (Z.to_nat (upto - from))).

Definition reserve_branch_area (parent_space parent_width : Z)
    (parent_span : span) (new_child_depth child_width : Z) (db : database)
    : database :=
  if (parent_width =? 0) && (child_width =? 1) then db
  else
    let db1 :=
      with_blocks
        (sql_update
           (fun b => (space b =? parent_space)
                     && (span_right b >? right parent_span))
           (fun b => set_span_right (span_right b + child_width) b)
           (blocks db)) db in
    let db2 :=
      with_blocks
        (sql_update
           (fun b => (space b =? parent_space)
                     && (span_left b >? right parent_span))
           (fun b => set_span_left (span_left b + child_width) b)
           (blocks db1)) db1 in
    let db3 :=
      with_blocks
        (sql_update
           (fun b => (space b =? parent_space) && (depth b <? new_child_depth)
                     && (span_right b =? right parent_span))
           (fun b => set_span_right (span_right b + child_width) b)
           (blocks db2)) db2 in
    if negb (parent_space =? 0) then db3
    else
      let db4 :=
        with_chains
          (sql_update (fun c => chain_id c >? right parent_span)
             (fun c => set_chain_id (chain_id c + child_width) c)
             (chains db3)) db3 in
      fold_left
        (fun d sub_chain =>
           with_chains (tween_chains sub_chain (left parent_span) (chains d)) d)
        (sub_chains parent_width (Cxx.add parent_width child_width))
        db4.

Definition position_child_branch (old_space new_space new_depth
    new_span_left : Z) (db : database) : database :=
  with_blocks
    (sql_update (fun b => space b =? old_space)
       (fun b => set_position new_space (depth b + new_depth)
                   (span_left b + new_span_left)
                   (span_right b + new_span_left) b)
       (blocks db)) db.

(** One row of [orphans_statement]: child id, space and depth, parent id. *)
Record orphan_pair : Type := {
  child_id : Z;
  child_space : Z;
  child_depth : Z;
  parent_id : Z
}.

Definition orphans_statement (db : database) : list orphan_pair :=
  flat_map
    (fun block =>
       flat_map
         (fun parent =>
            if String.eqb (prev_block_hash block) (block_hash parent)
               && (space block >? 0) && (depth block =? 0)
            then [{| child_id := block_id block; child_space := space block;
                     child_depth := depth block;
                     parent_id := block_id parent |}]
            else [])
         (blocks db))
    (blocks db).

(** How one turn of the loop of [organize] ends. *)
Inductive turn : Type :=
| next_row (db : database)
| returns (db : database)
| throws (e : failure) (db : database).

Definition point_prev_statement (parent_id_ child_id_ : Z) (db : database)
    : database :=
  with_blocks
    (sql_update (fun b => block_id b =? child_id_)
       (set_prev_block_id (Some parent_id_)) (blocks db)) db.

(** The body of the [while] loop of [organize]. *)
Definition graft (o : orphan_pair) (db : database) : turn :=
  let db1 := point_prev_statement (parent_id o) (child_id o) db in
  match load_position_info (parent_id o) db1 with
  | Thrown e => throws e db1
  | Returned None => returns db1
  | Returned (Some (parent_space, parent_depth, parent_span)) =>
      match load_span (child_id o) db1 with
      | Thrown e => throws e db1
      | Returned None => returns db1
      | Returned (Some child_span) =>
          let parent_width :=
            get_block_width parent_space parent_depth parent_span db1 in
          let child_width :=
            Cxx.add (Cxx.sub (right child_span) (left child_span)) 1 in
          let new_child_span_left :=
            if parent_width >? 0 then Cxx.add (right parent_span) 1
            else right parent_span in
          let new_child_depth := Cxx.add parent_depth 1 in
          let db2 :=
            reserve_branch_area parent_space parent_width parent_span
              new_child_depth child_width db1 in
          next_row
            (position_child_branch (child_space o) parent_space
               new_child_depth new_child_span_left db2)
      end
  end.

(** How [organize] ends, and the store it leaves. *)
Inductive organized : Type :=
| organize_returned (db : database)
| organize_thrown (e : failure) (db : database).

Fixpoint organize_rows (orphans_results : list orphan_pair) (db : database)
    : organized :=
  match orphans_results with
  | [] => organize_returned db
  | o :: rest =>
      match graft o db with
      | next_row db' => organize_rows rest db'
      | returns db' => organize_returned db'
      | throws e db' => organize_thrown e db'
      end
  end.

(** The rows of [orphans_statement] are fetched when the query is run,
    before the loop changes any row. *)
Definition organize (db : database) : organized :=
  organize_rows (orphans_statement db) db.

End Statements.

End Organizer.

(** ** Messages rebuilt from rows ([postgresql_reader])

    Hashes, opcodes and data bytes stay in the text form the store holds:
    [deserialize_hash], [hexlify], [string_to_opcode] and
    [deserialize_bytes] are conversions between the two forms. *)

Module message.

Record operation : Type := { code : string; data : string }.

Definition script : Type := list operation.

Record transaction_input : Type := {
  hash : string;
  index : Z;
  input_script : script;
  sequence : Z
}.

Record transaction_output : Type := {
  value : Z;
  output_script : script
}.

Record transaction : Type := {
  version : Z;
  locktime : Z;
  inputs : list transaction_input;
  outputs : list transaction_output
}.

Record block : Type := {
  block_version : Z;
  timestamp : Z;
  bits : Z;
  nonce : Z;
  prev_block : string;
  merkle_root : string;
  transactions : list transaction
}.

End message.

Record postgresql_block_info : Type := {
  info_block_id : Z;
  info_depth : Z;
  info_span_left : Z;
  info_span_right : Z;
  info_prev_block_id : Z
}.

Module Reader.

Definition select_script (script_id : Z) (db : database) : message.script :=
  map (fun r =>
         {| message.code := opcode r;
            message.data := match data r with
                            | Some d => d
                            | None => EmptyString
                            end |})
    (order_by operation_id
       (sql_select (fun r => op_script_id r =? script_id) (operations db))).

Definition select_inputs (transaction_id_ : Z) (db : database)
    : list message.transaction_input :=
  map (fun r =>
         {| message.hash := previous_output_hash r;
            message.index := previous_output_index r;
            message.input_script := select_script (in_script_id r) db;
            message.sequence := in_sequence r |})
    (order_by in_index_in_parent
       (sql_select (fun r => in_transaction_id r =? transaction_id_)
          (inputs db))).

Definition select_outputs (transaction_id_ : Z) (db : database)
    : list message.transaction_output :=
  map (fun r =>
         {| message.value := internal_value r;
            message.output_script := select_script (out_script_id r) db |})
    (order_by out_index_in_parent
       (sql_select (fun r => out_transaction_id r =? transaction_id_)
          (outputs db))).

Definition read_transactions (result : list transaction_row) (db : database)
    : list message.transaction :=
  map (fun r =>
         {| message.version := tx_version r;
            message.locktime := tx_locktime r;
            message.inputs := select_inputs (transaction_id r) db;
            message.outputs := select_outputs (transaction_id r) db |})
    result.

(** [bits_body + (bits_head << (3*8))] in [uint32_t]. *)
Definition join_bits (bits_head_ bits_body_ : Z) : Z :=
  Cxx.uint32_t (bits_body_ + Cxx.uint32_t (Z.shiftl bits_head_ 24)).

Definition transactions_statement (block_id_ : Z) (db : database)
    : list transaction_row :=
  flat_map
    (fun p =>
       sql_select (fun t => transaction_id t =? tp_transaction_id p)
         (transactions db))
    (order_by index_in_block
       (sql_select (fun p => tp_block_id p =? block_id_)
          (transactions_parents db))).

Definition read_block (block_result : block_row) (db : database)
    : message.block :=
  {| message.block_version := version block_result;
     message.timestamp := when_created block_result;
     message.bits :=
       join_bits (bits_head block_result) (bits_body block_result);
     message.nonce := nonce block_result;
     message.prev_block := prev_block_hash block_result;
     message.merkle_root := merkle block_result;
     message.transactions :=
       read_transactions
         (transactions_statement (block_id block_result) db) db |}.

Definition read_block_info (result : block_row)
    : outcome postgresql_block_info :=
  match prev_block_id result with
  | None => Thrown null_value_fetch
  | Some prev =>
      Returned {| info_block_id := block_id result;
                  info_depth := depth result;
                  info_span_left := span_left result;
                  info_span_right := span_right result;
                  info_prev_block_id := prev |}
  end.

End Reader.

(** ** The branch-local queries of the validator
       ([postgresql_validate_block]) *)

Module ValidateBlock.

Section Queries.

(** Constants of [bitcoin/constants.hpp] and functions of
    [bitcoin/transaction.hpp] and the script interpreter, which this file
    only calls.  [is_coinbase] sees the previous outputs (hash, index) of
    the inputs, which is all [is_coinbase_transaction] fills in. *)
Variable max_money : Z.
Variable coinbase_maturity : Z.
Variable is_coinbase : list (string * Z) -> bool.
Variable run :
  message.script -> message.script -> message.transaction -> nat -> bool.

Variable block_info_ : postgresql_block_info.

Definition previous (db : database) : list block_row :=
  sql_select
    (fun b => (space b =? 0) && (depth b =? info_depth block_info_ - 1)
              && (span_left b <=? info_span_left block_info_)
              && (span_right b >=? info_span_right block_info_))
    (blocks db).

Definition previous_block_bits (db : database) : outcome Z :=
  match row (previous db) with
  | no_row => Thrown empty_row_access
  | one_row b => Returned (Reader.join_bits (bits_head b) (bits_body b))
  | many_rows => Thrown multiple_rows_query
  end.

(** [actual_timespan] binds the two depths it has computed in [size_t]. *)
Definition actual_timespan (interval : Z) (db : database)
    : option (outcome Z) :=
  let begin_block_depth := Cxx.sub (info_depth block_info_) interval in
  let end_block_depth := Cxx.sub (info_depth block_info_) 1 in
  let at_depth d :=
    sql_select
      (fun b => (space b =? 0) && (depth b =? d)
                && (span_left b <=? info_span_left block_info_)
                && (span_right b >=? info_span_right block_info_))
      (blocks db) in
  match bind_size_t begin_block_depth, bind_size_t end_block_depth with
  | Some begin_depth, Some end_depth =>
      Some
        match row
                (flat_map
                   (fun start_block =>
                      map (fun end_block =>
                             when_created end_block
                             - when_created start_block)
                        (at_depth end_depth))
                   (at_depth begin_depth)) with
        | no_row => Thrown empty_row_access
        | one_row t =>
            if (0 <=? t) && (t <? Cxx.uint32_modulus) then Returned t
            else Thrown bad_value_cast
        | many_rows => Thrown multiple_rows_query
        end
  | _, _ => None
  end.

Definition median_offset (depth_ : Z) : Z :=
  if depth_ <? 11 then depth_ / 2 else 5.

(** The rows [find_median] selects, before ordering. *)
Definition find_median (db : database) : list block_row :=
  sql_select
    (fun b => (space b =? 0) && (depth b <? info_depth block_info_)
              && (depth b >=? info_depth block_info_ - 11)
              && (span_left b <=? info_span_left block_info_)
              && (span_right b >=? info_span_right block_info_))
    (blocks db).

Definition median_time_past (db : database) : outcome Z :=
  match row
          (limit_1
             (skipn (Z.to_nat (median_offset (info_depth block_info_)))
                (order_by when_created (find_median db)))) with
  | no_row => Thrown empty_row_access
  | one_row b => Returned (when_created b)
  | many_rows => Thrown multiple_rows_query
  end.

Definition is_coinbase_transaction (tx_id : Z) (db : database) : bool :=
  is_coinbase
    (map (fun r => (previous_output_hash r,
                    Cxx.uint32_t (previous_output_index r)))
       (sql_select (fun r => in_transaction_id r =? tx_id) (inputs db))).

Definition previous_block_depth (previous_tx_id : Z) (db : database)
    : outcome Z :=
  match row
          (flat_map
             (fun p =>
                map depth
                  (sql_select
                     (fun b =>
                        (tp_block_id p =? block_id b) && (space b =? 0)
                        && (span_left b <=? info_span_left block_info_)
                        && (span_right b >=? info_span_right block_info_))
                     (blocks db)))
             (sql_select (fun p => tp_transaction_id p =? previous_tx_id)
                (transactions_parents db))) with
  | no_row => Thrown empty_row_access
  | one_row d => Returned d
  | many_rows => Thrown multiple_rows_query
  end.

(** [search_double_spends] asks the result of [query()] whether it is
    [empty()] without a [next()] before. *)
Definition search_double_spends (transaction_id_ : Z)
    (input : message.transaction_input) (input_index : nat) (db : database)
    : bool :=
  let other_spends :=
    query
      (sql_select
         (fun r => String.eqb (previous_output_hash r) (message.hash input)
                   && (previous_output_index r =? message.index input)
                   && (negb (in_transaction_id r =? transaction_id_)
                       || negb (in_index_in_parent r
                                =? Z.of_nat input_index)))
         (inputs db)) in
  if empty other_spends then false else true.

(** The depth test on a coinbase: [previous_block_depth(previous_tx_id) -
    block_info_.depth] in [size_t], compared with [coinbase_maturity]. *)
Definition immature (previous_depth : Z) : bool :=
  Cxx.sub previous_depth (info_depth block_info_) <? coinbase_maturity.

(** [connect_input] returns its [bool] together with the [value_in] it
    leaves in the caller's variable. *)
Definition connect_input (transaction_id_ : Z)
    (current_tx : message.transaction) (input_index : nat) (value_in : Z)
    (db : database) : outcome (bool * Z) :=
  match nth_error (message.inputs current_tx) input_index with
  | None => Thrown undefined_subscript
  | Some input =>
  match row (sql_select
               (fun t => String.eqb (transaction_hash t) (message.hash input))
               (transactions db)) with
  | many_rows => Thrown multiple_rows_query
  | no_row => Returned (false, value_in)
  | one_row previous_tx =>
  let previous_tx_id := transaction_id previous_tx in
  match row (sql_select
               (fun o => (out_transaction_id o =? previous_tx_id)
                         && (out_index_in_parent o =? message.index input))
               (outputs db)) with
  | many_rows => Thrown multiple_rows_query
  | no_row => Returned (false, value_in)
  | one_row previous_output =>
  let output_script_id := out_script_id previous_output in
  let output_value := internal_value previous_output in
  if output_value >? max_money then Returned (false, value_in)
  else
    let after_maturity :=
      let output_script := Reader.select_script output_script_id db in
      if negb (run output_script (message.input_script input) current_tx
                 input_index)
      then Returned (false, value_in)
      else if search_double_spends transaction_id_ input input_index db
      then Returned (false, value_in)
      else
        let value_in' := Cxx.add value_in output_value in
        if value_in' >? max_money then Returned (false, value_in')
        else Returned (true, value_in') in
    if is_coinbase_transaction previous_tx_id db
    then match previous_block_depth previous_tx_id db with
         | Thrown e => Thrown e
         | Returned previous_depth =>
             if immature previous_depth then Returned (false, value_in)
             else after_maturity
         end
    else after_maturity
  end
  end
  end.

(** The [for] loop of [validate_transaction] over the inputs from
    [input_index] on. *)
Fixpoint connect_inputs (transaction_id_ : Z) (tx : message.transaction)
    (input_index : nat) (remaining : nat) (value_in : Z) (db : database)
    : outcome (bool * Z) :=
  match remaining with
  | O => Returned (true, value_in)
  | S remaining' =>
      match connect_input transaction_id_ tx input_index value_in db with
      | Thrown e => Thrown e
      | Returned (false, value_in') => Returned (false, value_in')
      | Returned (true, value_in') =>
          connect_inputs transaction_id_ tx (S input_index) remaining'
            value_in' db
      end
  end.

Definition validate_transaction (tx : message.transaction)
    (index_in_block_ : Z) (value_in : Z) (db : database)
    : outcome (bool * Z) :=
  match row (sql_select
               (fun p => (tp_block_id p =? info_block_id block_info_)
                         && (index_in_block p =? index_in_block_))
               (transactions_parents db)) with
  | no_row => Thrown empty_row_access
  | many_rows => Thrown multiple_rows_query
  | one_row p =>
      connect_inputs (tp_transaction_id p) tx 0
        (List.length (message.inputs tx)) value_in db
  end.

End Queries.

Arguments search_double_spends : simpl never.

End ValidateBlock.

(** ** The blockchain service ([postgresql_blockchain]) *)

Module Blockchain.

Section Validate.

Variable difficulty : Z -> Z -> Z.

(** [validate_block::validates] of the base class, which runs the consensus
    checks through the queries above: it reads the store and either
    answers or leaves by an exception of one of its queries. *)
Variable validates :
  database -> postgresql_block_info -> message.block -> outcome bool.

Definition finalize_status (block_info : postgresql_block_info)
    (current_block : message.block) (db : database) : database :=
  let bits_head_ := Z.shiftr (message.bits current_block) 24 in
  let bits_body_ := Z.land (message.bits current_block) 16777215 in
  let db1 :=
    with_chains
      (sql_update
         (fun c => (chain_id c >=? info_span_left block_info)
                   && (chain_id c <=? info_span_right block_info))
         (fun c =>
            set_work_depth
              (sql_plus (work c) (Some (difficulty bits_head_ bits_body_)))
              (info_depth block_info) c)
         (chains db)) db in
  with_blocks
    (sql_update (fun b => block_id b =? info_block_id block_info)
       (set_status valid) (blocks db1)) db1.

(** How [validate] ends: it returns, the process exits ([exit(-1)]) or an
    exception leaves it. *)
Inductive validated : Type :=
| validate_returned (db : database)
| validate_exited (db : database)
| validate_thrown (e : failure) (db : database).

Fixpoint validate_rows (result : list block_row) (db : database)
    : validated :=
  match result with
  | [] => validate_returned db
  | r :: rest =>
      match Reader.read_block_info r with
      | Thrown e => validate_thrown e db
      | Returned block_info =>
          let current_block := Reader.read_block r db in
          match validates db block_info current_block with
          | Thrown e => validate_thrown e db
          | Returned true =>
              validate_rows rest (finalize_status block_info current_block db)
          | Returned false => validate_exited db
          end
      end
  end.

Definition orphan_blocks (db : database) : list block_row :=
  order_by depth
    (sql_select (fun b => is_orphan (status b) && (space b =? 0)) (blocks db)).

Definition validate (db : database) : validated :=
  validate_rows (orphan_blocks db) db.

End Validate.

(** *** The barrier *)

(** The one-shot [deadline_timer]: the duration it was last set to, whether
    a wait is pending, and how many cancelled waits still have to deliver
    [operation_aborted] to their handler. *)
Record deadline_timer : Type := {
  expiry : option Z;
  waiting : bool;
  aborted : nat
}.

Definition cancel (t : deadline_timer) : deadline_timer :=
  if waiting t
  then {| expiry := expiry t; waiting := false; aborted := S (aborted t) |}
  else t.

(** Setting the expiry cancels a pending wait. *)
Definition expires_from_now (d : Z) (t : deadline_timer) : deadline_timer :=
  let t' := cancel t in
  {| expiry := Some d; waiting := waiting t'; aborted := aborted t' |}.

Definition async_wait (t : deadline_timer) : deadline_timer :=
  {| expiry := expiry t; waiting := true; aborted := aborted t |}.

(** The fields of the service that the barrier uses; [runs] counts the
    calls of [start], each of which is one [organize] and one
    [validate]. *)
Record barrier : Type := {
  barrier_clearance_level_ : Z;
  barrier_timeout_ : Z;
  barrier_level_ : Z;
  timer_started_ : bool;
  timeout_ : deadline_timer;
  runs : nat
}.

Definition set_clearance (clearance : Z) (s : barrier) : barrier :=
  {| barrier_clearance_level_ := clearance;
     barrier_timeout_ := barrier_timeout_ s;
     barrier_level_ := barrier_level_ s;
     timer_started_ := timer_started_ s;
     timeout_ := timeout_ s; runs := runs s |}.

Definition set_timeout (timeout : Z) (s : barrier) : barrier :=
  {| barrier_clearance_level_ := barrier_clearance_level_ s;
     barrier_timeout_ := timeout;
     barrier_level_ := barrier_level_ s;
     timer_started_ := timer_started_ s;
     timeout_ := timeout_ s; runs := runs s |}.

Definition reset_state (s : barrier) : barrier :=
  {| barrier_clearance_level_ := barrier_clearance_level_ s;
     barrier_timeout_ := barrier_timeout_ s;
     barrier_level_ := 0;
     timer_started_ := false;
     timeout_ := cancel (timeout_ s); runs := runs s |}.

Definition start (s : barrier) : barrier :=
  {| barrier_clearance_level_ := barrier_clearance_level_ s;
     barrier_timeout_ := barrier_timeout_ s;
     barrier_level_ := barrier_level_ s;
     timer_started_ := timer_started_ s;
     timeout_ := timeout_ s; runs := S (runs s) |}.

Definition raise_barrier (s : barrier) : barrier :=
  let level := Cxx.add (barrier_level_ s) 1 in
  let s1 :=
    {| barrier_clearance_level_ := barrier_clearance_level_ s;
       barrier_timeout_ := barrier_timeout_ s;
       barrier_level_ := level;
       timer_started_ := timer_started_ s;
       timeout_ := timeout_ s; runs := runs s |} in
  if level >? barrier_clearance_level_ s1
  then start (reset_state s1)
  else if negb (timer_started_ s1)
  then {| barrier_clearance_level_ := barrier_clearance_level_ s1;
          barrier_timeout_ := barrier_timeout_ s1;
          barrier_level_ := barrier_level_ s1;
          timer_started_ := true;
          timeout_ :=
            async_wait (expires_from_now (barrier_timeout_ s1) (timeout_ s1));
          runs := runs s1 |}
  else s1.

(** The error code a wait hands to [start_exec]. *)
Inductive error_code : Set :=
| success
| operation_aborted
| other_error.

Definition start_exec (ec : error_code) (s : barrier) : barrier :=
  let s1 := reset_state s in
  match ec with
  | operation_aborted => s1
  | other_error => s1
  | success => start s1
  end.

(** The pending wait expires: the timer hands [success] to the handler. *)
Definition timer_expires (s : barrier) : barrier :=
  if waiting (timeout_ s)
  then
    start_exec success
      {| barrier_clearance_level_ := barrier_clearance_level_ s;
         barrier_timeout_ := barrier_timeout_ s;
         barrier_level_ := barrier_level_ s;
         timer_started_ := timer_started_ s;
         timeout_ := {| expiry := expiry (timeout_ s);
                        waiting := false;
                        aborted := aborted (timeout_ s) |};
         runs := runs s |}
  else s.

(** The barrier as the constructor leaves it: clearance 400, timeout
    500 ms, [reset_state] and the first [start]. *)
Definition constructed : barrier :=
  start
    (reset_state
       {| barrier_clearance_level_ := 400;
          barrier_timeout_ := 500;
          barrier_level_ := 0;
          timer_started_ := false;
          timeout_ := {| expiry := None; waiting := false; aborted := 0 |};
          runs := 0 |}).

(** [n] calls of [raise_barrier] in a row. *)
Fixpoint burst (n : nat) (s : barrier) : barrier :=
  match n with
  | O => s
  | S n' => burst n' (raise_barrier s)
  end.

End Blockchain.

(** ** A small store

    A main chain of three valid blocks and a fourth block awaiting
    validation, used to run the definitions on. *)

Module Sample.

Definition block (id : Z) (hash prev : string) (prev_id : option Z)
    (sp d l r : Z) (created : Z) (st : block_status) : block_row :=
  {| block_id := id; block_hash := hash; prev_block_hash := prev;
     prev_block_id := prev_id; space := sp; depth := d; span_left := l;
     span_right := r; version := 1; when_created := created;
     bits_head := 29; bits_body := 65535; nonce := 0;
     merkle := EmptyString; status := st |}.

Definition main_chain : list block_row :=
  [ block 1 "h1" "h0" None 0 0 0 0 100 valid;
    block 2 "h2" "h1" (Some 1) 0 1 0 0 300 valid;
    block 3 "h3" "h2" (Some 2) 0 2 0 0 200 valid;
    block 4 "h4" "h3" (Some 3) 0 3 0 0 400 orphan ].

Definition store : database :=
  {| blocks := main_chain;
     chains := [ {| chain_id := 0; work := Some 3; chain_depth := 2 |} ];
     transactions := []; transactions_parents := []; inputs := [];
     outputs := []; operations := [] |}.

(** The block at depth 3, and a block at depth 7 whose parent is not in
    the store. *)
Definition info_4 : postgresql_block_info :=
  {| info_block_id := 4; info_depth := 3; info_span_left := 0;
     info_span_right := 0; info_prev_block_id := 3 |}.

Definition info_far : postgresql_block_info :=
  {| info_block_id := 9; info_depth := 7; info_span_left := 0;
     info_span_right := 0; info_prev_block_id := 8 |}.

(** The main chain and an orphan tree of one block, whose parent is the
    tip of the chain. *)
Definition orphan_store : database :=
  {| blocks := main_chain ++ [ block 5 "h5" "h4" None 1 0 0 0 500 orphan ];
     chains := [ {| chain_id := 0; work := Some 3; chain_depth := 2 |} ];
     transactions := []; transactions_parents := []; inputs := [];
     outputs := []; operations := [] |}.

(** A fork: blocks 1 and 2 carry both chains, block 3 is the only child of
    block 2 and has the two children 4 (chain 0) and 5 (chain 1).  The
    work of a block is its [bits_body]. *)
Definition fork_block (id d l r body : Z) : block_row :=
  {| block_id := id; block_hash := EmptyString;
     prev_block_hash := EmptyString; prev_block_id := None; space := 0;
     depth := d; span_left := l; span_right := r; version := 1;
     when_created := 0; bits_head := 0; bits_body := body; nonce := 0;
     merkle := EmptyString; status := valid |}.

Definition fork_store : database :=
  {| blocks :=
       [ fork_block 1 0 0 1 1; fork_block 2 1 0 1 2; fork_block 3 2 0 1 10;
         fork_block 4 3 0 0 20; fork_block 5 3 1 1 30 ];
     chains :=
       [ {| chain_id := 0; work := Some 33; chain_depth := 3 |};
         {| chain_id := 1; work := Some 43; chain_depth := 3 |} ];
     transactions := []; transactions_parents := []; inputs := [];
     outputs := []; operations := [] |}.

(** A stand-in for the stored function [difficulty], which the schema
    defines and this file only calls. *)
Definition body_work (bits_head_ bits_body_ : Z) : Z := bits_body_.

(** Block 1 holds a coinbase (transaction 1, one output of 50); block 4
    holds transaction 2, whose only input spends that output. *)
Definition null_hash : string := "00".

Definition spend_store : database :=
  {| blocks := main_chain;
     chains := [ {| chain_id := 0; work := Some 3; chain_depth := 2 |} ];
     transactions :=
       [ {| transaction_id := 1; transaction_hash := "cb";
            tx_version := 1; tx_locktime := 0 |};
         {| transaction_id := 2; transaction_hash := "sp";
            tx_version := 1; tx_locktime := 0 |} ];
     transactions_parents :=
       [ {| tp_block_id := 1; tp_transaction_id := 1; index_in_block := 0 |};
         {| tp_block_id := 4; tp_transaction_id := 2; index_in_block := 1 |} ];
     inputs :=
       [ {| input_id := 1; in_transaction_id := 1; in_index_in_parent := 0;
            previous_output_hash := null_hash;
            previous_output_index := 4294967295;
            in_script_id := 1; in_sequence := 4294967295 |};
         {| input_id := 2; in_transaction_id := 2; in_index_in_parent := 0;
            previous_output_hash := "cb"; previous_output_index := 0;
            in_script_id := 2; in_sequence := 4294967295 |} ];
     outputs :=
       [ {| output_id := 1; out_transaction_id := 1; out_index_in_parent := 0;
            internal_value := 50; out_script_id := 3 |} ];
     operations := [] |}.

Definition spend : message.transaction :=
  {| message.version := 1; message.locktime := 0;
     message.inputs :=
       [ {| message.hash := "cb"; message.index := 0;
            message.input_script := []; message.sequence := 4294967295 |} ];
     message.outputs := [] |}.

(** Modelled from the spec: [is_coinbase] is declared in
    [bitcoin/transaction.hpp], which is not at hand.  A coinbase has no
    real input: its single input has the null previous output (null hash,
    index [2^32 - 1]). *)
Definition is_coinbase (previous_outputs : list (string * Z)) : bool :=
  match previous_outputs with
  | [(h, i)] => String.eqb h null_hash && (i =? 4294967295)
  | _ => false
  end.

(** Modelled from the spec: the consensus constants [max_money] and
    [coinbase_maturity] of [bitcoin/constants.hpp], which is not at hand,
    with the values of the Bitcoin rules (21 million coins of 10^8 units;
    100 blocks). *)
Definition max_money : Z := 2100000000000000.
Definition coinbase_maturity : Z := 100.

(** A script interpreter that accepts every script. *)
Definition run (output_script input_script : message.script)
    (tx : message.transaction) (input_index : nat) : bool := true.

End Sample.

(** * Properties *)

(** ** Machine arithmetic *)

Lemma size_t_small (z : Z) :
  0 <= z < Cxx.size_t_modulus -> Cxx.size_t z = z.
Proof. intros H. unfold Cxx.size_t. now apply Z.mod_small. Qed.

Lemma add_small (a b : Z) :
  0 <= a + b < Cxx.size_t_modulus -> Cxx.add a b = a + b.
Proof. apply size_t_small. Qed.

Lemma sub_small (a b : Z) :
  0 <= a - b < Cxx.size_t_modulus -> Cxx.sub a b = a - b.
Proof. apply size_t_small. Qed.

Lemma sub_wraps (a b : Z) :
  0 < b - a <= Cxx.size_t_modulus ->
  Cxx.sub a b = Cxx.size_t_modulus - (b - a).
Proof.
  intros H. unfold Cxx.sub, Cxx.size_t.
  symmetry. apply Z.mod_unique with (q := -1); [left; lia | ring].
Qed.

(** Conditions of a [WHERE] clause, as propositions. *)
Ltac where_to_prop :=
  rewrite ?andb_true_iff, ?orb_true_iff, ?negb_true_iff, ?andb_false_iff,
    ?Z.eqb_eq, ?Z.eqb_neq, ?Z.ltb_lt, ?Z.leb_le, ?Z.gtb_lt, ?Z.geb_le,
    ?Z.ltb_ge, ?Z.leb_gt in *.

(** ** The barrier *)

Module BarrierFacts.
Import Blockchain.

(** A barrier on which the timer is armed at level [k]. *)
Definition armed (k : Z) (n : nat) (s s' : barrier) : Prop :=
  barrier_clearance_level_ s' = barrier_clearance_level_ s
  /\ barrier_timeout_ s' = barrier_timeout_ s
  /\ barrier_level_ s' = k
  /\ timer_started_ s' = true
  /\ waiting (timeout_ s') = true
  /\ expiry (timeout_ s') = Some (barrier_timeout_ s)
  /\ aborted (timeout_ s') = aborted (timeout_ s)
  /\ runs s' = n.

Lemma raise_armed (k : Z) (n : nat) (s s' : barrier) :
  armed k n s s' ->
  0 <= k -> k + 1 <= barrier_clearance_level_ s ->
  barrier_clearance_level_ s < Cxx.size_t_modulus ->
  armed (k + 1) n s (raise_barrier s')
  /\ timeout_ (raise_barrier s') = timeout_ s'.
Proof.
  intros (Hc & Ht & Hl & Hs & Hw & He & Ha & Hr) Hk Hle Hlt.
  unfold raise_barrier. cbn [barrier_level_ barrier_clearance_level_
    timer_started_ barrier_timeout_ timeout_ runs].
  rewrite Hl, Hc, Hs, add_small by lia.
  destruct (k + 1 >? barrier_clearance_level_ s) eqn:E; [lia|].
  cbn. unfold armed; cbn. repeat split; auto.
Qed.

Lemma burst_armed (m : nat) : forall (k : Z) (n : nat) (s s' : barrier),
  armed k n s s' ->
  0 <= k -> k + Z.of_nat m <= barrier_clearance_level_ s ->
  barrier_clearance_level_ s < Cxx.size_t_modulus ->
  armed (k + Z.of_nat m) n s (burst m s').
Proof.
  induction m as [|m IH]; intros k n s s' Ha Hk Hle Hlt.
  - cbn [burst]. now replace (k + Z.of_nat 0) with k by lia.
  - cbn [burst].
    destruct (raise_armed Ha) as [Ha' _]; try lia.
    replace (k + Z.of_nat (S m)) with ((k + 1) + Z.of_nat m) by lia.
    apply IH; auto; lia.
Qed.

Lemma first_raise_arms (s : barrier) :
  barrier_level_ s = 0 -> timer_started_ s = false ->
  waiting (timeout_ s) = false ->
  1 <= barrier_clearance_level_ s ->
  armed 1 (runs s) s (raise_barrier s).
Proof.
  intros Hl Hs Hw Hc. unfold raise_barrier.
  cbn [barrier_level_ barrier_clearance_level_ timer_started_
    barrier_timeout_ timeout_ runs].
  rewrite Hl, Hs, add_small by (unfold Cxx.size_t_modulus; lia).
  destruct (0 + 1 >? barrier_clearance_level_ s) eqn:E; [lia|].
  cbn. unfold armed, expires_from_now, cancel; cbn. rewrite Hw.
  repeat split; auto.
Qed.

(** C9. [raise_barrier] adds one to the level.  Above the clearance (400
    by default) it resets the state and starts a run at once, leaving no
    wait pending.  Otherwise, with no timer armed, it arms one wait of the
    timeout (500 ms by default); with a timer armed it leaves the timer as
    it is and starts nothing.  [reset_state] cancels the wait, zeroes the
    level and clears the flag.  Hence a burst of [n] calls, [n] at most the
    clearance, on a quiet barrier starts no run and leaves one wait
    pending, and the expiry of that wait starts exactly one run. *)
Theorem raise_barrier_debounces (s : barrier) (n : nat) :
  0 <= barrier_level_ s ->
  barrier_level_ s + 1 < Cxx.size_t_modulus ->
  barrier_clearance_level_ s < Cxx.size_t_modulus ->
  let level := barrier_level_ s + 1 in
  let s' := raise_barrier s in
  (barrier_clearance_level_ constructed = 400
   /\ barrier_timeout_ constructed = 500)
  /\ (level > barrier_clearance_level_ s ->
      barrier_level_ s' = 0 /\ timer_started_ s' = false
      /\ waiting (timeout_ s') = false /\ runs s' = S (runs s))
  /\ (level <= barrier_clearance_level_ s -> timer_started_ s = false ->
      barrier_level_ s' = level /\ timer_started_ s' = true
      /\ waiting (timeout_ s') = true
      /\ expiry (timeout_ s') = Some (barrier_timeout_ s)
      /\ runs s' = runs s)
  /\ (level <= barrier_clearance_level_ s -> timer_started_ s = true ->
      barrier_level_ s' = level /\ timer_started_ s' = true
      /\ timeout_ s' = timeout_ s /\ runs s' = runs s)
  /\ (barrier_level_ (reset_state s) = 0
      /\ timer_started_ (reset_state s) = false
      /\ waiting (timeout_ (reset_state s)) = false
      /\ runs (reset_state s) = runs s)
  /\ (barrier_level_ s = 0 -> timer_started_ s = false ->
      waiting (timeout_ s) = false ->
      (1 <= n)%nat -> Z.of_nat n <= barrier_clearance_level_ s ->
      let b := burst n s in
      runs b = runs s /\ barrier_level_ b = Z.of_nat n
      /\ waiting (timeout_ b) = true
      /\ expiry (timeout_ b) = Some (barrier_timeout_ s)
      /\ aborted (timeout_ b) = aborted (timeout_ s)
      /\ runs (timer_expires b) = S (runs s)
      /\ barrier_level_ (timer_expires b) = 0
      /\ timer_started_ (timer_expires b) = false
      /\ waiting (timeout_ (timer_expires b)) = false
      /\ aborted (timeout_ (timer_expires b)) = aborted (timeout_ s)).
Proof.
  intros Hl0 Hl1 Hc level s'. subst level s'.
  split; [split; reflexivity|].
  split.
  { intros Hgt. unfold raise_barrier.
    cbn [barrier_level_ barrier_clearance_level_ timer_started_
      barrier_timeout_ timeout_ runs].
    rewrite add_small by lia.
    destruct (barrier_level_ s + 1 >? barrier_clearance_level_ s) eqn:E;
      [|lia].
    cbn. unfold cancel. destruct (waiting (timeout_ s)) eqn:W; cbn;
      repeat split; auto. }
  split.
  { intros Hle Hs. unfold raise_barrier.
    cbn [barrier_level_ barrier_clearance_level_ timer_started_
      barrier_timeout_ timeout_ runs].
    rewrite add_small, Hs by lia.
    destruct (barrier_level_ s + 1 >? barrier_clearance_level_ s) eqn:E;
      [lia|].
    cbn. repeat split; auto. }
  split.
  { intros Hle Hs. unfold raise_barrier.
    cbn [barrier_level_ barrier_clearance_level_ timer_started_
      barrier_timeout_ timeout_ runs].
    rewrite add_small, Hs by lia.
    destruct (barrier_level_ s + 1 >? barrier_clearance_level_ s) eqn:E;
      [lia|].
    cbn. repeat split; auto. }
  split.
  { cbn. unfold cancel. destruct (waiting (timeout_ s)) eqn:W; cbn;
      repeat split; auto. }
  intros Hz Hs Hw Hn Hle b.
  destruct n as [|m]; [lia|].
  assert (Ha : armed (1 + Z.of_nat m) (runs s) s b).
  { subst b. cbn [burst]. apply burst_armed; try lia.
    apply first_raise_arms; auto; lia. }
  destruct Ha as (Hc' & Ht & Hl & Hst & Hwt & He & Hab & Hr).
  repeat split; auto; try lia.
  all: unfold timer_expires; rewrite Hwt; cbn; auto.
Qed.

Lemma raise_barrier_debounces_ten_calls :
  runs (timer_expires (burst 10 constructed)) = 2%nat
  /\ runs (burst 10 constructed) = 1%nat
  /\ waiting (timeout_ (burst 10 constructed)) = true
  /\ expiry (timeout_ (burst 10 constructed)) = Some 500.
Proof.
  assert (H0 : 0 <= barrier_level_ constructed) by (vm_compute; discriminate).
  assert (H1 : barrier_level_ constructed + 1 < Cxx.size_t_modulus)
    by (vm_compute; reflexivity).
  assert (H2 : barrier_clearance_level_ constructed < Cxx.size_t_modulus)
    by (vm_compute; reflexivity).
  assert (H3 : (1 <= 10)%nat) by lia.
  assert (H4 : Z.of_nat 10 <= barrier_clearance_level_ constructed)
    by (vm_compute; discriminate).
  destruct (raise_barrier_debounces constructed 10 H0 H1 H2)
    as (_ & _ & _ & _ & _ & Hb).
  destruct (Hb eq_refl eq_refl eq_refl H3 H4)
    as (Hr & _ & Hw & He & _ & Hr' & _).
  repeat split; assumption.
Defined.

(** 401 calls in a row with the default clearance: the last one starts the
    run at once and no wait is pending. *)
Example burst_401 :
  runs (burst 401 constructed) = 2%nat
  /\ waiting (timeout_ (burst 401 constructed)) = false
  /\ barrier_level_ (burst 401 constructed) = 0
  /\ runs (burst 400 constructed) = 1%nat.
Proof. vm_compute. repeat split. Qed.

End BarrierFacts.

(** ** Ordering a result *)

Section OrderBy.

Variable A : Type.
Variable key : A -> Z.

Lemma insert_by_perm (x : A) (l : list A) :
  Permutation (insert_by key x l) (x :: l).
Proof.
  induction l as [|y l IH]; cbn.
  - apply Permutation_refl.
  - destruct (key x <=? key y).
    + apply Permutation_refl.
    + eapply Permutation_trans; [apply perm_skip, IH | apply perm_swap].
Qed.

Lemma order_by_perm (l : list A) : Permutation (order_by key l) l.
Proof.
  induction l as [|x l IH]; cbn.
  - constructor.
  - eapply Permutation_trans; [apply insert_by_perm | now apply perm_skip].
Qed.

Lemma insert_by_sorted (x : A) (l : list A) :
  StronglySorted Z.le (map key l) ->
  StronglySorted Z.le (map key (insert_by key x l)).
Proof.
  induction l as [|y l IH]; cbn; intros Hs.
  - constructor; constructor.
  - inversion Hs as [|k ks Hs' Hall]; subst.
    destruct (key x <=? key y) eqn:E; cbn.
    + constructor; [assumption|].
      constructor; [lia|].
      eapply Forall_impl; [|exact Hall]. cbn. intros; lia.
    + constructor; [now apply IH|].
      assert (Hp : Permutation (map key (insert_by key x l))
                     (key x :: map key l)).
      { change (key x :: map key l) with (map key (x :: l)).
        apply Permutation_map, insert_by_perm. }
      eapply Permutation_Forall; [apply Permutation_sym, Hp|].
      constructor; [lia | assumption].
Qed.

Lemma order_by_sorted (l : list A) :
  StronglySorted Z.le (map key (order_by key l)).
Proof.
  induction l as [|x l IH]; cbn.
  - constructor.
  - now apply insert_by_sorted.
Qed.

End OrderBy.

(** An ascending list is determined by its elements. *)
Lemma ascending_unique (l1 : list Z) : forall l2 : list Z,
  StronglySorted Z.le l1 -> StronglySorted Z.le l2 ->
  Permutation l1 l2 -> l1 = l2.
Proof.
  induction l1 as [|a l1 IH]; intros l2 H1 H2 Hp.
  - now apply Permutation_nil in Hp.
  - destruct l2 as [|b l2].
    + now apply Permutation_sym, Permutation_nil in Hp.
    + inversion H1 as [|? ? H1' Ha]; inversion H2 as [|? ? H2' Hb]; subst.
      assert (a = b).
      { assert (Ia : In a (b :: l2))
          by (eapply Permutation_in; [exact Hp | now left]).
        assert (Ib : In b (a :: l1))
          by (eapply Permutation_in;
              [apply Permutation_sym; exact Hp | now left]).
        rewrite Forall_forall in Ha, Hb.
        destruct Ia as [Ia|Ia]; [congruence|].
        destruct Ib as [Ib|Ib]; [congruence|].
        specialize (Ha _ Ib). specialize (Hb _ Ia). lia. }
      subst b. f_equal. apply IH; auto.
      now apply Permutation_cons_inv in Hp.
Qed.

Lemma row_limit_1_skipn (A : Type) (l : list A) (k : nat) :
  row (limit_1 (skipn k l))
  = match nth_error l k with
    | Some a => one_row a
    | None => no_row
    end.
Proof.
  revert l; induction k as [|k IH]; intros [|a l]; cbn; auto.
  apply IH.
Qed.

(** Distinct integers of an interval of [n] values are at most [n]. *)
Lemma distinct_in_interval (lo : Z) (n : nat) (l : list Z) :
  NoDup l -> (forall z, In z l -> lo <= z < lo + Z.of_nat n) ->
  (List.length l <= n)%nat.
Proof.
  intros Hn Hr.
  rewrite <- (length_map (fun z => Z.to_nat (z - lo)) l).
  rewrite <- (length_seq n 0).
  apply NoDup_incl_length.
  - revert Hr. induction Hn as [|z l Hz Hn IH]; cbn; intros Hr.
    + constructor.
    + constructor.
      * rewrite in_map_iff. intros (y & Hy & Iy).
        assert (lo <= y < lo + Z.of_nat n) by (apply Hr; now right).
        assert (lo <= z < lo + Z.of_nat n) by (apply Hr; now left).
        assert (y = z) by lia. congruence.
      * apply IH. intros; apply Hr; now right.
  - intros k Hk. rewrite in_map_iff in Hk. destruct Hk as (z & <- & Hz).
    apply in_seq. specialize (Hr _ Hz). lia.
Qed.

(** ** The queries of the validator *)

Module QueryFacts.
Import ValidateBlock.

Lemma bits_join_is_or (head body : Z) :
  0 <= body < 2 ^ 24 -> 0 <= head < 2 ^ 8 ->
  Reader.join_bits head body = Z.lor body (Z.shiftl head 24).
Proof.
  intros Hb Hh. unfold Reader.join_bits, Cxx.uint32_t, Cxx.uint32_modulus.
  rewrite Z.shiftl_mul_pow2 by lia.
  assert (Hs : 0 <= head * 2 ^ 24 < 2 ^ 32).
  { change (2 ^ 32) with (2 ^ 8 * 2 ^ 24). nia. }
  rewrite (Z.mod_small (head * 2 ^ 24)) by exact Hs.
  assert (Hd : Z.land body (head * 2 ^ 24) = 0).
  { apply Z.bits_inj'. intros n Hn. rewrite Z.land_spec, Z.bits_0.
    destruct (Z_lt_ge_dec n 24) as [Hlt|Hge].
    - rewrite Z.mul_pow2_bits_low by lia. apply andb_false_r.
    - destruct (Z.eq_dec body 0) as [->|Hne].
      + now rewrite Z.bits_0.
      + rewrite (Z.bits_above_log2 body n); [reflexivity | lia |].
        apply Z.lt_le_trans with 24; [apply Z.log2_lt_pow2; lia | lia]. }
  rewrite <- Z.lxor_lor, <- Z.add_nocarry_lxor by exact Hd.
  apply Z.mod_small.
  change (2 ^ 32) with (2 ^ 8 * 2 ^ 24) in *. nia.
Qed.

(** C5. [median_time_past] answers the [when_created] of the row at offset
    [min(5, depth/2)], counted from 0 in ascending [when_created], among
    the blocks of space 0 on the validated block's branch whose depth is
    below the block's depth and at least that depth minus 11 (at most 11
    blocks when no two of them share a depth); below depth 11 the offset is
    [depth/2].  With fewer rows than the offset asks for, reading the empty
    result raises [empty_row_access]. *)
Theorem median_time_past_offset (info : postgresql_block_info)
    (db : database) :
  0 <= info_depth info ->
  let offset := Z.min 5 (info_depth info / 2) in
  median_offset (info_depth info) = offset
  /\ (info_depth info < 11 ->
      median_offset (info_depth info) = info_depth info / 2)
  /\ (forall b, In b (find_median info db) <->
        In b (blocks db) /\ space b = 0
        /\ info_depth info - 11 <= depth b < info_depth info
        /\ span_left b <= info_span_left info
        /\ info_span_right info <= span_right b)
  /\ (NoDup (map depth (find_median info db)) ->
      (List.length (find_median info db) <= 11)%nat)
  /\ (forall l : list Z,
        Permutation l (map when_created (find_median info db)) ->
        StronglySorted Z.le l ->
        median_time_past info db
        = match nth_error l (Z.to_nat offset) with
          | Some t => Returned t
          | None => Thrown empty_row_access
          end).
Proof.
  intros Hd offset.
  assert (Hoff : median_offset (info_depth info) = offset).
  { unfold median_offset, offset.
    destruct (info_depth info <? 11) eqn:E.
    - apply Z.ltb_lt in E.
      assert (info_depth info / 2 <= 5)
        by (apply Z.lt_succ_r, Z.div_lt_upper_bound; lia).
      lia.
    - apply Z.ltb_ge in E.
      assert (5 <= info_depth info / 2)
        by (apply Z.div_le_lower_bound; lia).
      lia. }
  assert (Hin : forall b, In b (find_median info db) <->
        In b (blocks db) /\ space b = 0
        /\ info_depth info - 11 <= depth b < info_depth info
        /\ span_left b <= info_span_left info
        /\ info_span_right info <= span_right b).
  { intros b. unfold find_median, sql_select. rewrite filter_In.
    where_to_prop. intuition lia. }
  split; [exact Hoff|].
  split.
  { intros Hlt. unfold median_offset.
    apply Z.ltb_lt in Hlt. now rewrite Hlt. }
  split; [exact Hin|].
  split.
  { intros Hnd. rewrite <- (length_map depth).
    apply (@distinct_in_interval (info_depth info - 11) 11); [exact Hnd|].
    intros z Hz. rewrite in_map_iff in Hz. destruct Hz as (b & <- & Hb).
    apply Hin in Hb. lia. }
  intros l Hp Hs. unfold median_time_past.
  rewrite row_limit_1_skipn, Hoff.
  assert (Hl : l = map when_created
                     (order_by when_created (find_median info db))).
  { apply ascending_unique; [exact Hs | apply order_by_sorted |].
    eapply Permutation_trans; [exact Hp|].
    apply Permutation_map, Permutation_sym, order_by_perm. }
  rewrite Hl, nth_error_map.
  now destruct (nth_error (order_by when_created (find_median info db))
                  (Z.to_nat offset)).
Qed.

(** C6. [previous_block_bits] answers [bits_body | (bits_head << 24)] of
    the one block of space 0 at depth - 1 whose span covers the validated
    block's, the head being a byte and the body 24 bits wide.  When the
    query selects no row or several, the call raises and answers nothing;
    an exception that leaves [validates] leaves [validate] at once, with
    the store as it was before the block. *)
Theorem previous_block_bits_unique_or_fatal (difficulty : Z -> Z -> Z)
    (validates :
       database -> postgresql_block_info -> message.block -> outcome bool)
    (info : postgresql_block_info) (db : database) :
  (forall e, previous_block_bits info db = Thrown e ->
     forall blk, validates db info blk = Thrown e) ->
  (forall b, In b (previous info db) <->
     In b (blocks db) /\ space b = 0 /\ depth b = info_depth info - 1
     /\ span_left b <= info_span_left info
     /\ span_right b >= info_span_right info)
  /\ (forall b, previous info db = [b] ->
      0 <= bits_body b < 2 ^ 24 -> 0 <= bits_head b < 2 ^ 8 ->
      previous_block_bits info db
      = Returned (Z.lor (bits_body b) (Z.shiftl (bits_head b) 24)))
  /\ (List.length (previous info db) <> 1%nat ->
      exists e, previous_block_bits info db = Thrown e
        /\ forall r rest, Reader.read_block_info r = Returned info ->
             Blockchain.validate_rows difficulty validates (r :: rest) db
             = Blockchain.validate_thrown e db).
Proof.
  intros Hv. split; [|split].
  - intros b. unfold previous, sql_select. rewrite filter_In.
    where_to_prop. intuition lia.
  - intros b Hb Hbody Hhead. unfold previous_block_bits. rewrite Hb. cbn.
    now rewrite bits_join_is_or.
  - intros Hlen.
    assert (He : exists e, previous_block_bits info db = Thrown e).
    { unfold previous_block_bits.
      destruct (previous info db) as [|b [|b' l]]; cbn in *.
      - now exists empty_row_access.
      - congruence.
      - now exists multiple_rows_query. }
    destruct He as [e He]. exists e. split; [exact He|].
    intros r rest Hr. cbn. rewrite Hr. now rewrite (Hv e He).
Qed.

Lemma median_time_past_offset_sample :
  0 <= info_depth Sample.info_4
  /\ median_time_past Sample.info_4 Sample.store = Returned 200.
Proof.
  assert (H0 : 0 <= info_depth Sample.info_4) by (vm_compute; discriminate).
  split; [exact H0|].
  destruct (median_time_past_offset Sample.info_4 Sample.store H0)
    as (_ & _ & _ & _ & Hm).
  apply (Hm [100; 200; 300]).
  - apply perm_skip, perm_swap.
  - repeat constructor; lia.
Defined.

(** A checker that asks for the previous bits and lets its exception
    through. *)
Definition bits_checker (db : database) (info : postgresql_block_info)
    (blk : message.block) : outcome bool :=
  match previous_block_bits info db with
  | Thrown e => Thrown e
  | Returned bits_ => Returned (bits_ =? message.bits blk)
  end.

Lemma bits_checker_lets_through (info : postgresql_block_info)
    (db : database) (e : failure) :
  previous_block_bits info db = Thrown e ->
  forall blk, bits_checker db info blk = Thrown e.
Proof. intros He blk. unfold bits_checker. now rewrite He. Qed.

Lemma previous_block_bits_sample :
  previous_block_bits Sample.info_4 Sample.store = Returned 486604799
  /\ exists e,
       previous_block_bits Sample.info_far Sample.store = Thrown e
       /\ Blockchain.validate_rows (fun _ _ => 1) bits_checker
            [Sample.block 9 "h9" "h8" (Some 8) 0 7 0 0 900 orphan]
            Sample.store
          = Blockchain.validate_thrown e Sample.store.
Proof.
  split.
  - destruct (previous_block_bits_unique_or_fatal (fun _ _ => 1)
                bits_checker Sample.info_4 Sample.store
                (bits_checker_lets_through Sample.info_4 Sample.store))
      as (_ & Hone & _).
    apply (Hone (Sample.block 3 "h3" "h2" (Some 2) 0 2 0 0 200 valid)).
    + reflexivity.
    + vm_compute. split; [discriminate | reflexivity].
    + vm_compute. split; [discriminate | reflexivity].
  - destruct (previous_block_bits_unique_or_fatal (fun _ _ => 1)
                bits_checker Sample.info_far Sample.store
                (bits_checker_lets_through Sample.info_far Sample.store))
      as (_ & _ & Hnone).
    destruct Hnone as (e & He & Hrun).
    + vm_compute. discriminate.
    + exists e. split; [exact He|]. apply Hrun. reflexivity.
Defined.

End QueryFacts.

(** ** Connecting an input *)

Module ConnectInputFacts.
Import ValidateBlock.

Section ConnectInput.

Variable max_money : Z.
Variable coinbase_maturity : Z.
Variable is_coinbase : list (string * Z) -> bool.
Variable run :
  message.script -> message.script -> message.transaction -> nat -> bool.
Variable info : postgresql_block_info.

Variable db : database.
Variable transaction_id_ : Z.
Variable current_tx : message.transaction.
Variable input_index : nat.
Variable value_in : Z.

Let connect : outcome (bool * Z) :=
  connect_input max_money coinbase_maturity is_coinbase run info
    transaction_id_ current_tx input_index value_in db.

(** The previous transaction and the previous output of an input, as
    [find_previous_tx] and [find_previous_output] select them. *)
Definition previous_tx_of (input : message.transaction_input)
    : list transaction_row :=
  sql_select (fun t => String.eqb (transaction_hash t) (message.hash input))
    (transactions db).

Definition previous_output_of (input : message.transaction_input)
    (previous_tx : transaction_row) : list output_row :=
  sql_select
    (fun o => (out_transaction_id o =? transaction_id previous_tx)
              && (out_index_in_parent o =? message.index input))
    (outputs db).

(** The input refers to the output [o] of the transaction [p]. *)
Definition refers_to (input : message.transaction_input)
    (p : transaction_row) (o : output_row) : Prop :=
  nth_error (message.inputs current_tx) input_index = Some input
  /\ previous_tx_of input = [p]
  /\ previous_output_of input p = [o].

(** The maturity test lets the input through. *)
Definition passes_maturity (p : transaction_row) : Prop :=
  is_coinbase_transaction is_coinbase (transaction_id p) db = false
  \/ exists d,
       previous_block_depth info (transaction_id p) db = Returned d
       /\ immature coinbase_maturity info d = false.

Definition script_accepts (input : message.transaction_input)
    (o : output_row) : bool :=
  run (Reader.select_script (out_script_id o) db)
    (message.input_script input) current_tx input_index.

(** What [connect_input] does once the output is found and its value is
    within [max_money]. *)
Lemma connect_after_value (input : message.transaction_input)
    (p : transaction_row) (o : output_row) :
  refers_to input p o ->
  (internal_value o >? max_money) = false ->
  passes_maturity p ->
  connect
  = if negb (script_accepts input o) then Returned (false, value_in)
    else if search_double_spends transaction_id_ input input_index db
    then Returned (false, value_in)
    else if Cxx.add value_in (internal_value o) >? max_money
    then Returned (false, Cxx.add value_in (internal_value o))
    else Returned (true, Cxx.add value_in (internal_value o)).
Proof.
  intros (Hi & Hp & Ho) Hv Hm. unfold connect, connect_input.
  rewrite Hi. fold (previous_tx_of input). rewrite Hp. cbn [row].
  fold (previous_output_of input p). rewrite Ho. cbn [row]. rewrite Hv.
  unfold script_accepts.
  destruct Hm as [Hc | (d & Hd & Him)].
  - now rewrite Hc.
  - rewrite Hd, Him.
    now destruct (is_coinbase_transaction is_coinbase (transaction_id p) db).
Qed.

Lemma connect_oversized (input : message.transaction_input)
    (p : transaction_row) (o : output_row) :
  refers_to input p o ->
  (internal_value o >? max_money) = true ->
  connect = Returned (false, value_in).
Proof.
  intros (Hi & Hp & Ho) Hv. unfold connect, connect_input.
  rewrite Hi. fold (previous_tx_of input). rewrite Hp. cbn [row].
  fold (previous_output_of input p). rewrite Ho. cbn [row]. now rewrite Hv.
Qed.

Lemma connect_immature (input : message.transaction_input)
    (p : transaction_row) (o : output_row) (d : Z) :
  refers_to input p o ->
  (internal_value o >? max_money) = false ->
  is_coinbase_transaction is_coinbase (transaction_id p) db = true ->
  previous_block_depth info (transaction_id p) db = Returned d ->
  immature coinbase_maturity info d = true ->
  connect = Returned (false, value_in).
Proof.
  intros (Hi & Hp & Ho) Hv Hc Hd Him. unfold connect, connect_input.
  rewrite Hi. fold (previous_tx_of input). rewrite Hp. cbn [row].
  fold (previous_output_of input p). rewrite Ho. cbn [row].
  now rewrite Hv, Hc, Hd, Him.
Qed.

(** A returned [true] went through every test. *)
Lemma connect_true_inv (v' : Z) :
  connect = Returned (true, v') ->
  exists input p o,
    refers_to input p o
    /\ (internal_value o >? max_money) = false
    /\ script_accepts input o = true
    /\ search_double_spends transaction_id_ input input_index db = false
    /\ v' = Cxx.add value_in (internal_value o)
    /\ (v' >? max_money) = false.
Proof.
  unfold connect, connect_input.
  destruct (nth_error (message.inputs current_tx) input_index)
    as [input|] eqn:Hi; [|discriminate].
  fold (previous_tx_of input).
  destruct (previous_tx_of input) as [|p [|? ?]] eqn:Hp; cbn [row];
    try discriminate.
  fold (previous_output_of input p).
  destruct (previous_output_of input p) as [|o [|? ?]] eqn:Ho; cbn [row];
    try discriminate.
  destruct (internal_value o >? max_money) eqn:Hv; [discriminate|].
  fold (script_accepts input o).
  assert (Hrest :
    (if negb (script_accepts input o) then Returned (false, value_in)
     else if search_double_spends transaction_id_ input input_index db
     then Returned (false, value_in)
     else if Cxx.add value_in (internal_value o) >? max_money
     then Returned (false, Cxx.add value_in (internal_value o))
     else Returned (true, Cxx.add value_in (internal_value o)))
    = Returned (true, v') ->
    script_accepts input o = true
    /\ search_double_spends transaction_id_ input input_index db = false
    /\ v' = Cxx.add value_in (internal_value o)
    /\ (v' >? max_money) = false).
  { destruct (script_accepts input o); cbn; [|discriminate].
    destruct (search_double_spends transaction_id_ input input_index db);
      [discriminate|].
    destruct (Cxx.add value_in (internal_value o) >? max_money) eqn:Hs;
      [discriminate|].
    intros [= <-]. auto. }
  intros H. exists input, p, o.
  assert (Hgoal : script_accepts input o = true
    /\ search_double_spends transaction_id_ input input_index db = false
    /\ v' = Cxx.add value_in (internal_value o)
    /\ (v' >? max_money) = false).
  { destruct (is_coinbase_transaction is_coinbase (transaction_id p) db).
    - destruct (previous_block_depth info (transaction_id p) db)
        as [d|e]; [|discriminate].
      destruct (immature coinbase_maturity info d); [discriminate|].
      now apply Hrest.
    - now apply Hrest. }
  unfold refers_to. intuition.
Qed.

Lemma refers_to_unique (input input' : message.transaction_input)
    (p p' : transaction_row) (o o' : output_row) :
  refers_to input p o -> refers_to input' p' o' ->
  input' = input /\ p' = p /\ o' = o.
Proof.
  intros (Hi & Hp & Ho) (Hi' & Hp' & Ho').
  assert (input' = input) by congruence. subst input'.
  assert (p' = p) by congruence. subst p'.
  assert (o' = o) by congruence. auto.
Qed.

Lemma connect_false_inv (v' : Z) :
  connect = Returned (false, v') ->
  v' = value_in
  \/ exists input p o,
       refers_to input p o
       /\ v' = Cxx.add value_in (internal_value o)
       /\ (v' >? max_money) = true.
Proof.
  unfold connect, connect_input.
  destruct (nth_error (message.inputs current_tx) input_index)
    as [input|] eqn:Hi; [|discriminate].
  fold (previous_tx_of input).
  destruct (previous_tx_of input) as [|p [|? ?]] eqn:Hp; cbn [row];
    try discriminate; [intros [= <-]; now left|].
  fold (previous_output_of input p).
  destruct (previous_output_of input p) as [|o [|? ?]] eqn:Ho; cbn [row];
    try discriminate; [intros [= <-]; now left|].
  destruct (internal_value o >? max_money) eqn:Hv; [intros [= <-]; now left|].
  fold (script_accepts input o).
  assert (Hrest :
    (if negb (script_accepts input o) then Returned (false, value_in)
     else if search_double_spends transaction_id_ input input_index db
     then Returned (false, value_in)
     else if Cxx.add value_in (internal_value o) >? max_money
     then Returned (false, Cxx.add value_in (internal_value o))
     else Returned (true, Cxx.add value_in (internal_value o)))
    = Returned (false, v') ->
    v' = value_in
    \/ (v' = Cxx.add value_in (internal_value o)
        /\ (v' >? max_money) = true)).
  { destruct (script_accepts input o); cbn; [|intros [= <-]; now left].
    destruct (search_double_spends transaction_id_ input input_index db);
      [intros [= <-]; now left|].
    destruct (Cxx.add value_in (internal_value o) >? max_money) eqn:Hs;
      [|discriminate].
    intros [= <-]. now right. }
  intros H.
  assert (Hgoal : v' = value_in
    \/ (v' = Cxx.add value_in (internal_value o)
        /\ (v' >? max_money) = true)).
  { destruct (is_coinbase_transaction is_coinbase (transaction_id p) db).
    - destruct (previous_block_depth info (transaction_id p) db)
        as [d|e]; [|discriminate].
      destruct (immature coinbase_maturity info d).
      + injection H as <-. now left.
      + now apply Hrest.
    - now apply Hrest. }
  destruct Hgoal as [->|[-> Hgt]]; [now left|right].
  exists input, p, o. unfold refers_to. auto.
Qed.

(** C7. With the referenced output found, [connect_input] returns [false]
    when the output's value is above [max_money], and, for a running
    total within [max_money], when the total plus the value is above
    [max_money] (provided the depth query of a coinbase answers, it
    returns [false]; in any case it does not return [true]).  An input
    that passes leaves the total increased by the output's value. *)
Theorem connect_input_max_money (input : message.transaction_input)
    (p : transaction_row) (o : output_row) :
  refers_to input p o ->
  0 <= value_in <= max_money ->
  2 * max_money < Cxx.size_t_modulus ->
  0 <= internal_value o ->
  (internal_value o > max_money -> connect = Returned (false, value_in))
  /\ (value_in + internal_value o > max_money ->
      (forall v', connect <> Returned (true, v'))
      /\ ((is_coinbase_transaction is_coinbase (transaction_id p) db = true ->
           exists d,
             previous_block_depth info (transaction_id p) db = Returned d) ->
          exists v', connect = Returned (false, v')))
  /\ (forall v', connect = Returned (true, v') ->
      v' = value_in + internal_value o /\ v' <= max_money).
Proof.
  intros Hr Hvin Hmax Hpos.
  assert (Htrue : forall v', connect = Returned (true, v') ->
            v' = value_in + internal_value o /\ v' <= max_money).
  { intros v' Hc. apply connect_true_inv in Hc.
    destruct Hc as (input' & p' & o' & Hr' & Hv & _ & _ & -> & Hle).
    destruct (refers_to_unique Hr Hr') as (_ & _ & ->).
    where_to_prop. rewrite add_small in * by lia. lia. }
  split; [|split].
  - intros Hgt. apply connect_oversized with input p o; auto.
    now apply Z.gtb_lt, Z.gt_lt.
  - intros Hsum. split.
    + intros v' Hc. apply Htrue in Hc. lia.
    + intros Hdepth.
      destruct (internal_value o >? max_money) eqn:Hv.
      { exists value_in. now apply connect_oversized with input p o. }
      assert (Hadd : Cxx.add value_in (internal_value o)
                     = value_in + internal_value o).
      { where_to_prop. apply add_small. lia. }
      assert (Hpass : passes_maturity p ->
                exists v', connect = Returned (false, v')).
      { intros Hm. rewrite (connect_after_value Hr Hv Hm), Hadd.
        assert (Hs : (value_in + internal_value o >? max_money) = true)
          by (apply Z.gtb_lt; lia).
        rewrite Hs.
        destruct (negb (script_accepts input o)); [now eexists|].
        destruct (search_double_spends transaction_id_ input input_index db);
          now eexists. }
      destruct (is_coinbase_transaction is_coinbase (transaction_id p) db)
        eqn:Hcb.
      * destruct (Hdepth eq_refl) as [d Hd].
        destruct (immature coinbase_maturity info d) eqn:Him.
        -- exists value_in. now apply connect_immature with input p o d.
        -- apply Hpass. right. now exists d.
      * apply Hpass. now left.
  - exact Htrue.
Qed.

(** C10. A rejection by the last test, the total above [max_money],
    leaves [value_in] already increased by the output's value; every
    earlier [false] (no previous transaction, no such output, a value
    above [max_money], an immature coinbase, a failing script, a double
    spend) leaves [value_in] as it was.  No other [false] is returned. *)
Theorem connect_input_value_in_on_rejection
    (input : message.transaction_input) :
  nth_error (message.inputs current_tx) input_index = Some input ->
  (previous_tx_of input = [] -> connect = Returned (false, value_in))
  /\ (forall p, previous_tx_of input = [p] ->
      previous_output_of input p = [] ->
      connect = Returned (false, value_in))
  /\ (forall p o, refers_to input p o ->
      (internal_value o > max_money -> connect = Returned (false, value_in))
      /\ (internal_value o <= max_money ->
          (forall d,
             is_coinbase_transaction is_coinbase (transaction_id p) db = true ->
             previous_block_depth info (transaction_id p) db = Returned d ->
             immature coinbase_maturity info d = true ->
             connect = Returned (false, value_in))
          /\ (passes_maturity p ->
              (script_accepts input o = false ->
               connect = Returned (false, value_in))
              /\ (script_accepts input o = true ->
                  search_double_spends transaction_id_ input input_index db
                  = true ->
                  connect = Returned (false, value_in))
              /\ (script_accepts input o = true ->
                  search_double_spends transaction_id_ input input_index db
                  = false ->
                  Cxx.add value_in (internal_value o) > max_money ->
                  connect
                  = Returned (false, Cxx.add value_in (internal_value o))))
          /\ (0 <= value_in + internal_value o < Cxx.size_t_modulus ->
              Cxx.add value_in (internal_value o)
              = value_in + internal_value o)))
  /\ (forall v', connect = Returned (false, v') ->
      v' = value_in
      \/ exists p o,
           refers_to input p o
           /\ v' = Cxx.add value_in (internal_value o)
           /\ v' > max_money).
Proof.
  intros Hi. split; [|split; [|split]].
  - intros Hp. unfold connect, connect_input. rewrite Hi.
    fold (previous_tx_of input). now rewrite Hp.
  - intros p Hp Ho. unfold connect, connect_input. rewrite Hi.
    fold (previous_tx_of input). rewrite Hp. cbn [row].
    fold (previous_output_of input p). now rewrite Ho.
  - intros p o Hr. split.
    + intros Hgt. apply connect_oversized with input p o; auto.
      now apply Z.gtb_lt, Z.gt_lt.
    + intros Hle.
      assert (Hv : (internal_value o >? max_money) = false)
        by (rewrite Z.gtb_ltb; apply Z.ltb_ge; lia).
      split; [|split].
      * intros d Hcb Hd Him. now apply connect_immature with input p o d.
      * intros Hm. rewrite (connect_after_value Hr Hv Hm).
        split; [|split].
        -- now intros ->.
        -- now intros -> ->.
        -- intros -> -> Hgt. cbn.
           assert (Hs : (Cxx.add value_in (internal_value o) >? max_money)
                        = true) by (apply Z.gtb_lt; lia).
           now rewrite Hs.
      * apply add_small.
  - intros v' Hc. apply connect_false_inv in Hc.
    destruct Hc as [->|(input' & p & o & Hr & -> & Hgt)]; [now left|right].
    assert (input' = input) by (destruct Hr as (Hi' & _); congruence).
    subst input'. exists p, o. split; [exact Hr|]. split; [reflexivity|].
    apply Z.gtb_lt in Hgt. lia.
Qed.

End ConnectInput.

(** The input of [Sample.spend], the coinbase it spends and the output. *)
Definition sample_input : message.transaction_input :=
  {| message.hash := "cb"; message.index := 0;
     message.input_script := []; message.sequence := 4294967295 |}.

Definition sample_coinbase : transaction_row :=
  {| transaction_id := 1; transaction_hash := "cb";
     tx_version := 1; tx_locktime := 0 |}.

Definition sample_output : output_row :=
  {| output_id := 1; out_transaction_id := 1; out_index_in_parent := 0;
     internal_value := 50; out_script_id := 3 |}.

Lemma sample_refers_to :
  refers_to Sample.spend_store Sample.spend 0 sample_input sample_coinbase
    sample_output.
Proof. repeat split. Qed.

Lemma connect_input_max_money_sample :
  exists v',
    connect_input Sample.max_money Sample.coinbase_maturity
      Sample.is_coinbase Sample.run Sample.info_4 2 Sample.spend 0
      Sample.max_money Sample.spend_store
    = Returned (false, v').
Proof.
  assert (Hin : 0 <= Sample.max_money <= Sample.max_money)
    by (vm_compute; split; discriminate).
  assert (Hmax : 2 * Sample.max_money < Cxx.size_t_modulus)
    by (vm_compute; reflexivity).
  assert (Hpos : 0 <= internal_value sample_output)
    by (vm_compute; discriminate).
  destruct (@connect_input_max_money Sample.max_money
              Sample.coinbase_maturity Sample.is_coinbase Sample.run
              Sample.info_4 Sample.spend_store 2 Sample.spend 0
              Sample.max_money sample_input sample_coinbase sample_output
              sample_refers_to Hin Hmax Hpos)
    as (_ & Hsum & _).
  apply Hsum.
  - vm_compute. reflexivity.
  - intros _. exists 0. reflexivity.
Defined.

Lemma connect_input_value_in_on_rejection_sample :
  connect_input Sample.max_money Sample.coinbase_maturity
    Sample.is_coinbase Sample.run Sample.info_4 2 Sample.spend 0
    Sample.max_money Sample.spend_store
  = Returned (false, Sample.max_money + 50).
Proof.
  assert (Hi : nth_error (message.inputs Sample.spend) 0 = Some sample_input)
    by reflexivity.
  destruct (@connect_input_value_in_on_rejection Sample.max_money
              Sample.coinbase_maturity Sample.is_coinbase Sample.run
              Sample.info_4 Sample.spend_store 2 Sample.spend 0
              Sample.max_money sample_input Hi)
    as (_ & _ & Hfound & _).
  destruct (Hfound sample_coinbase sample_output sample_refers_to)
    as (_ & Hwithin).
  destruct Hwithin as (_ & Hpass & Hadd).
  - vm_compute. discriminate.
  - destruct Hpass as (_ & _ & Hlast).
    + right. exists 0. split; reflexivity.
    + rewrite Hlast.
      * rewrite Hadd; [reflexivity|].
        vm_compute. split; [discriminate | reflexivity].
      * reflexivity.
      * reflexivity.
      * vm_compute. reflexivity.
Defined.

(** *** The maturity test *)

(** The test compares [previous depth - current depth], taken in
    [size_t], with the maturity: for a coinbase in an ancestor block the
    difference wraps around to a value near [2^64], and the test lets the
    input through however young the coinbase is. *)
Lemma immature_of_ancestor (coinbase_maturity : Z)
    (info : postgresql_block_info) (previous_depth : Z) :
  0 <= previous_depth < info_depth info ->
  info_depth info < Cxx.size_t_modulus ->
  coinbase_maturity <= Cxx.size_t_modulus - info_depth info ->
  immature coinbase_maturity info previous_depth = false.
Proof.
  intros Hd Hi Hm. unfold immature.
  rewrite sub_wraps by lia. apply Z.ltb_ge. lia.
Qed.

(** C2, on the code.  The coinbase of block 1 (depth 0) is spent in block 4
    (depth 3): the depth difference 3 is below the maturity 100, and
    [connect_input] returns [true]. *)
Example connect_input_accepts_young_coinbase :
  is_coinbase_transaction Sample.is_coinbase 1 Sample.spend_store = true
  /\ previous_block_depth Sample.info_4 1 Sample.spend_store = Returned 0
  /\ info_depth Sample.info_4 - 0 < Sample.coinbase_maturity
  /\ immature Sample.coinbase_maturity Sample.info_4 0 = false
  /\ connect_input Sample.max_money Sample.coinbase_maturity
       Sample.is_coinbase Sample.run Sample.info_4 2 Sample.spend 0 0
       Sample.spend_store
     = Returned (true, 50).
Proof. vm_compute. repeat split. Qed.

End ConnectInputFacts.

(** ** Row-wise effect of statements *)

Section RowWise.

Variable A : Type.

Lemma Forall2_sql_update (R : A -> A -> Prop) (where_ : A -> bool)
    (set : A -> A) (t : list A) :
  (forall r, R r r) -> (forall r, R r (set r)) ->
  Forall2 R t (sql_update where_ set t).
Proof.
  intros Hrefl Hset. induction t as [|r t IH]; cbn; constructor; auto.
  destruct (where_ r); auto.
Qed.

Lemma Forall2_sql_update_cases (R : A -> A -> Prop) (where_ : A -> bool)
    (set : A -> A) (t : list A) :
  (forall r, where_ r = false -> R r r) ->
  (forall r, where_ r = true -> R r (set r)) ->
  Forall2 R t (sql_update where_ set t).
Proof.
  intros Hkeep Hset. induction t as [|r t IH]; cbn; constructor; auto.
  destruct (where_ r) eqn:E; auto.
Qed.

Lemma Forall2_compose (R1 R2 R3 : A -> A -> Prop) (l1 : list A) :
  forall l2 l3,
  (forall a b c, R1 a b -> R2 b c -> R3 a c) ->
  Forall2 R1 l1 l2 -> Forall2 R2 l2 l3 -> Forall2 R3 l1 l3.
Proof.
  induction l1 as [|a l1 IH]; intros l2 l3 Hc H12 H23.
  - inversion H12; subst. inversion H23; subst. constructor.
  - inversion H12; subst. inversion H23; subst. constructor; eauto.
Qed.

Lemma Forall2_refl (R : A -> A -> Prop) (l : list A) :
  (forall a, R a a) -> Forall2 R l l.
Proof. intros H. induction l; constructor; auto. Qed.

Lemma Forall2_weaken (R R' : A -> A -> Prop) (l l' : list A) :
  (forall a b, R a b -> R' a b) -> Forall2 R l l' -> Forall2 R' l l'.
Proof. intros H. induction 1; constructor; auto. Qed.

(** Rows in the same places of two tables, and their images. *)
Lemma Forall2_In_l (R : A -> A -> Prop) (l l' : list A) (a : A) :
  Forall2 R l l' -> In a l -> exists b, In b l' /\ R a b.
Proof.
  induction 1 as [|x y l l' Hxy _ IH]; cbn; [tauto|].
  intros [->|Hin]; [eauto|]. destruct (IH Hin) as (b & ? & ?); eauto.
Qed.

Lemma Forall2_In_r (R : A -> A -> Prop) (l l' : list A) (b : A) :
  Forall2 R l l' -> In b l' -> exists a, In a l /\ R a b.
Proof.
  induction 1 as [|x y l l' Hxy _ IH]; cbn; [tauto|].
  intros [->|Hin]; [eauto|]. destruct (IH Hin) as (a & ? & ?); eauto.
Qed.

(** A selection on a column that two tables agree on selects rows in the
    same places. *)
Lemma Forall2_select (R : A -> A -> Prop) (w : A -> bool) (l l' : list A) :
  (forall a b, R a b -> w b = w a) ->
  Forall2 R l l' -> Forall2 R (sql_select w l) (sql_select w l').
Proof.
  intros Hw. induction 1 as [|x y l l' Hxy _ IH]; cbn; [constructor|].
  rewrite (Hw _ _ Hxy). destruct (w x); auto.
Qed.

End RowWise.

Lemma row_of_Forall2 (A : Type) (R : A -> A -> Prop) (l l' : list A) :
  Forall2 R l l' ->
  match row l, row l' with
  | no_row, no_row => True
  | one_row a, one_row b => R a b
  | many_rows, many_rows => True
  | _, _ => False
  end.
Proof.
  intros H. destruct H as [|a b l l' Hab H]; cbn; [exact I|].
  destruct H; cbn; auto.
Qed.

(** ** The organizer *)

Module OrganizerFacts.
Import Organizer.

(** The columns that no statement of the organizer assigns. *)
Definition same_content (r r' : block_row) : Prop :=
  block_id r' = block_id r
  /\ block_hash r' = block_hash r
  /\ prev_block_hash r' = prev_block_hash r
  /\ version r' = version r
  /\ when_created r' = when_created r
  /\ bits_head r' = bits_head r
  /\ bits_body r' = bits_body r
  /\ nonce r' = nonce r
  /\ merkle r' = merkle r
  /\ status r' = status r.

(** The row stays in its tree, at its depth. *)
Definition unmoved (r r' : block_row) : Prop :=
  same_content r r' /\ space r' = space r /\ depth r' = depth r.

(** Only the span of the row may differ. *)
Definition same_but_span (r r' : block_row) : Prop :=
  unmoved r r' /\ prev_block_id r' = prev_block_id r.

Lemma same_content_refl (r : block_row) : same_content r r.
Proof. unfold same_content; repeat split. Qed.

Lemma same_content_trans (a b c : block_row) :
  same_content a b -> same_content b c -> same_content a c.
Proof. unfold same_content. intuition congruence. Qed.

Lemma unmoved_refl (r : block_row) : unmoved r r.
Proof. unfold unmoved; auto using same_content_refl. Qed.

Lemma unmoved_trans (a b c : block_row) :
  unmoved a b -> unmoved b c -> unmoved a c.
Proof.
  unfold unmoved. intros (? & ? & ?) (? & ? & ?).
  split; [eauto using same_content_trans | split; congruence].
Qed.

Lemma same_but_span_refl (r : block_row) : same_but_span r r.
Proof. unfold same_but_span; auto using unmoved_refl. Qed.

Lemma same_but_span_trans (a b c : block_row) :
  same_but_span a b -> same_but_span b c -> same_but_span a c.
Proof.
  unfold same_but_span. intros (? & ?) (? & ?).
  split; [eauto using unmoved_trans | congruence].
Qed.

Lemma same_but_span_left (v : Z) (r : block_row) :
  same_but_span r (set_span_left v r).
Proof. unfold same_but_span, unmoved, same_content; cbn; repeat split. Qed.

Lemma same_but_span_right (v : Z) (r : block_row) :
  same_but_span r (set_span_right v r).
Proof. unfold same_but_span, unmoved, same_content; cbn; repeat split. Qed.

Lemma unmoved_prev_block_id (v : option Z) (r : block_row) :
  unmoved r (set_prev_block_id v r).
Proof. unfold unmoved, same_content; cbn; repeat split. Qed.

Lemma same_content_position (sp d l r_ : Z) (r : block_row) :
  same_content r (set_position sp d l r_ r).
Proof. unfold same_content; cbn; repeat split. Qed.

Lemma blocks_tween (l : list Z) : forall (parent_left : Z) (db : database),
  blocks
    (fold_left
       (fun d sub_chain =>
          with_chains (tween_chains sub_chain parent_left (chains d)) d)
       l db)
  = blocks db.
Proof.
  induction l as [|z l IH]; intros parent_left db; cbn; [reflexivity|].
  now rewrite IH.
Qed.

Lemma reserve_branch_area_rows (parent_space parent_width : Z)
    (parent_span : span) (new_child_depth child_width : Z) (db : database) :
  Forall2 same_but_span (blocks db)
    (blocks (reserve_branch_area parent_space parent_width parent_span
               new_child_depth child_width db)).
Proof.
  unfold reserve_branch_area.
  destruct ((parent_width =? 0) && (child_width =? 1)).
  { apply Forall2_refl, same_but_span_refl. }
  set (u1 := sql_update _ _ (blocks db)).
  assert (H1 : Forall2 same_but_span (blocks db) u1).
  { apply Forall2_sql_update;
      auto using same_but_span_refl, same_but_span_right. }
  set (u2 := sql_update _ _ (blocks (with_blocks u1 db))).
  assert (H2 : Forall2 same_but_span u1 u2).
  { apply Forall2_sql_update;
      auto using same_but_span_refl, same_but_span_left. }
  set (u3 := sql_update _ _ (blocks (with_blocks u2 (with_blocks u1 db)))).
  assert (H3 : Forall2 same_but_span u2 u3).
  { apply Forall2_sql_update;
      auto using same_but_span_refl, same_but_span_right. }
  assert (H : Forall2 same_but_span (blocks db) u3).
  { eapply Forall2_compose; [apply same_but_span_trans | | exact H3].
    eapply Forall2_compose; [apply same_but_span_trans | exact H1 | exact H2]. }
  destruct (negb (parent_space =? 0)); [exact H|].
  rewrite blocks_tween. exact H.
Qed.

Lemma point_prev_statement_rows (parent_id_ child_id_ : Z) (db : database) :
  Forall2 unmoved (blocks db)
    (blocks (point_prev_statement parent_id_ child_id_ db)).
Proof.
  unfold point_prev_statement; cbn.
  apply Forall2_sql_update; auto using unmoved_refl, unmoved_prev_block_id.
Qed.

(** The rows of the orphan tree [old_space] move by [new_depth] into
    [new_space]; the other rows stay. *)
Definition grafted (old_space new_space new_depth : Z)
    (r r' : block_row) : Prop :=
  same_content r r'
  /\ if space r =? old_space
     then space r' = new_space /\ depth r' = depth r + new_depth
     else space r' = space r /\ depth r' = depth r.

Lemma position_child_branch_rows (old_space new_space new_depth
    new_span_left : Z) (db : database) :
  Forall2 (grafted old_space new_space new_depth) (blocks db)
    (blocks (position_child_branch old_space new_space new_depth
               new_span_left db)).
Proof.
  unfold position_child_branch; cbn.
  apply Forall2_sql_update_cases; intros r E; unfold grafted; rewrite E.
  - auto using same_content_refl.
  - cbn. auto using same_content_position.
Qed.

Lemma grafted_after_unmoved (old_space new_space new_depth : Z)
    (a b c : block_row) :
  unmoved a b -> grafted old_space new_space new_depth b c ->
  grafted old_space new_space new_depth a c.
Proof.
  intros (Hc & Hs & Hd) (Hc' & Hg). split.
  - eauto using same_content_trans.
  - rewrite Hs, Hd in Hg. exact Hg.
Qed.

(** *** Looking a row up by its identifier *)

Definition by_id (i : Z) (bs : list block_row) : list block_row :=
  sql_select (fun b => block_id b =? i) bs.

Lemma by_id_found (i : Z) (bs : list block_row) :
  In i (map block_id bs) -> by_id i bs <> [].
Proof.
  intros Hin. apply in_map_iff in Hin. destruct Hin as (b & Hb & Hin).
  assert (In b (by_id i bs)).
  { unfold by_id, sql_select. apply filter_In. split; [exact Hin|].
    apply Z.eqb_eq, Hb. }
  intros E. now rewrite E in H.
Qed.

Lemma by_id_at_most_one (i : Z) (bs : list block_row) :
  NoDup (map block_id bs) -> (List.length (by_id i bs) <= 1)%nat.
Proof.
  induction bs as [|b bs IH]; cbn; intros Hn; [lia|].
  inversion Hn as [|? ? Hnotin Hn']; subst.
  destruct (block_id b =? i) eqn:E.
  - apply Z.eqb_eq in E. cbn.
    assert (Hnone : by_id i bs = []).
    { destruct (by_id i bs) as [|c l] eqn:Hc; [reflexivity|].
      exfalso. apply Hnotin.
      assert (Hin : In c (by_id i bs)) by (rewrite Hc; now left).
      unfold by_id, sql_select in Hin. apply filter_In in Hin.
      destruct Hin as [Hin Hid]. apply Z.eqb_eq in Hid.
      apply in_map_iff. exists c. split; [congruence | exact Hin]. }
    unfold by_id, sql_select in Hnone. rewrite Hnone. cbn. lia.
  - now apply IH.
Qed.

Lemma by_id_unique (i : Z) (bs : list block_row) :
  In i (map block_id bs) -> NoDup (map block_id bs) ->
  exists b, by_id i bs = [b].
Proof.
  intros Hin Hn. pose proof (by_id_found _ _ Hin) as Hne.
  pose proof (@by_id_at_most_one i bs Hn) as Hle.
  destruct (by_id i bs) as [|b [|c l]]; cbn in *;
    [congruence | eauto | lia].
Qed.

Lemma same_ids (R : block_row -> block_row -> Prop) (l l' : list block_row) :
  (forall a b, R a b -> same_content a b) ->
  Forall2 R l l' -> map block_id l' = map block_id l.
Proof.
  intros HR. induction 1 as [|a b l l' Hab _ IH]; cbn; [reflexivity|].
  f_equal; [apply (HR _ _ Hab) | exact IH].
Qed.

Lemma by_id_rows (R : block_row -> block_row -> Prop) (i : Z)
    (l l' : list block_row) :
  (forall a b, R a b -> same_content a b) ->
  Forall2 R l l' -> Forall2 R (by_id i l) (by_id i l').
Proof.
  intros HR. apply Forall2_select. intros a b Hab.
  now rewrite (proj1 (HR _ _ Hab)).
Qed.

(** *** One turn of the loop *)

Definition turn_store (t : turn) : database :=
  match t with
  | next_row db => db
  | returns db => db
  | throws _ db => db
  end.

Definition organized_store (r : organized) : database :=
  match r with
  | organize_returned db => db
  | organize_thrown _ db => db
  end.

Lemma unmoved_same_content (a b : block_row) :
  unmoved a b -> same_content a b.
Proof. now intros (? & _). Qed.

Lemma same_but_span_unmoved (a b : block_row) :
  same_but_span a b -> unmoved a b.
Proof. now intros (? & _). Qed.

(** The turn for the pair [o]: with no row of the parent's or of the
    child's identifier the loop is left, with several the driver raises
    (in both cases [prev_block_id] has been assigned), and with one of
    each the orphan tree is moved under the parent. *)
Lemma graft_cases (o : orphan_pair) (db : database) :
  let db1 := point_prev_statement (parent_id o) (child_id o) db in
  match row (by_id (parent_id o) (blocks db)) with
  | no_row => graft o db = returns db1
  | many_rows => graft o db = throws multiple_rows_query db1
  | one_row p =>
      match row (by_id (child_id o) (blocks db)) with
      | no_row => graft o db = returns db1
      | many_rows => graft o db = throws multiple_rows_query db1
      | one_row c =>
          exists db',
            graft o db = next_row db'
            /\ Forall2
                 (grafted (child_space o) (space p) (Cxx.add (depth p) 1))
                 (blocks db) (blocks db')
      end
  end.
Proof.
  intros db1. unfold graft, load_position_info, load_span. fold db1.
  pose proof (point_prev_statement_rows (parent_id o) (child_id o) db)
    as H1. fold db1 in H1.
  pose proof (row_of_Forall2
                (by_id_rows (parent_id o) unmoved_same_content H1)) as Hp.
  pose proof (row_of_Forall2
                (by_id_rows (child_id o) unmoved_same_content H1)) as Hc.
  fold (by_id (parent_id o) (blocks db1)).
  fold (by_id (child_id o) (blocks db1)).
  destruct (row (by_id (parent_id o) (blocks db))) as [|p|];
    destruct (row (by_id (parent_id o) (blocks db1))) as [|p1|];
    try contradiction; auto.
  destruct (row (by_id (child_id o) (blocks db))) as [|c|];
    destruct (row (by_id (child_id o) (blocks db1))) as [|c1|];
    try contradiction; auto.
  eexists. split; [reflexivity|].
  destruct Hp as (_ & Hps & Hpd). rewrite Hps, Hpd.
  apply Forall2_compose
    with (R1 := unmoved)
         (R2 := grafted (child_space o) (space p) (Cxx.add (depth p) 1))
         (l2 := blocks
                  (reserve_branch_area (space p)
                     (get_block_width (space p) (depth p)
                        {| left := span_left p1; right := span_right p1 |}
                        db1)
                     {| left := span_left p1; right := span_right p1 |}
                     (Cxx.add (depth p) 1)
                     (Cxx.add (Cxx.sub (span_right c1) (span_left c1)) 1)
                     db1)).
  - intros a b c0. apply grafted_after_unmoved.
  - apply Forall2_compose with (R1 := unmoved) (R2 := unmoved)
      (l2 := blocks db1); [apply unmoved_trans | exact H1 |].
    eapply Forall2_weaken; [apply same_but_span_unmoved|].
    apply reserve_branch_area_rows.
  - apply position_child_branch_rows.
Qed.

Lemma grafted_same_content (cs ps nd : Z) (a b : block_row) :
  grafted cs ps nd a b -> same_content a b.
Proof. now intros (? & _). Qed.

Lemma graft_same_content (o : orphan_pair) (db : database) :
  Forall2 same_content (blocks db) (blocks (turn_store (graft o db))).
Proof.
  assert (H1 : Forall2 same_content (blocks db)
                 (blocks (point_prev_statement (parent_id o) (child_id o)
                            db))).
  { eapply Forall2_weaken; [apply unmoved_same_content|].
    apply point_prev_statement_rows. }
  pose proof (graft_cases o db) as Hg. cbn zeta in Hg.
  destruct (row (by_id (parent_id o) (blocks db))) as [|p|];
    [now rewrite Hg | | now rewrite Hg].
  destruct (row (by_id (child_id o) (blocks db))) as [|c|];
    [now rewrite Hg | | now rewrite Hg].
  destruct Hg as (db' & -> & Hrows). cbn [turn_store].
  eapply Forall2_weaken; [apply grafted_same_content | exact Hrows].
Qed.

Lemma organize_rows_same_content (pairs : list orphan_pair) :
  forall db,
  Forall2 same_content (blocks db)
    (blocks (organized_store (organize_rows pairs db))).
Proof.
  induction pairs as [|o pairs IH]; intros db; cbn.
  - apply Forall2_refl, same_content_refl.
  - pose proof (graft_same_content o db) as Hg.
    destruct (graft o db) as [db'|db'|e db']; cbn in *; auto.
    eapply Forall2_compose; [apply same_content_trans | exact Hg | apply IH].
Qed.

(** *** The rows of [orphans_statement] *)

(** An orphan root whose parent is in the table. *)
Definition orphan_root_with_parent (bs : list block_row) (b : block_row)
    : Prop :=
  space b > 0 /\ depth b = 0
  /\ exists parent, In parent bs /\ block_hash parent = prev_block_hash b.

Lemma orphans_statement_complete (db : database) (b : block_row) :
  In b (blocks db) -> orphan_root_with_parent (blocks db) b ->
  exists o, In o (orphans_statement db) /\ child_space o = space b.
Proof.
  intros Hb (Hs & Hd & parent & Hp & Hh).
  exists {| child_id := block_id b; child_space := space b;
            child_depth := depth b; parent_id := block_id parent |}.
  split; [|reflexivity].
  unfold orphans_statement. apply in_flat_map. exists b. split; [exact Hb|].
  apply in_flat_map. exists parent. split; [exact Hp|].
  assert (E1 : String.eqb (prev_block_hash b) (block_hash parent) = true)
    by (apply String.eqb_eq; congruence).
  assert (E2 : (space b >? 0) = true) by (apply Z.gtb_lt; lia).
  assert (E3 : (depth b =? 0) = true) by (apply Z.eqb_eq; exact Hd).
  rewrite E1, E2, E3. now left.
Qed.

Lemma orphans_statement_ids (db : database) (o : orphan_pair) :
  In o (orphans_statement db) ->
  In (parent_id o) (map block_id (blocks db))
  /\ In (child_id o) (map block_id (blocks db)).
Proof.
  unfold orphans_statement. intros Ho.
  apply in_flat_map in Ho. destruct Ho as (b & Hb & Ho).
  apply in_flat_map in Ho. destruct Ho as (parent & Hp & Ho).
  destruct (String.eqb (prev_block_hash b) (block_hash parent)
            && (space b >? 0) && (depth b =? 0)); [|contradiction].
  destruct Ho as [<-|[]]. cbn. split; now apply in_map.
Qed.

Lemma row_found (A : Type) (l : list A) : l <> [] -> row l <> no_row.
Proof. destruct l as [|a [|b l]]; cbn; congruence. Qed.

Lemma row_at_most_one (A : Type) (l : list A) :
  (List.length l <= 1)%nat -> row l <> many_rows.
Proof. destruct l as [|a [|b l]]; cbn; try congruence; lia. Qed.

Lemma row_one_In (A : Type) (l : list A) (a : A) :
  row l = one_row a -> In a l.
Proof.
  destruct l as [|b [|c l]]; cbn; try discriminate.
  intros [= ->]. now left.
Qed.

Lemma Forall2_weaken_In (A : Type) (R R' : A -> A -> Prop) (l l' : list A) :
  (forall a b, In a l -> In b l' -> R a b -> R' a b) ->
  Forall2 R l l' -> Forall2 R' l l'.
Proof.
  intros H F. induction F as [|a b l l' Hab F IH]; constructor.
  - apply H; cbn; auto.
  - apply IH. intros x y Hx Hy. apply H; cbn; auto.
Qed.

Lemma orphans_statement_child (db : database) (o : orphan_pair) :
  In o (orphans_statement db) ->
  exists c, In c (blocks db) /\ block_id c = child_id o
            /\ space c = child_space o /\ depth c = 0.
Proof.
  unfold orphans_statement. intros Ho.
  apply in_flat_map in Ho. destruct Ho as (b & Hb & Ho).
  apply in_flat_map in Ho. destruct Ho as (parent & Hp & Ho).
  destruct (String.eqb (prev_block_hash b) (block_hash parent)
            && (space b >? 0) && (depth b =? 0)) eqn:E; [|contradiction].
  destruct Ho as [<-|[]]. cbn. exists b. where_to_prop. tauto.
Qed.

(** *** The rows of the query *)

Lemma same_key_same_row (A B : Type) (key : A -> B) (l : list A) (a b : A) :
  NoDup (map key l) -> In a l -> In b l -> key a = key b -> a = b.
Proof.
  induction l as [|x l IH]; cbn; [tauto|].
  intros Hn Ha Hb E. inversion Hn as [|? ? Hx Hn']; subst.
  destruct Ha as [->|Ha], Hb as [->|Hb]; auto.
  - exfalso. apply Hx. rewrite E. now apply in_map.
  - exfalso. apply Hx. rewrite <- E. now apply in_map.
Qed.

(** A row of [orphans_statement] comes from an orphan root and a row
    with the hash the root names, and every such two rows give one. *)
Lemma orphans_statement_rows (db : database) (o : orphan_pair) :
  In o (orphans_statement db) ->
  exists c p,
    In c (blocks db) /\ In p (blocks db)
    /\ space c > 0 /\ depth c = 0 /\ block_hash p = prev_block_hash c
    /\ block_id c = child_id o /\ space c = child_space o
    /\ block_id p = parent_id o.
Proof.
  unfold orphans_statement. intros Ho.
  apply in_flat_map in Ho. destruct Ho as (b & Hb & Ho).
  apply in_flat_map in Ho. destruct Ho as (parent & Hp & Ho).
  destruct (String.eqb (prev_block_hash b) (block_hash parent)
            && (space b >? 0) && (depth b =? 0)) eqn:E; [|contradiction].
  destruct Ho as [<-|[]]. cbn. exists b, parent.
  apply andb_true_iff in E. destruct E as (E & Ed).
  apply andb_true_iff in E. destruct E as (Eh & Es).
  apply String.eqb_eq in Eh. apply Z.gtb_lt in Es. apply Z.eqb_eq in Ed.
  repeat split; auto; lia.
Qed.

Lemma orphans_statement_pair (db : database) (c p : block_row) :
  In c (blocks db) -> In p (blocks db) ->
  space c > 0 -> depth c = 0 -> block_hash p = prev_block_hash c ->
  In {| child_id := block_id c; child_space := space c;
        child_depth := depth c; parent_id := block_id p |}
    (orphans_statement db).
Proof.
  intros Hc Hp Hs Hd Hh.
  unfold orphans_statement. apply in_flat_map. exists c. split; [exact Hc|].
  apply in_flat_map. exists p. split; [exact Hp|].
  assert (E1 : String.eqb (prev_block_hash c) (block_hash p) = true)
    by (apply String.eqb_eq; congruence).
  assert (E2 : (space c >? 0) = true) by (apply Z.gtb_lt; lia).
  assert (E3 : (depth c =? 0) = true) by (apply Z.eqb_eq; exact Hd).
  rewrite E1, E2, E3. now left.
Qed.

(** *** The rows of a space *)

Definition rows_in (s : Z) (bs : list block_row) : Z :=
  Z.of_nat (List.length (sql_select (fun b => space b =? s) bs)).

Lemma rows_in_cons (s : Z) (b : block_row) (bs : list block_row) :
  rows_in s (b :: bs) = (if space b =? s then 1 else 0) + rows_in s bs.
Proof.
  unfold rows_in, sql_select. cbn [filter].
  destruct (space b =? s); cbn [List.length]; lia.
Qed.

Lemma rows_in_nonneg (s : Z) (bs : list block_row) : 0 <= rows_in s bs.
Proof. unfold rows_in. lia. Qed.

Lemma rows_in_length (s : Z) (bs : list block_row) :
  rows_in s bs <= Z.of_nat (List.length bs).
Proof.
  induction bs as [|b bs IH]; [unfold rows_in; cbn; lia|].
  rewrite rows_in_cons. cbn [List.length]. destruct (space b =? s); lia.
Qed.

Lemma rows_in_In (r : block_row) (bs : list block_row) :
  In r bs -> 1 <= rows_in (space r) bs.
Proof.
  induction bs as [|b bs IH]; cbn [In]; [tauto|].
  rewrite rows_in_cons. intros [->|Hin].
  - rewrite Z.eqb_refl. pose proof (rows_in_nonneg (space r) bs). lia.
  - specialize (IH Hin). destruct (space b =? space r); lia.
Qed.

(** A graft empties the space of the orphan tree into the space of the
    parent. *)
Lemma grafted_rows_in (cs ps nd : Z) (bs bs' : list block_row) :
  Forall2 (grafted cs ps nd) bs bs' -> ps <> cs ->
  forall s,
    rows_in s bs'
    = if s =? cs then 0
      else if s =? ps then rows_in ps bs + rows_in cs bs
      else rows_in s bs.
Proof.
  intros F Hne s. induction F as [|r r' l l' (Hc & Hg) _ IH].
  - unfold rows_in; cbn. now destruct (s =? cs), (s =? ps).
  - rewrite !rows_in_cons, IH.
    destruct (Z.eqb_spec (space r) cs) as [E|E]; destruct Hg as (Hs & _);
      rewrite Hs;
      repeat match goal with
             | |- context [?a =? ?b] => destruct (Z.eqb_spec a b)
             end; subst; try lia; congruence.
Qed.

(** *** The loop invariant

    [r0] is a row when [organize] starts and [r] the row in its place
    after the pairs [done]: the depth has not dropped, the space has not
    gone up in [rank], a row whose space no pair of [done] names as the
    orphan space is where it was, and a row whose space one of them names
    is at depth 1 or more.  [bounded] keeps the depths of a space below
    [bound] times the number of its rows, and [joined] holds the root of
    every pair of [done] one level below its parent. *)

Section Tracking.

Variable rank : Z -> Z.
Variable bound : Z.
Variable blocks0 : list block_row.

Definition tracked (done : list orphan_pair) (r0 r : block_row) : Prop :=
  same_content r0 r
  /\ 0 <= depth r0 <= depth r
  /\ rank (space r) <= rank (space r0)
  /\ (~ In (space r0) (map child_space done) ->
      space r = space r0 /\ depth r = depth r0)
  /\ (In (space r0) (map child_space done) -> 1 <= depth r).

Definition bounded (bs : list block_row) : Prop :=
  forall r, In r bs -> depth r < bound * rows_in (space r) bs.

Definition joined (done : list orphan_pair) (bs : list block_row) : Prop :=
  forall o c p,
    In o done -> In c bs -> In p bs ->
    block_id c = child_id o -> block_id p = parent_id o ->
    space c = space p /\ depth c = depth p + 1.

Lemma tracked_same_content (done : list orphan_pair) (a b : block_row) :
  tracked done a b -> same_content a b.
Proof. now intros (? & _). Qed.

Lemma tracked_step (done : list orphan_pair) (o : orphan_pair) (ps nd : Z)
    (r0 r r' : block_row) :
  tracked done r0 r -> grafted (child_space o) ps nd r r' ->
  1 <= nd -> rank ps < rank (child_space o) ->
  tracked (o :: done) r0 r'.
Proof.
  intros (Hc & Hd0 & Hrk & Hstay & Hdone) (Hc' & Hg) Hnd Hlt.
  unfold tracked. cbn [map In].
  split; [eauto using same_content_trans|].
  destruct (space r =? child_space o) eqn:E.
  - apply Z.eqb_eq in E. destruct Hg as (Hs & Hd). rewrite Hs, Hd.
    rewrite E in Hrk.
    split; [lia|]. split; [lia|]. split; [|intros _; lia].
    intros Hnot. exfalso. apply Hnot. left.
    destruct Hstay as (Hs0 & _); [tauto | congruence].
  - apply Z.eqb_neq in E. destruct Hg as (Hs & Hd). rewrite Hs, Hd.
    split; [lia|]. split; [exact Hrk|]. split.
    + intros Hnot. apply Hstay. tauto.
    + intros [Hcs | Hin]; [|auto].
      destruct (in_dec Z.eq_dec (space r0) (map child_space done))
        as [Hin|Hout]; [auto|].
      exfalso. apply E. destruct (Hstay Hout) as (Hs0 & _). congruence.
Qed.

Lemma bounded_step (cs : Z) (p : block_row) (bs bs' : list block_row) :
  0 <= bound -> bounded bs -> In p bs -> 0 <= depth p -> space p <> cs ->
  Forall2 (grafted cs (space p) (depth p + 1)) bs bs' ->
  bounded bs'.
Proof.
  intros Hb Hbs Hp Hp0 Hne F r' Hr'.
  destruct (Forall2_In_r _ F Hr') as (r & Hr & _ & Hg).
  pose proof (grafted_rows_in F Hne) as Hrows.
  pose proof (Hbs r Hr) as Hdr. pose proof (Hbs p Hp) as Hdp.
  pose proof (Z.mul_nonneg_nonneg bound (rows_in cs bs) Hb
                (rows_in_nonneg cs bs)) as Hn.
  destruct (Z.eqb_spec (space r) cs) as [E|E]; destruct Hg as (Hs & Hd);
    rewrite Hs, Hd, Hrows.
  - destruct (Z.eqb_spec (space p) cs); [contradiction|].
    rewrite Z.eqb_refl, Z.mul_add_distr_l. rewrite E in Hdr. lia.
  - destruct (Z.eqb_spec (space r) cs); [contradiction|].
    destruct (Z.eqb_spec (space r) (space p)) as [Ep|Ep]; [|exact Hdr].
    rewrite Z.mul_add_distr_l. rewrite Ep in Hdr. lia.
Qed.

Lemma joined_step (done : list orphan_pair) (o : orphan_pair)
    (p c0 : block_row) (bs bs' : list block_row) :
  NoDup (map block_id blocks0) ->
  Forall2 (tracked done) blocks0 bs -> joined done bs ->
  In p bs -> block_id p = parent_id o -> space p <> child_space o ->
  In c0 blocks0 -> block_id c0 = child_id o ->
  space c0 = child_space o -> depth c0 = 0 ->
  ~ In (child_space o) (map child_space done) ->
  Forall2 (grafted (child_space o) (space p) (depth p + 1)) bs bs' ->
  joined (o :: done) bs'.
Proof.
  intros Hn Ht Hj Hp Hpid Hne Hc0 Hc0id Hc0s Hc0d Hfresh F.
  assert (Hids : map block_id bs = map block_id blocks0).
  { apply same_ids with (R := tracked done);
      [apply tracked_same_content | exact Ht]. }
  assert (Hn' : NoDup (map block_id bs)) by (rewrite Hids; exact Hn).
  intros o' c' p' Ho' Hc' Hp' Hidc Hidp.
  destruct (Forall2_In_r _ F Hc') as (c & Hc & (Hcid & _) & Hgc).
  destruct (Forall2_In_r _ F Hp') as (p1 & Hp1 & (Hp1id & _) & Hgp).
  destruct Ho' as [<-|Ho'].
  - destruct (Forall2_In_r _ Ht Hc) as (c00 & Hc00 & Htr).
    assert (c00 = c0).
    { apply (same_key_same_row block_id blocks0); auto.
      destruct Htr as ((Hid & _) & _). congruence. }
    subst c00. destruct Htr as (_ & _ & _ & Hstay & _).
    destruct Hstay as (Hcs & Hcd); [now rewrite Hc0s|].
    assert (p1 = p)
      by (apply (same_key_same_row block_id bs); auto; congruence).
    subst p1.
    destruct (Z.eqb_spec (space c) (child_space o)); [|congruence].
    destruct (Z.eqb_spec (space p) (child_space o)); [contradiction|].
    destruct Hgc as (-> & ->). destruct Hgp as (-> & ->). lia.
  - destruct (Hj o' c p1 Ho' Hc Hp1) as (Hs & Hd); try congruence.
    rewrite <- Hs in Hgp.
    destruct (space c =? child_space o);
      destruct Hgc as (-> & ->); destruct Hgp as (-> & ->); lia.
Qed.

Lemma organize_rows_tracked (pairs : list orphan_pair) :
  forall (done : list orphan_pair) (db : database),
  0 <= bound ->
  bound * Z.of_nat (List.length blocks0) < Cxx.size_t_modulus ->
  NoDup (map block_id blocks0) ->
  (forall o, In o pairs ->
     exists c0 p0,
       In c0 blocks0 /\ In p0 blocks0
       /\ block_id c0 = child_id o /\ space c0 = child_space o
       /\ depth c0 = 0 /\ block_id p0 = parent_id o
       /\ rank (space p0) < rank (child_space o)) ->
  Forall2 (tracked done) blocks0 (blocks db) ->
  bounded (blocks db) ->
  (NoDup (map child_space done) -> joined done (blocks db)) ->
  exists db',
    organize_rows pairs db = organize_returned db'
    /\ Forall2 (tracked (rev pairs ++ done)) blocks0 (blocks db')
    /\ bounded (blocks db')
    /\ (NoDup (map child_space (rev pairs ++ done)) ->
        joined (rev pairs ++ done) (blocks db')).
Proof.
  induction pairs as [|o pairs IH]; intros done db Hb Hfit Hn Hpairs Ht Hbd Hj.
  - exists db. cbn. auto.
  - destruct (Hpairs o (or_introl eq_refl))
      as (c0 & p0 & Hc0 & Hp0 & Hc0id & Hc0s & Hc0d & Hp0id & Hrank).
    assert (Hids : map block_id (blocks db) = map block_id blocks0).
    { apply same_ids with (R := tracked done);
        [apply tracked_same_content | exact Ht]. }
    assert (Hn' : NoDup (map block_id (blocks db)))
      by (rewrite Hids; exact Hn).
    assert (Hpid : In (parent_id o) (map block_id (blocks db))).
    { rewrite Hids, <- Hp0id. now apply in_map. }
    assert (Hcid : In (child_id o) (map block_id (blocks db))).
    { rewrite Hids, <- Hc0id. now apply in_map. }
    destruct (@by_id_unique _ _ Hpid Hn') as (p & Hp).
    destruct (@by_id_unique _ _ Hcid Hn') as (c & Hc).
    pose proof (graft_cases o db) as Hg. cbn zeta in Hg.
    rewrite Hp, Hc in Hg. cbn [row] in Hg.
    destruct Hg as (db1 & Hg & Hrows).
    assert (Hpin : In p (blocks db) /\ block_id p = parent_id o).
    { assert (Hin : In p (by_id (parent_id o) (blocks db)))
        by (rewrite Hp; now left).
      unfold by_id, sql_select in Hin. apply filter_In in Hin.
      destruct Hin as (Hin & E). apply Z.eqb_eq in E. auto. }
    destruct Hpin as (Hpin & Hpid').
    destruct (Forall2_In_r _ Ht Hpin) as (p00 & Hp00 & Htp).
    assert (p00 = p0).
    { apply (same_key_same_row block_id blocks0); auto.
      destruct Htp as ((Hid & _) & _). congruence. }
    subst p00. destruct Htp as (_ & Hpd0 & Hprk & _).
    assert (Hpd : depth p + 1 < Cxx.size_t_modulus).
    { pose proof (Hbd p Hpin) as Hlt.
      assert (Hle : bound * rows_in (space p) (blocks db)
                    <= bound * Z.of_nat (List.length blocks0)).
      { apply Z.mul_le_mono_nonneg_l; [exact Hb|].
        rewrite (Forall2_length Ht). apply rows_in_length. }
      lia. }
    rewrite add_small in Hrows by lia.
    assert (Hne : space p <> child_space o)
      by (intros E; rewrite E in Hprk; lia).
    assert (Ht1 : Forall2 (tracked (o :: done)) blocks0 (blocks db1)).
    { apply Forall2_compose
        with (R1 := tracked done)
             (R2 := grafted (child_space o) (space p) (depth p + 1))
             (l2 := blocks db); auto.
      intros a b c1 Hab Hbc.
      apply (@tracked_step done o (space p) (depth p + 1) a b c1 Hab Hbc);
        lia. }
    assert (Hbd1 : bounded (blocks db1)).
    { apply (@bounded_step (child_space o) p (blocks db) (blocks db1));
        auto; lia. }
    destruct (IH (o :: done) db1 Hb Hfit Hn) as (db' & Hrun & Ht' & Hbd' & Hj');
      auto.
    { intros o' Ho'. apply Hpairs. now right. }
    { intros Hnd. cbn [map] in Hnd.
      inversion Hnd as [|? ? Hfresh Hnd']; subst.
      apply (@joined_step done o p c0 (blocks db) (blocks db1)); auto. }
    exists db'. cbn [organize_rows]. rewrite Hg.
    cbn [rev]. rewrite <- app_assoc. cbn [app]. auto.
Qed.

End Tracking.

(** [organize] on a store with distinct block identifiers, whose orphan
    trees do not hang on each other in a circle ([rank] falls from the
    space of a root to the space of its parent) and whose depths are
    below [bound]: it runs through all the pairs. *)
Lemma organize_tracked (rank : Z -> Z) (bound : Z) (db : database) :
  0 < bound ->
  (forall b, In b (blocks db) -> 0 <= depth b < bound) ->
  bound * Z.of_nat (List.length (blocks db)) < Cxx.size_t_modulus ->
  NoDup (map block_id (blocks db)) ->
  (forall c p,
     In c (blocks db) -> In p (blocks db) ->
     space c > 0 -> depth c = 0 -> block_hash p = prev_block_hash c ->
     rank (space p) < rank (space c)) ->
  exists db',
    organize db = organize_returned db'
    /\ Forall2 (tracked rank (rev (orphans_statement db))) (blocks db)
         (blocks db')
    /\ (NoDup (map child_space (orphans_statement db)) ->
        joined (rev (orphans_statement db)) (blocks db')).
Proof.
  intros Hpos Hdepth Hfit Hn Hrank.
  destruct (@organize_rows_tracked rank bound (blocks db)
              (orphans_statement db) [] db) as (db' & Hrun & Ht & _ & Hj);
    auto; try lia.
  - intros o Ho.
    destruct (orphans_statement_rows db o Ho)
      as (c & p & Hc & Hp & Hs & Hd & Hh & Hcid & Hcs & Hpid).
    exists c, p. rewrite <- Hcs. auto 10.
  - apply Forall2_weaken_In with (R := eq);
      [|apply Forall2_refl; reflexivity].
    intros a b Ha _ <-. specialize (Hdepth a Ha). unfold tracked. cbn.
    repeat split; auto using same_content_refl; try lia; tauto.
  - intros r Hr. specialize (Hdepth r Hr).
    pose proof (rows_in_In r (blocks db) Hr). nia.
  - intros _ o c p [].
  - rewrite app_nil_r in *. exists db'. split; [exact Hrun|].
    split; [exact Ht|]. intros Hnd. apply Hj.
    rewrite map_rev. now apply NoDup_rev.
Qed.

(** After all the pairs no orphan root with a parent is left. *)
Lemma tracked_no_orphan_root (rank : Z -> Z) (db : database)
    (bs' : list block_row) :
  Forall2 (tracked rank (rev (orphans_statement db))) (blocks db) bs' ->
  Forall2
    (fun r0 r =>
       same_content r0 r
       /\ (orphan_root_with_parent (blocks db) r0 -> 1 <= depth r))
    (blocks db) bs'
  /\ forall b, In b bs' -> ~ orphan_root_with_parent bs' b.
Proof.
  intros Ht.
  assert (Hdone : forall r0, In r0 (blocks db) ->
            orphan_root_with_parent (blocks db) r0 ->
            In (space r0) (map child_space (rev (orphans_statement db)))).
  { intros r0 Hr0 Horphan.
    destruct (orphans_statement_complete db Hr0 Horphan) as (o & Ho & Hsp).
    rewrite <- Hsp. apply in_map. now apply in_rev in Ho. }
  split.
  - apply Forall2_weaken_In with (2 := Ht).
    intros r0 r Hr0 _ (Hc & _ & _ & _ & Hmoved). split; [exact Hc|].
    intros Horphan. apply Hmoved. now apply Hdone.
  - intros b Hb (Hs & Hd & parent & Hparent & Hhash).
    destruct (Forall2_In_r _ Ht Hb) as (b0 & Hb0 & Hrel).
    destruct (Forall2_In_r _ Ht Hparent) as (parent0 & Hparent0 & Hprel).
    destruct Hrel as (Hc & Hd0 & _ & Hstay & Hmoved).
    destruct Hprel as (Hpc & _).
    destruct (in_dec Z.eq_dec (space b0)
                (map child_space (rev (orphans_statement db))))
      as [Hin|Hout].
    + specialize (Hmoved Hin). lia.
    + destruct (Hstay Hout) as (Hs0 & Hd00). apply Hout, Hdone; auto.
      unfold orphan_root_with_parent. rewrite <- Hs0, <- Hd00.
      split; [exact Hs|]. split; [exact Hd|].
      exists parent0. split; [exact Hparent0|].
      destruct Hc as (_ & _ & Hprev & _). destruct Hpc as (_ & Hh & _).
      congruence.
Qed.

(** C1. On a store with distinct block identifiers, whose orphan trees
    do not hang on each other in a circle ([rank] falls from the space of
    an orphan root to the space of the row it names as its parent) and
    whose depths are below [bound], with [bound] times the number of
    blocks within [size_t]: [organize] returns, and in the store it
    leaves no row is an orphan root (space above 0, depth 0) whose
    [prev_block_hash] is the [block_hash] of a row; every such root of
    the start is at depth 1 or more.  When no two rows of the query name
    the same orphan space, every such root is in the space of its parent
    in that store, one level below it. *)
Theorem organize_leaves_no_orphan_root (rank : Z -> Z) (bound : Z)
    (db : database) :
  0 < bound ->
  (forall b, In b (blocks db) -> 0 <= depth b < bound) ->
  bound * Z.of_nat (List.length (blocks db)) < Cxx.size_t_modulus ->
  NoDup (map block_id (blocks db)) ->
  (forall c p,
     In c (blocks db) -> In p (blocks db) ->
     space c > 0 -> depth c = 0 -> block_hash p = prev_block_hash c ->
     rank (space p) < rank (space c)) ->
  exists db',
    organize db = organize_returned db'
    /\ (forall b, In b (blocks db') ->
          ~ orphan_root_with_parent (blocks db') b)
    /\ Forall2
         (fun r0 r =>
            same_content r0 r
            /\ (orphan_root_with_parent (blocks db) r0 -> 1 <= depth r))
         (blocks db) (blocks db')
    /\ (NoDup (map child_space (orphans_statement db)) ->
        forall c0 p0 c p,
          In c0 (blocks db) -> In p0 (blocks db) ->
          space c0 > 0 -> depth c0 = 0 ->
          block_hash p0 = prev_block_hash c0 ->
          In c (blocks db') -> In p (blocks db') ->
          block_id c = block_id c0 -> block_id p = block_id p0 ->
          space c = space p /\ depth c = depth p + 1).
Proof.
  intros Hpos Hdepth Hfit Hn Hrank.
  destruct (@organize_tracked rank bound db Hpos Hdepth Hfit Hn Hrank)
    as (db' & Hrun & Ht & Hj).
  destruct (@tracked_no_orphan_root rank db (blocks db') Ht)
    as (Hrows & Hnone).
  exists db'. split; [exact Hrun|]. split; [exact Hnone|].
  split; [exact Hrows|].
  intros Hnd c0 p0 c p Hc0 Hp0 Hs Hd Hh Hc Hp Hcid Hpid.
  apply (Hj Hnd {| child_id := block_id c0; child_space := space c0;
                   child_depth := depth c0; parent_id := block_id p0 |});
    auto.
  apply -> in_rev. now apply orphans_statement_pair.
Qed.

Lemma organize_leaves_no_orphan_root_sample :
  exists db',
    organize Sample.orphan_store = organize_returned db'
    /\ (forall b, In b (blocks db') ->
          ~ orphan_root_with_parent (blocks db') b)
    /\ (forall c p,
          In c (blocks db') -> In p (blocks db') ->
          block_id c = 5 -> block_id p = 4 ->
          space c = space p /\ depth c = depth p + 1)
    /\ map space (blocks db') = [0; 0; 0; 0; 0]
    /\ map depth (blocks db') = [0; 1; 2; 3; 4].
Proof.
  assert (Hpos : 0 < 10) by reflexivity.
  assert (Hdepth : forall b, In b (blocks Sample.orphan_store) ->
                     0 <= depth b < 10).
  { intros b Hb. cbn in Hb.
    repeat (destruct Hb as [<-|Hb]; [cbn; lia|]). contradiction. }
  assert (Hfit :
    10 * Z.of_nat (List.length (blocks Sample.orphan_store))
    < Cxx.size_t_modulus) by (vm_compute; reflexivity).
  assert (Hn : NoDup (map block_id (blocks Sample.orphan_store))).
  { cbn. repeat constructor; cbn; intuition discriminate. }
  assert (Hrank : forall c p,
            In c (blocks Sample.orphan_store) ->
            In p (blocks Sample.orphan_store) ->
            space c > 0 -> depth c = 0 ->
            block_hash p = prev_block_hash c ->
            (fun s : Z => s) (space p) < (fun s : Z => s) (space c)).
  { intros c p Hc Hp Hs Hd Hh. cbn in Hc, Hp.
    repeat (destruct Hc as [<-|Hc]; [cbn in Hs; try lia|]);
      [|contradiction].
    repeat (destruct Hp as [<-|Hp];
            [cbn in Hh |- *; try discriminate; try lia|]).
    contradiction. }
  destruct (@organize_leaves_no_orphan_root (fun s => s) 10
              Sample.orphan_store Hpos Hdepth Hfit Hn Hrank)
    as (db' & Hrun & Hnone & _ & Hjoined).
  exists db'. split; [exact Hrun|]. split; [exact Hnone|].
  split.
  { assert (Hnd : NoDup (map child_space
                           (orphans_statement Sample.orphan_store))).
    { vm_compute. repeat constructor. cbn. tauto. }
    intros c p Hc Hp Hcid Hpid.
    apply (Hjoined Hnd
             (Sample.block 5 "h5" "h4" None 1 0 0 0 500 orphan)
             (Sample.block 4 "h4" "h3" (Some 3) 0 3 0 0 400 orphan) c p);
      auto; try reflexivity; cbn; try tauto; lia. }
  assert (E : organize Sample.orphan_store
              = organize_returned
                  (organized_store (organize Sample.orphan_store)))
    by (vm_compute; reflexivity).
  rewrite E in Hrun. injection Hrun as <-.
  split; vm_compute; reflexivity.
Defined.

(** *** Grafting one block under a leaf *)

Lemma same_id_same_row (bs : list block_row) (a b : block_row) :
  NoDup (map block_id bs) -> In a bs -> In b bs ->
  block_id a = block_id b -> a = b.
Proof.
  induction bs as [|x bs IH]; cbn; [tauto|].
  intros Hn Ha Hb E. inversion Hn as [|? ? Hx Hn']; subst.
  destruct Ha as [->|Ha], Hb as [->|Hb]; auto.
  - exfalso. apply Hx. rewrite E. now apply in_map.
  - exfalso. apply Hx. rewrite <- E. now apply in_map.
Qed.

Lemma by_id_map (g : block_row -> block_row) (i : Z) (bs : list block_row) :
  (forall b, block_id (g b) = block_id b) ->
  by_id i (map g bs) = map g (by_id i bs).
Proof.
  intros Hg. unfold by_id, sql_select.
  induction bs as [|b bs IH]; cbn; [reflexivity|].
  rewrite Hg. destruct (block_id b =? i); cbn; now rewrite IH.
Qed.

Lemma by_id_of_row (bs : list block_row) (b : block_row) :
  NoDup (map block_id bs) -> In b bs -> by_id (block_id b) bs = [b].
Proof.
  intros Hn Hb.
  destruct (@by_id_unique (block_id b) bs (in_map block_id _ _ Hb) Hn)
    as (x & Hx).
  assert (Hin : In b (by_id (block_id b) bs)).
  { unfold by_id, sql_select. apply filter_In. split; [exact Hb|].
    apply Z.eqb_refl. }
  rewrite Hx in Hin. destruct Hin as [->|[]]. exact Hx.
Qed.

Lemma select_none (A : Type) (w : A -> bool) (l : list A) :
  (forall a, In a l -> w a = false) -> sql_select w l = [].
Proof.
  intros H. induction l as [|a l IH]; cbn; [reflexivity|].
  rewrite (H a) by now left. apply IH. intros; apply H; now right.
Qed.

(** C4. An orphan tree of one block [c] (depth 0, span [0,0]) is grafted
    under a leaf [p] of the main tree that has no block below it: the
    parent's width is 0 and no room is reserved; [c] becomes the row of
    space 0, depth [depth p + 1] and the span of [p] (its [prev_block_id]
    now names [p]); every other row of [blocks] and the table [chains]
    are as before.  When the pair is the only row of [orphans_statement],
    this is what [organize] leaves. *)
Theorem graft_single_block_under_leaf (o : orphan_pair) (db : database)
    (c p : block_row) :
  NoDup (map block_id (blocks db)) ->
  In c (blocks db) -> In p (blocks db) ->
  child_id o = block_id c -> child_space o = space c ->
  parent_id o = block_id p ->
  (forall b, In b (blocks db) -> space b = space c -> b = c) ->
  depth c = 0 -> span_left c = 0 -> span_right c = 0 ->
  space p = 0 -> space c <> 0 -> span_left p = span_right p ->
  (forall b, In b (blocks db) -> space b = 0 -> depth b > depth p ->
     ~ (span_left p <= span_left b /\ span_right b <= span_right p)) ->
  0 <= depth p -> depth p + 1 < Cxx.size_t_modulus ->
  let grafted_row :=
    set_position 0 (depth p + 1) (span_left p) (span_right p)
      (set_prev_block_id (Some (block_id p)) c) in
  let db' :=
    with_blocks
      (map (fun b => if block_id b =? block_id c then grafted_row else b)
         (blocks db)) db in
  get_block_width (space p) (depth p)
    {| left := span_left p; right := span_right p |}
    (point_prev_statement (parent_id o) (child_id o) db) = 0
  /\ graft o db = next_row db'
  /\ chains db' = chains db
  /\ (orphans_statement db = [o] -> organize db = organize_returned db').
Proof.
  intros Hn Hc Hp Hcid Hcs Hpid Hsingle Hdc Hlc Hrc Hsp Hsc Hleaf Hnone
    Hdp0 Hdp grafted_row db'.
  set (g1 := fun b => if block_id b =? block_id c
                      then set_prev_block_id (Some (block_id p)) b else b).
  assert (Hg1id : forall b, block_id (g1 b) = block_id b).
  { intros b. unfold g1. now destruct (block_id b =? block_id c). }
  assert (Hdb1 : point_prev_statement (parent_id o) (child_id o) db
                 = with_blocks (map g1 (blocks db)) db).
  { unfold point_prev_statement, sql_update, g1. now rewrite Hcid, Hpid. }
  assert (Hpc : block_id p <> block_id c).
  { intros E. apply Hsc.
    rewrite <- (@same_id_same_row _ _ _ Hn Hp Hc E). exact Hsp. }
  assert (Hg1p : g1 p = p).
  { unfold g1. apply Z.eqb_neq in Hpc. now rewrite Hpc. }
  assert (Hg1c : g1 c = set_prev_block_id (Some (block_id p)) c).
  { unfold g1. now rewrite Z.eqb_refl. }
  assert (Hwidth : get_block_width (space p) (depth p)
                     {| left := span_left p; right := span_right p |}
                     (with_blocks (map g1 (blocks db)) db) = 0).
  { unfold get_block_width. cbn [left right blocks with_blocks].
    rewrite Hleaf, Z.ltb_irrefl.
    rewrite select_none; [reflexivity|].
    intros b1 Hb1. apply in_map_iff in Hb1. destruct Hb1 as (b & <- & Hb).
    assert (Hsame : space (g1 b) = space b /\ depth (g1 b) = depth b
                    /\ span_left (g1 b) = span_left b
                    /\ span_right (g1 b) = span_right b).
    { unfold g1. destruct (block_id b =? block_id c); cbn; auto. }
    destruct Hsame as (-> & -> & -> & ->).
    destruct ((space b =? space p) && (depth b >? depth p)
              && (span_left b >=? span_right p)
              && (span_right b <=? span_right p)) eqn:E; [|reflexivity].
    exfalso. where_to_prop. apply (Hnone b Hb); lia. }
  assert (Hgraft : graft o db = next_row db').
  { unfold graft, load_position_info, load_span. rewrite Hdb1.
    cbn [blocks with_blocks].
    fold (by_id (parent_id o) (map g1 (blocks db))).
    fold (by_id (child_id o) (map g1 (blocks db))).
    rewrite Hpid, Hcid, !by_id_map by exact Hg1id.
    rewrite !by_id_of_row by assumption. cbn [map row]. rewrite Hg1p, Hg1c.
    cbn [left right span_left span_right set_prev_block_id].
    rewrite Hwidth. cbn [Z.gtb Z.compare].
    rewrite Hlc, Hrc.
    change (Cxx.add (Cxx.sub 0 0) 1) with 1.
    unfold reserve_branch_area. cbn [Z.eqb andb].
    rewrite add_small by lia.
    unfold position_child_branch, db'. cbn [blocks with_blocks].
    unfold with_blocks. cbn. f_equal. f_equal.
    unfold sql_update. rewrite map_map. apply map_ext_in.
    intros b Hb. unfold g1.
    destruct (block_id b =? block_id c) eqn:E.
    - apply Z.eqb_eq in E.
      assert (b = c) by (apply (@same_id_same_row _ _ _ Hn Hb Hc E)). subst b.
      cbn. rewrite Hcs, Z.eqb_refl. unfold grafted_row.
      rewrite Hdc, Hlc, Hrc, Hleaf, Hsp, !Z.add_0_l. reflexivity.
    - destruct (space b =? child_space o) eqn:Es; [|reflexivity].
      exfalso. apply Z.eqb_eq in Es. rewrite Hcs in Es.
      rewrite (Hsingle b Hb Es), Z.eqb_refl in E. discriminate. }
  split; [now rewrite Hdb1|].
  split; [exact Hgraft|].
  split; [reflexivity|].
  intros Ho. unfold organize. rewrite Ho. cbn. now rewrite Hgraft.
Qed.

Lemma graft_single_block_under_leaf_sample :
  organize Sample.orphan_store
  = organize_returned
      {| blocks :=
           Sample.main_chain
           ++ [ Sample.block 5 "h5" "h4" (Some 4) 0 4 0 0 500 orphan ];
         chains := chains Sample.orphan_store;
         transactions := []; transactions_parents := []; inputs := [];
         outputs := []; operations := [] |}.
Proof.
  set (o := {| child_id := 5; child_space := 1; child_depth := 0;
               parent_id := 4 |}).
  set (c := Sample.block 5 "h5" "h4" None 1 0 0 0 500 orphan).
  set (p := Sample.block 4 "h4" "h3" (Some 3) 0 3 0 0 400 orphan).
  assert (Hn : NoDup (map block_id (blocks Sample.orphan_store))).
  { cbn. repeat constructor; cbn; intuition discriminate. }
  assert (Hc : In c (blocks Sample.orphan_store)) by (cbn; tauto).
  assert (Hp : In p (blocks Sample.orphan_store)) by (cbn; tauto).
  assert (Hsingle : forall b, In b (blocks Sample.orphan_store) ->
                      space b = space c -> b = c).
  { intros b Hb. cbn in Hb.
    repeat (destruct Hb as [<-|Hb]; [cbn; intros; try discriminate; auto|]).
    contradiction. }
  assert (Hnone : forall b, In b (blocks Sample.orphan_store) ->
            space b = 0 -> depth b > depth p ->
            ~ (span_left p <= span_left b /\ span_right b <= span_right p)).
  { intros b Hb. cbn in Hb.
    repeat (destruct Hb as [<-|Hb]; [cbn; intros; lia|]). contradiction. }
  assert (Hsc : space c <> 0) by (cbn; discriminate).
  assert (Hd0 : 0 <= depth p) by (cbn; lia).
  assert (Hd1 : depth p + 1 < Cxx.size_t_modulus) by (vm_compute; reflexivity).
  destruct (@graft_single_block_under_leaf o Sample.orphan_store c p Hn Hc Hp
              eq_refl eq_refl eq_refl Hsingle eq_refl eq_refl eq_refl eq_refl
              Hsc eq_refl Hnone Hd0 Hd1) as (_ & _ & _ & Horg).
  apply Horg. reflexivity.
Defined.

End OrganizerFacts.

(** ** What [organize] and [validate] assign *)

Module FrameFacts.
Import Organizer Blockchain OrganizerFacts.

(** Only the status of the row may differ. *)
Definition same_but_status (r r' : block_row) : Prop :=
  block_id r' = block_id r
  /\ block_hash r' = block_hash r
  /\ prev_block_hash r' = prev_block_hash r
  /\ prev_block_id r' = prev_block_id r
  /\ space r' = space r /\ depth r' = depth r
  /\ span_left r' = span_left r /\ span_right r' = span_right r
  /\ version r' = version r
  /\ when_created r' = when_created r
  /\ bits_head r' = bits_head r
  /\ bits_body r' = bits_body r
  /\ nonce r' = nonce r
  /\ merkle r' = merkle r.

(** What the claim allows [organize] to assign: the four coordinates. *)
Definition same_but_coordinates (r r' : block_row) : Prop :=
  same_content r r' /\ prev_block_id r' = prev_block_id r.

Definition same_chain_id (c c' : chain_row) : Prop := chain_id c' = chain_id c.

Definition validated_store (v : validated) : database :=
  match v with
  | validate_returned db => db
  | validate_exited db => db
  | validate_thrown _ db => db
  end.

Definition same_transactions (db db' : database) : Prop :=
  transactions db' = transactions db
  /\ transactions_parents db' = transactions_parents db
  /\ inputs db' = inputs db
  /\ outputs db' = outputs db
  /\ operations db' = operations db.

Lemma same_but_status_refl (r : block_row) : same_but_status r r.
Proof. unfold same_but_status; repeat split. Qed.

Lemma same_but_status_trans (a b c : block_row) :
  same_but_status a b -> same_but_status b c -> same_but_status a c.
Proof. unfold same_but_status. intuition congruence. Qed.

Section Validate.

Variable difficulty : Z -> Z -> Z.
Variable validates :
  database -> postgresql_block_info -> message.block -> outcome bool.

Lemma finalize_status_rows (block_info : postgresql_block_info)
    (current_block : message.block) (db : database) :
  let db' := finalize_status difficulty block_info current_block db in
  Forall2 same_but_status (blocks db) (blocks db')
  /\ Forall2 same_chain_id (chains db) (chains db')
  /\ same_transactions db db'.
Proof.
  cbn. split; [|split].
  - apply Forall2_sql_update; [apply same_but_status_refl|].
    intros r. unfold same_but_status; cbn; repeat split.
  - apply Forall2_sql_update; intros c; reflexivity.
  - unfold same_transactions; cbn; repeat split.
Qed.

Lemma validate_rows_frame (result : list block_row) : forall db,
  let db' := validated_store (validate_rows difficulty validates result db) in
  Forall2 same_but_status (blocks db) (blocks db')
  /\ Forall2 same_chain_id (chains db) (chains db')
  /\ same_transactions db db'.
Proof.
  assert (Hrefl : forall db,
    Forall2 same_but_status (blocks db) (blocks db)
    /\ Forall2 same_chain_id (chains db) (chains db)
    /\ same_transactions db db).
  { intros db. split; [|split].
    - apply Forall2_refl, same_but_status_refl.
    - apply Forall2_refl. reflexivity.
    - unfold same_transactions; repeat split. }
  induction result as [|r rest IH]; intros db; cbn; [apply Hrefl|].
  destruct (Reader.read_block_info r) as [block_info|e]; cbn; [|apply Hrefl].
  destruct (validates db block_info (Reader.read_block r db)) as [[|]|e];
    cbn; try apply Hrefl.
  destruct (finalize_status_rows block_info (Reader.read_block r db) db)
    as (Hb & Hc & Ht).
  destruct (IH (finalize_status difficulty block_info
                  (Reader.read_block r db) db)) as (Hb' & Hc' & Ht').
  split; [|split].
  - eapply Forall2_compose;
      [apply same_but_status_trans | exact Hb | exact Hb'].
  - eapply Forall2_compose; [|exact Hc | exact Hc'].
    unfold same_chain_id. intros; congruence.
  - unfold same_transactions in *. intuition congruence.
Qed.

End Validate.

Lemma with_blocks_transactions (bs : list block_row) (db : database) :
  same_transactions db (with_blocks bs db).
Proof. unfold same_transactions; cbn; repeat split. Qed.

(** *** What [organize] makes of [prev_block_id] *)

(** The turn for the pair [o] points the rows with the identifier of the
    child to the parent, and assigns [prev_block_id] nowhere else. *)
Definition pointed (o : orphan_pair) (r r' : block_row) : Prop :=
  same_content r r'
  /\ prev_block_id r'
     = if block_id r =? child_id o then Some (parent_id o)
       else prev_block_id r.

Definition keeps_prev_block_id (r r' : block_row) : Prop :=
  same_content r r' /\ prev_block_id r' = prev_block_id r.

(** Over the run: [prev_block_id] is as before, or the row has the
    identifier of the child of a pair and names the parent of that
    pair. *)
Definition assigned (pairs : list orphan_pair) (r r' : block_row) : Prop :=
  same_content r r'
  /\ (prev_block_id r' = prev_block_id r
      \/ exists o,
           In o pairs /\ child_id o = block_id r
           /\ prev_block_id r' = Some (parent_id o)).

(** After the pairs [done]: the children of these pairs name their
    parents. *)
Definition points_to_parent (done : list orphan_pair) (r0 r : block_row)
    : Prop :=
  same_content r0 r
  /\ forall o, In o done -> child_id o = block_id r0 ->
       prev_block_id r = Some (parent_id o).

Lemma graft_points (o : orphan_pair) (db : database) :
  Forall2 (pointed o) (blocks db) (blocks (turn_store (graft o db))).
Proof.
  unfold graft.
  set (db1 := point_prev_statement (parent_id o) (child_id o) db).
  assert (H1 : Forall2 (pointed o) (blocks db) (blocks db1)).
  { unfold db1, point_prev_statement. cbn [blocks with_blocks].
    apply Forall2_sql_update_cases; intros r E; unfold pointed; rewrite E.
    - split; [apply same_content_refl | reflexivity].
    - split; [|reflexivity].
      apply unmoved_same_content, unmoved_prev_block_id. }
  destruct (load_position_info (parent_id o) db1) as [[[[ps pd] psp]|]|e];
    cbn [turn_store]; try exact H1.
  destruct (load_span (child_id o) db1) as [[csp|]|e];
    cbn [turn_store]; try exact H1.
  match goal with
  | |- Forall2 _ _
         (blocks (position_child_branch _ _ _ _
                    (reserve_branch_area ?a ?b ?c ?d ?e db1))) =>
      pose proof (reserve_branch_area_rows a b c d e db1) as H2;
      set (db2 := reserve_branch_area a b c d e db1) in *
  end.
  apply Forall2_compose
    with (R1 := pointed o) (R2 := keeps_prev_block_id) (l2 := blocks db1);
    [|exact H1|].
  { intros a b c (Hc & Hp) (Hc' & Hp'). split.
    - eauto using same_content_trans.
    - congruence. }
  apply Forall2_compose
    with (R1 := keeps_prev_block_id) (R2 := keeps_prev_block_id)
         (l2 := blocks db2).
  - intros a b c (Hc & Hp) (Hc' & Hp'). split.
    + eauto using same_content_trans.
    + congruence.
  - eapply Forall2_weaken; [|exact H2].
    intros a b ((Hc & _) & Hp). split; assumption.
  - unfold position_child_branch. cbn [blocks with_blocks].
    apply Forall2_sql_update.
    + intros r. split; [apply same_content_refl | reflexivity].
    + intros r. split; [apply same_content_position | reflexivity].
Qed.

Lemma assigned_trans (pairs : list orphan_pair) (a b c : block_row) :
  assigned pairs a b -> assigned pairs b c -> assigned pairs a c.
Proof.
  intros (Hc & Hp) (Hc' & Hp'). split; [eauto using same_content_trans|].
  destruct Hp' as [Hp'|(o & Ho & Hid & Hp')].
  - rewrite Hp'. exact Hp.
  - right. exists o. destruct Hc as (Hbid & _). repeat split; congruence.
Qed.

Lemma organize_rows_assigned (every : list orphan_pair)
    (pairs : list orphan_pair) :
  forall db,
  (forall o, In o pairs -> In o every) ->
  Forall2 (assigned every) (blocks db)
    (blocks (organized_store (organize_rows pairs db))).
Proof.
  induction pairs as [|o pairs IH]; intros db Hin; cbn.
  - apply Forall2_refl. intros a. split; [apply same_content_refl | now left].
  - assert (Hg : Forall2 (assigned every) (blocks db)
                   (blocks (turn_store (graft o db)))).
    { eapply Forall2_weaken; [|apply graft_points].
      intros a b (Hc & Hp). split; [exact Hc|].
      destruct (Z.eqb_spec (block_id a) (child_id o)) as [E|E];
        [|now left].
      right. exists o. split; [apply Hin; now left | auto]. }
    destruct (graft o db) as [db'|db'|e db']; cbn in *; auto.
    eapply Forall2_compose; [apply assigned_trans | exact Hg |].
    apply IH. intros o' Ho'. apply Hin. now right.
Qed.

Lemma organize_rows_points (every : list orphan_pair)
    (blocks0 : list block_row) (pairs : list orphan_pair) :
  forall (done : list orphan_pair) (db : database),
  NoDup (map block_id blocks0) ->
  (forall o1 o2, In o1 every -> In o2 every ->
     child_id o1 = child_id o2 -> parent_id o1 = parent_id o2) ->
  (forall o, In o done -> In o every) ->
  (forall o, In o pairs ->
     In o every
     /\ In (parent_id o) (map block_id blocks0)
     /\ In (child_id o) (map block_id blocks0)) ->
  Forall2 (points_to_parent done) blocks0 (blocks db) ->
  Forall2 (points_to_parent (rev pairs ++ done)) blocks0
    (blocks (organized_store (organize_rows pairs db))).
Proof.
  induction pairs as [|o pairs IH]; intros done db Hn Hfun Hdone Hpairs Ht.
  - exact Ht.
  - destruct (Hpairs o (or_introl eq_refl)) as (Ho & Hpid & Hcid).
    assert (Hids : map block_id (blocks db) = map block_id blocks0).
    { apply same_ids with (R := points_to_parent done); [|exact Ht].
      now intros a b (? & _). }
    assert (Hn' : NoDup (map block_id (blocks db)))
      by (rewrite Hids; exact Hn).
    rewrite <- Hids in Hpid, Hcid.
    destruct (@by_id_unique _ _ Hpid Hn') as (p & Hp).
    destruct (@by_id_unique _ _ Hcid Hn') as (c & Hc).
    pose proof (graft_cases o db) as Hg. cbn zeta in Hg.
    rewrite Hp, Hc in Hg. cbn [row] in Hg.
    destruct Hg as (db1 & Hg & _).
    pose proof (graft_points o db) as Hpt. rewrite Hg in Hpt.
    cbn [turn_store] in Hpt.
    cbn [organize_rows]. rewrite Hg.
    cbn [rev]. rewrite <- app_assoc. cbn [app].
    apply IH; auto.
    + intros o' [<-|Ho']; auto.
    + intros o' Ho'. apply Hpairs. now right.
    + apply Forall2_compose
        with (R1 := points_to_parent done) (R2 := pointed o)
             (l2 := blocks db); auto.
      intros r0 r r' (Hc0 & Hprev) (Hc1 & Hnew).
      split; [eauto using same_content_trans|].
      assert (Hid : block_id r = block_id r0) by apply Hc0.
      intros o' [<-|Ho'] Hchild.
      * rewrite Hnew, Hid, <- Hchild, Z.eqb_refl. reflexivity.
      * rewrite Hnew, Hid.
        destruct (Z.eqb_spec (block_id r0) (child_id o)) as [E|E].
        -- f_equal. apply Hfun; auto. congruence.
        -- now apply Hprev.
Qed.

(** C8, as the code has it.  However [organize] ends, every row of
    [blocks] keeps all its columns but the coordinates (space, depth,
    span_left, span_right) and [prev_block_id], and [prev_block_id] is as
    before or, on a row with the identifier of the child of a pair of the
    query, names the parent of that pair.  With distinct block
    identifiers and hashes every orphan root (space above 0, depth 0)
    names in [prev_block_id] the row whose hash is its
    [prev_block_hash].  However [validate] ends, every row keeps all its
    columns but [status], the rows of [chains] keep their [chain_id], and
    the other tables are as before. *)
Theorem organize_validate_assignments (difficulty : Z -> Z -> Z)
    (validates :
       database -> postgresql_block_info -> message.block -> outcome bool)
    (db : database) :
  Forall2 (assigned (orphans_statement db)) (blocks db)
    (blocks (organized_store (organize db)))
  /\ (NoDup (map block_id (blocks db)) ->
      NoDup (map block_hash (blocks db)) ->
      Forall2
        (fun r r' =>
           forall parent,
             In parent (blocks db) ->
             space r > 0 -> depth r = 0 ->
             block_hash parent = prev_block_hash r ->
             prev_block_id r' = Some (block_id parent))
        (blocks db) (blocks (organized_store (organize db))))
  /\ (let db' := validated_store (validate difficulty validates db) in
      Forall2 same_but_status (blocks db) (blocks db')
      /\ Forall2 same_chain_id (chains db) (chains db')
      /\ same_transactions db db').
Proof.
  split; [|split].
  - apply organize_rows_assigned. auto.
  - intros Hn Hh.
    assert (Hfun : forall o1 o2,
              In o1 (orphans_statement db) -> In o2 (orphans_statement db) ->
              child_id o1 = child_id o2 -> parent_id o1 = parent_id o2).
    { intros o1 o2 Ho1 Ho2 E.
      destruct (orphans_statement_rows db o1 Ho1)
        as (c1 & p1 & Hc1 & Hp1 & _ & _ & Hh1 & Hid1 & _ & Hpid1).
      destruct (orphans_statement_rows db o2 Ho2)
        as (c2 & p2 & Hc2 & Hp2 & _ & _ & Hh2 & Hid2 & _ & Hpid2).
      assert (c1 = c2)
        by (apply (same_key_same_row block_id (blocks db)); auto;
            congruence).
      subst c2.
      assert (p1 = p2)
        by (apply (same_key_same_row block_hash (blocks db)); auto;
            congruence).
      congruence. }
    assert (Hpoints :
      Forall2 (points_to_parent (rev (orphans_statement db) ++ []))
        (blocks db) (blocks (organized_store (organize db)))).
    { apply (@organize_rows_points (orphans_statement db)); auto.
      - intros o [].
      - intros o Ho. split; [exact Ho|]. now apply orphans_statement_ids.
      - apply Forall2_refl. intros a. split; [apply same_content_refl|].
        intros o []. }
    rewrite app_nil_r in Hpoints.
    apply Forall2_weaken_In with (2 := Hpoints).
    intros r r' Hr _ (_ & Hprev) parent Hparent Hs Hd Hhash.
    apply (Hprev {| child_id := block_id r; child_space := space r;
                    child_depth := depth r;
                    parent_id := block_id parent |}); [|reflexivity].
    apply -> in_rev. now apply orphans_statement_pair.
  - apply validate_rows_frame.
Qed.

Lemma organize_validate_assignments_sample :
  Forall2
    (fun r r' =>
       forall parent,
         In parent (blocks Sample.orphan_store) ->
         space r > 0 -> depth r = 0 ->
         block_hash parent = prev_block_hash r ->
         prev_block_id r' = Some (block_id parent))
    (blocks Sample.orphan_store)
    (blocks (organized_store (organize Sample.orphan_store)))
  /\ map prev_block_id
       (blocks (organized_store (organize Sample.orphan_store)))
     = [None; Some 1; Some 2; Some 3; Some 4].
Proof.
  split; [|vm_compute; reflexivity].
  apply (proj1 (proj2 (@organize_validate_assignments Sample.body_work
                         (fun _ _ _ => Returned true)
                         Sample.orphan_store))).
  - cbn. repeat constructor; cbn; intuition discriminate.
  - cbn. repeat constructor; cbn; intuition discriminate.
Defined.

(** C8, as the claim has it, fails: [organize] assigns [prev_block_id],
    which is none of the coordinates. *)
Lemma organize_assigns_prev_block_id :
  ~ Forall2 same_but_coordinates (blocks Sample.orphan_store)
      (blocks (organized_store (organize Sample.orphan_store))).
Proof.
  assert (E : blocks (organized_store (organize Sample.orphan_store))
              = Sample.main_chain
                ++ [ Sample.block 5 "h5" "h4" (Some 4) 0 4 0 0 500 orphan ])
    by (vm_compute; reflexivity).
  rewrite E. cbn. rewrite !Forall2_cons_iff.
  intros (_ & _ & _ & _ & (_ & Hprev) & _). cbn in Hprev. discriminate.
Qed.

End FrameFacts.

(** ** Deleting a branch *)

Module DeleteBranchFacts.
Import Organizer OrganizerFacts.

Section DeleteBranch.

Variable difficulty : Z -> Z -> Z.

Variables space_ depth_ span_left_ span_right_ : Z.
Variable db : database.

(** A row one level up with exactly the span of the branch. *)
Definition has_lonely_child : Prop :=
  exists b, In b (blocks db)
    /\ space b = space_ /\ depth b = depth_ - 1
    /\ span_left b = span_left_ /\ span_right b = span_right_.

(** The valid blocks of space 0 from [depth_] down whose span holds the
    chain [span_left_]. *)
Definition on_chain (b : block_row) : bool :=
  (space b =? 0) && (depth b >=? depth_) && (span_left b <=? span_left_)
  && (span_right b >=? span_left_) && is_valid (status b).




Lemma lonely_child_empty :
  is_empty (lonely_child space_ depth_ span_left_ span_right_ db) = true
  <-> ~ has_lonely_child.
Proof.
  unfold lonely_child, has_lonely_child, limit_1, sql_select.
  set (w := fun b => (space b =? space_) && (depth b =? depth_ - 1)
                     && (span_left b =? span_left_)
                     && (span_right b =? span_right_)).
  split.
  - intros He (b & Hb & H1 & H2 & H3 & H4).
    assert (Hin : In b (filter w (blocks db))).
    { apply filter_In. split; [exact Hb|]. unfold w.
      now rewrite H1, H2, H3, H4, !Z.eqb_refl. }
    destruct (filter w (blocks db)); [contradiction | discriminate].
  - intros Hno. destruct (filter w (blocks db)) as [|b l] eqn:E;
      [reflexivity|].
    exfalso. apply Hno. exists b.
    assert (Hin : In b (filter w (blocks db))) by (rewrite E; now left).
    apply filter_In in Hin. destruct Hin as (Hb & Hw). unfold w in Hw.
    where_to_prop. tauto.
Qed.

Lemma chains_delete_chains (lo hi : Z) (d : database) :
  chains (delete_chains lo hi d)
  = map (fun c => if chain_id c >? hi
                  then set_chain_id
                         (chain_id c - Cxx.sub (Cxx.add hi 1) lo) c
                  else c)
      (filter (fun c => negb ((lo <=? chain_id c) && (chain_id c <=? hi)))
         (chains d)).
Proof. reflexivity. Qed.

Lemma blocks_delete_chains (lo hi : Z) (d : database) :
  blocks (delete_chains lo hi d) = blocks d.
Proof. reflexivity. Qed.


(** The amount [unwind_chain] takes off the chain [span_left_] when some
    block is on it: the summed difficulty of the blocks on the chain. *)
Definition unwound_work : Z :=
  fold_right Z.add 0
    (map (fun b => difficulty (bits_head b) (bits_body b))
       (sql_select on_chain (blocks db))).

(** What [delete_branch] makes of a row of [chains] that stays, when the
    parent keeps a child: the chains above the span move down, and the
    chain [span_left_], if some valid block of the branch is on it and it
    has a work, loses the work of those blocks. *)
Definition unwound (offset : Z) (c c' : chain_row) : Prop :=
  chain_id c'
  = (if chain_id c >? span_right_ then chain_id c - offset else chain_id c)
  /\ chain_depth c' = chain_depth c
  /\ (chain_id c <> span_left_ -> work c' = work c)
  /\ (forall w,
        chain_id c = span_left_ -> work c = Some w ->
        sql_select on_chain (blocks db) <> [] ->
        work c' = Some (w - unwound_work)).




End DeleteBranch.



End DeleteBranchFacts.

(** * Further properties of the barrier *)

Module BarrierMore.
Import Blockchain BarrierFacts.

(** A cancelled wait hands [operation_aborted] to [start_exec] when the
    service gets to run its handler. *)
Definition aborted_wait_delivered (s : barrier) : barrier :=
  match aborted (timeout_ s) with
  | O => s
  | S n =>
      start_exec operation_aborted
        {| barrier_clearance_level_ := barrier_clearance_level_ s;
           barrier_timeout_ := barrier_timeout_ s;
           barrier_level_ := barrier_level_ s;
           timer_started_ := timer_started_ s;
           timeout_ := {| expiry := expiry (timeout_ s);
                          waiting := waiting (timeout_ s);
                          aborted := n |};
           runs := runs s |}
  end.

(** The flag [timer_started_] says whether a wait is pending. *)
Definition flag_tracks_wait (s : barrier) : Prop :=
  timer_started_ s = waiting (timeout_ s).

(** Nothing is counted and no wait is pending. *)
Definition quiet (s : barrier) : Prop :=
  barrier_level_ s = 0 /\ timer_started_ s = false
  /\ waiting (timeout_ s) = false.

Lemma cancel_not_waiting (t : deadline_timer) : waiting (cancel t) = false.
Proof. unfold cancel. destruct (waiting t) eqn:W; cbn; auto. Qed.

Lemma reset_state_quiet (s : barrier) : quiet (reset_state s).
Proof. unfold quiet; cbn. auto using cancel_not_waiting. Qed.

Lemma start_exec_quiet (ec : error_code) (s : barrier) :
  quiet (start_exec ec s).
Proof.
  unfold start_exec. destruct ec; apply reset_state_quiet.
Qed.

Lemma quiet_flag (s : barrier) : quiet s -> flag_tracks_wait s.
Proof. intros (_ & Hf & Hw). unfold flag_tracks_wait. congruence. Qed.

(** X1. The flag [timer_started_] and the pending wait of the timer go
    together.  Every operation of the barrier keeps them equal:
    [raise_barrier], the handler [start_exec] at the expiry of the timer
    and at the delivery of a cancelled wait, and the two setters. *)
Theorem barrier_flag_tracks_wait (s : barrier) :
  flag_tracks_wait s ->
  flag_tracks_wait (raise_barrier s)
  /\ flag_tracks_wait (timer_expires s)
  /\ flag_tracks_wait (aborted_wait_delivered s)
  /\ (forall c, flag_tracks_wait (set_clearance c s))
  /\ (forall t, flag_tracks_wait (set_timeout t s)).
Proof.
  intros H. unfold flag_tracks_wait in H.
  split; [|split; [|split; [|split]]].
  - unfold raise_barrier.
    cbn [barrier_level_ barrier_clearance_level_ timer_started_
      barrier_timeout_ timeout_ runs].
    destruct (Cxx.add (barrier_level_ s) 1 >? barrier_clearance_level_ s).
    + unfold flag_tracks_wait; cbn. now rewrite cancel_not_waiting.
    + destruct (timer_started_ s) eqn:F; cbn; unfold flag_tracks_wait; cbn;
        auto.
  - unfold timer_expires. destruct (waiting (timeout_ s)) eqn:W.
    + apply quiet_flag, start_exec_quiet.
    + unfold flag_tracks_wait. congruence.
  - unfold aborted_wait_delivered. destruct (aborted (timeout_ s)).
    + exact H.
    + apply quiet_flag, start_exec_quiet.
  - intros c. exact H.
  - intros t. exact H.
Qed.

Lemma barrier_flag_tracks_wait_constructed :
  flag_tracks_wait (raise_barrier constructed)
  /\ timer_started_ (raise_barrier constructed) = true.
Proof.
  assert (H : flag_tracks_wait constructed) by reflexivity.
  split.
  - exact (proj1 (@barrier_flag_tracks_wait constructed H)).
  - reflexivity.
Defined.

(** X2. The handler of a cancelled wait resets the barrier as well.  When
    it runs after a later [raise_barrier] has armed the timer anew, it
    cancels that wait and zeroes the level: no run is started for that
    call, and the expiry of the timer starts none either. *)
Theorem aborted_wait_forgets_raise (s : barrier) :
  0 <= barrier_level_ s ->
  barrier_level_ s + 1 <= barrier_clearance_level_ s ->
  barrier_clearance_level_ s < Cxx.size_t_modulus ->
  (1 <= aborted (timeout_ s))%nat ->
  let s' := aborted_wait_delivered (raise_barrier s) in
  quiet s' /\ runs s' = runs s /\ timer_expires s' = s'.
Proof.
  intros Hl Hle Hc Ha s'.
  assert (Hab : (1 <= aborted (timeout_ (raise_barrier s)))%nat).
  { unfold raise_barrier.
    cbn [barrier_level_ barrier_clearance_level_ timer_started_
      barrier_timeout_ timeout_ runs].
    rewrite add_small by lia.
    destruct (barrier_level_ s + 1 >? barrier_clearance_level_ s) eqn:E;
      [lia|].
    destruct (timer_started_ s); cbn; [exact Ha|].
    unfold cancel. destruct (waiting (timeout_ s)); cbn; lia. }
  assert (Hr : runs (raise_barrier s) = runs s).
  { unfold raise_barrier.
    cbn [barrier_level_ barrier_clearance_level_ timer_started_
      barrier_timeout_ timeout_ runs].
    rewrite add_small by lia.
    destruct (barrier_level_ s + 1 >? barrier_clearance_level_ s) eqn:E;
      [lia|].
    now destruct (timer_started_ s). }
  subst s'. unfold aborted_wait_delivered.
  destruct (aborted (timeout_ (raise_barrier s))) as [|n] eqn:En; [lia|].
  split; [apply start_exec_quiet|]. split; [exact Hr|].
  unfold timer_expires.
  now rewrite (proj2 (proj2 (start_exec_quiet operation_aborted _))).
Qed.

(** The barrier after one trip: 401 calls on the constructed barrier. *)
Definition tripped : barrier := burst 401 constructed.

Lemma aborted_wait_forgets_raise_after_trip :
  runs (aborted_wait_delivered (raise_barrier tripped)) = runs tripped
  /\ timer_expires (aborted_wait_delivered (raise_barrier tripped))
     = aborted_wait_delivered (raise_barrier tripped).
Proof.
  set (s := tripped).
  assert (Hl : 0 <= barrier_level_ s) by (vm_compute; discriminate).
  assert (Hle : barrier_level_ s + 1 <= barrier_clearance_level_ s)
    by (vm_compute; discriminate).
  assert (Hc : barrier_clearance_level_ s < Cxx.size_t_modulus)
    by (vm_compute; reflexivity).
  assert (Ha : (1 <= aborted (timeout_ s))%nat) by (vm_compute; lia).
  destruct (@aborted_wait_forgets_raise s Hl Hle Hc Ha) as (_ & Hr & He).
  split; assumption.
Defined.

Lemma burst_plus (a b : nat) (s : barrier) :
  burst (a + b) s = burst b (burst a s).
Proof. revert s. induction a as [|a IH]; intros s; cbn; auto. Qed.

(** One more call than the clearance, on a quiet barrier, starts a run and
    leaves the barrier quiet. *)
Lemma burst_trips (n : nat) (s : barrier) :
  quiet s -> Z.of_nat n = barrier_clearance_level_ s ->
  barrier_clearance_level_ s + 1 < Cxx.size_t_modulus ->
  let s' := burst (S n) s in
  quiet s' /\ runs s' = S (runs s)
  /\ barrier_clearance_level_ s' = barrier_clearance_level_ s.
Proof.
  intros (Hl & Hf & Hw) Hn Hc s'.
  assert (Htrip : forall a : barrier,
            barrier_level_ a = barrier_clearance_level_ s ->
            barrier_clearance_level_ a = barrier_clearance_level_ s ->
            quiet (raise_barrier a) /\ runs (raise_barrier a) = S (runs a)
            /\ barrier_clearance_level_ (raise_barrier a)
               = barrier_clearance_level_ s).
  { intros a Hal Hac. unfold raise_barrier.
    cbn [barrier_level_ barrier_clearance_level_ timer_started_
      barrier_timeout_ timeout_ runs].
    rewrite Hal, Hac, add_small by lia.
    destruct (barrier_clearance_level_ s + 1 >? barrier_clearance_level_ s)
      eqn:E; [|lia].
    split; [|cbn; auto].
    unfold quiet; cbn. auto using cancel_not_waiting. }
  subst s'. replace (S n) with (n + 1)%nat by lia. rewrite burst_plus.
  cbn [burst]. destruct n as [|m].
  - cbn [burst]. apply Htrip; [lia | reflexivity].
  - assert (Ha : armed (1 + Z.of_nat m) (runs s) s (burst (S m) s)).
    { cbn [burst]. apply burst_armed; try lia.
      apply first_raise_arms; auto; lia. }
    destruct Ha as (Hc' & _ & Hl' & _ & _ & _ & _ & Hr).
    destruct (Htrip (burst (S m) s)) as (Hq & Hruns & Hcl); [lia | auto |].
    rewrite Hr in Hruns. auto.
Qed.

(** X3. On a quiet barrier every [clearance + 1] calls of [raise_barrier]
    start exactly one run: [k * (clearance + 1)] calls in a row start [k]
    runs and leave the barrier quiet. *)
Theorem burst_starts_one_run_per_clearance (n k : nat) (s : barrier) :
  quiet s -> Z.of_nat n = barrier_clearance_level_ s ->
  barrier_clearance_level_ s + 1 < Cxx.size_t_modulus ->
  let s' := burst (k * S n) s in
  quiet s' /\ runs s' = (runs s + k)%nat.
Proof.
  intros Hq Hn Hc. revert s Hq Hn Hc.
  induction k as [|k IH]; intros s Hq Hn Hc s'.
  - subst s'. cbn. split; [exact Hq | lia].
  - subst s'. replace (S k * S n)%nat with (S n + k * S n)%nat by lia.
    rewrite burst_plus.
    destruct (burst_trips n Hq Hn Hc) as (Hq' & Hr' & Hc').
    destruct (IH (burst (S n) s) Hq') as (Hq'' & Hr''); try congruence.
    split; [exact Hq''|]. rewrite Hr'', Hr'. lia.
Qed.

Lemma burst_starts_one_run_per_clearance_default :
  runs (burst (3 * 401) (reset_state constructed)) = 4%nat.
Proof.
  assert (Hq : quiet (reset_state constructed)) by apply reset_state_quiet.
  assert (Hn : Z.of_nat 400
               = barrier_clearance_level_ (reset_state constructed))
    by reflexivity.
  assert (Hc : barrier_clearance_level_ (reset_state constructed) + 1
               < Cxx.size_t_modulus) by (vm_compute; reflexivity).
  destruct (@burst_starts_one_run_per_clearance 400 3
              (reset_state constructed) Hq Hn Hc) as (_ & Hr).
  exact Hr.
Defined.

End BarrierMore.

(** * Further properties of the validator *)

Module ValidateMore.
Import ValidateBlock ConnectInputFacts.

(** The spend of [Sample.spend_store] seen from a block of another branch
    (span [5,5]), and a store in which a second input spends the same
    output. *)
Definition info_other_branch : postgresql_block_info :=
  {| info_block_id := 4; info_depth := 3; info_span_left := 5;
     info_span_right := 5; info_prev_block_id := 3 |}.

Definition double_spend_store : database :=
  {| blocks := blocks Sample.spend_store;
     chains := chains Sample.spend_store;
     transactions := transactions Sample.spend_store;
     transactions_parents := transactions_parents Sample.spend_store;
     inputs :=
       inputs Sample.spend_store
       ++ [ {| input_id := 3; in_transaction_id := 7; in_index_in_parent := 0;
               previous_output_hash := "cb"; previous_output_index := 0;
               in_script_id := 4; in_sequence := 4294967295 |} ];
     outputs := outputs Sample.spend_store;
     operations := operations Sample.spend_store |}.

(** The store with further rows in [inputs]. *)
Definition with_more_inputs (more : list input_row) (db : database)
    : database :=
  {| blocks := blocks db; chains := chains db;
     transactions := transactions db;
     transactions_parents := transactions_parents db;
     inputs := inputs db ++ more;
     outputs := outputs db; operations := operations db |}.

Section Connect.

Variable max_money : Z.
Variable coinbase_maturity : Z.
Variable is_coinbase : list (string * Z) -> bool.
Variable run :
  message.script -> message.script -> message.transaction -> nat -> bool.
Variable info : postgresql_block_info.
Variable db : database.

Hypothesis max_money_fits : 2 * max_money < Cxx.size_t_modulus.
Hypothesis values_unsigned :
  forall o, In o (outputs db) -> 0 <= internal_value o.

Lemma connect_input_keeps_total (transaction_id_ : Z)
    (tx : message.transaction) (input_index : nat) (value_in v' : Z) :
  0 <= value_in <= max_money ->
  connect_input max_money coinbase_maturity is_coinbase run info
    transaction_id_ tx input_index value_in db = Returned (true, v') ->
  value_in <= v' <= max_money.
Proof.
  intros Hv Hc. apply connect_true_inv in Hc.
  destruct Hc as (input & p & o & (_ & _ & Ho) & Hle & _ & _ & -> & Hsum).
  assert (Hin : In o (outputs db)).
  { assert (H : In o (previous_output_of db input p)) by (rewrite Ho; now left).
    unfold previous_output_of, sql_select in H. now apply filter_In in H. }
  apply values_unsigned in Hin. where_to_prop.
  rewrite add_small in * by lia. lia.
Qed.

Lemma connect_inputs_keep_total (transaction_id_ : Z)
    (tx : message.transaction) (remaining : nat) :
  forall (input_index : nat) (value_in v' : Z),
  0 <= value_in <= max_money ->
  connect_inputs max_money coinbase_maturity is_coinbase run info
    transaction_id_ tx input_index remaining value_in db
  = Returned (true, v') ->
  value_in <= v' <= max_money.
Proof.
  induction remaining as [|n IH]; intros input_index value_in v' Hv; cbn.
  - intros [= <-]. lia.
  - destruct (connect_input max_money coinbase_maturity is_coinbase run info
                transaction_id_ tx input_index value_in db)
      as [[[|] v1]|e] eqn:Hc; try discriminate.
    intros Hrest. pose proof (connect_input_keeps_total _ _ _ Hv Hc) as H1.
    apply IH in Hrest; lia.
Qed.

(** X4. A transaction that [validate_transaction] lets through leaves the
    running total of input values no lower than it was and within
    [max_money]; the sums do not wrap. *)
Theorem validate_transaction_keeps_total (tx : message.transaction)
    (index_in_block_ value_in v' : Z) :
  0 <= value_in <= max_money ->
  validate_transaction max_money coinbase_maturity is_coinbase run info tx
    index_in_block_ value_in db = Returned (true, v') ->
  value_in <= v' <= max_money.
Proof.
  intros Hv. unfold validate_transaction.
  destruct (row _) as [|p|]; try discriminate.
  now apply connect_inputs_keep_total.
Qed.

(** X5. [search_double_spends] never reports a spend: it asks whether the
    result of [query()] is [empty()] before any [next()], and that is
    [true] whatever the query selected.  So [connect_input] does not see
    the other spends of an output: with further rows in [inputs], also
    rows that name the same output, it ends as without them.  (The
    further rows are inputs of other transactions than the one that holds
    the output, which the coinbase test reads.) *)
Theorem connect_input_ignores_other_spends (transaction_id_ : Z)
    (tx : message.transaction) (input_index : nat) (value_in : Z)
    (input : message.transaction_input) (more : list input_row) :
  nth_error (message.inputs tx) input_index = Some input ->
  (forall r t,
     In r more -> In t (transactions db) ->
     transaction_hash t = message.hash input ->
     in_transaction_id r <> transaction_id t) ->
  search_double_spends transaction_id_ input input_index
    (with_more_inputs more db) = false
  /\ connect_input max_money coinbase_maturity is_coinbase run info
       transaction_id_ tx input_index value_in (with_more_inputs more db)
     = connect_input max_money coinbase_maturity is_coinbase run info
         transaction_id_ tx input_index value_in db.
Proof.
  intros Hi Hmore. split; [reflexivity|].
  unfold connect_input. rewrite Hi.
  cbn [transactions outputs with_more_inputs].
  destruct (sql_select _ (transactions db)) as [|p [|? ?]] eqn:Hp;
    cbn [row]; try reflexivity.
  destruct (row _) as [|o|]; try reflexivity.
  destruct (internal_value o >? max_money); [reflexivity|].
  assert (Hpin : In p (transactions db)
                 /\ transaction_hash p = message.hash input).
  { assert (H : In p (sql_select
                       (fun t => String.eqb (transaction_hash t)
                                   (message.hash input))
                       (transactions db))) by (rewrite Hp; now left).
    unfold sql_select in H. apply filter_In in H.
    destruct H as (H & E). apply String.eqb_eq in E. auto. }
  destruct Hpin as (Hpin & Hhash).
  assert (Hcb : is_coinbase_transaction is_coinbase (transaction_id p)
                  (with_more_inputs more db)
                = is_coinbase_transaction is_coinbase (transaction_id p) db).
  { unfold is_coinbase_transaction, sql_select.
    cbn [inputs with_more_inputs]. rewrite filter_app.
    assert (Hnone : filter
                      (fun r => in_transaction_id r =? transaction_id p)
                      more = []).
    { apply (@OrganizerFacts.select_none input_row). intros r Hr.
      apply Z.eqb_neq. now apply (Hmore r p). }
    now rewrite Hnone, app_nil_r. }
  rewrite Hcb. reflexivity.
Qed.

(** X6. Spending a coinbase that no block of the validated block's branch
    holds does not end in a verdict: the depth query selects nothing and
    reading its result raises [empty_row_access]. *)
Theorem connect_input_coinbase_off_branch (transaction_id_ : Z)
    (tx : message.transaction) (input_index : nat) (value_in : Z)
    (input : message.transaction_input) (p : transaction_row)
    (o : output_row) :
  refers_to db tx input_index input p o ->
  internal_value o <= max_money ->
  is_coinbase_transaction is_coinbase (transaction_id p) db = true ->
  (forall tp b,
     In tp (transactions_parents db) ->
     tp_transaction_id tp = transaction_id p ->
     In b (blocks db) -> block_id b = tp_block_id tp -> space b = 0 ->
     ~ (span_left b <= info_span_left info
        /\ info_span_right info <= span_right b)) ->
  connect_input max_money coinbase_maturity is_coinbase run info
    transaction_id_ tx input_index value_in db
  = Thrown empty_row_access.
Proof.
  intros (Hi & Hp & Ho) Hle Hcb Hoff.
  assert (Hd : previous_block_depth info (transaction_id p) db
               = Thrown empty_row_access).
  { unfold previous_block_depth.
    match goal with
    | |- match row ?l with _ => _ end = _ =>
        assert (Hnil : l = []); [|now rewrite Hnil]
    end.
    destruct (flat_map _ _) as [|d l] eqn:E; [reflexivity|].
    exfalso.
    assert (Hd : In d (d :: l)) by now left. rewrite <- E in Hd.
    apply in_flat_map in Hd. destruct Hd as (tp & Htp & Hd).
    apply in_map_iff in Hd. destruct Hd as (b & _ & Hb).
    unfold sql_select in Htp, Hb.
    apply filter_In in Htp. destruct Htp as (Htp & Hid).
    apply filter_In in Hb. destruct Hb as (Hb & Hw).
    where_to_prop.
    apply (Hoff tp b); auto; lia. }
  unfold connect_input. rewrite Hi.
  fold (previous_tx_of db input). rewrite Hp. cbn [row].
  fold (previous_output_of db input p). rewrite Ho. cbn [row].
  assert (Hv : (internal_value o >? max_money) = false)
    by (rewrite Z.gtb_ltb; apply Z.ltb_ge; lia).
  now rewrite Hv, Hcb, Hd.
Qed.

End Connect.

Lemma validate_transaction_keeps_total_sample :
  validate_transaction Sample.max_money Sample.coinbase_maturity
    Sample.is_coinbase Sample.run Sample.info_4 Sample.spend 1 0
    Sample.spend_store = Returned (true, 50)
  /\ 0 <= 50 <= Sample.max_money.
Proof.
  assert (Hrun : validate_transaction Sample.max_money
                   Sample.coinbase_maturity Sample.is_coinbase Sample.run
                   Sample.info_4 Sample.spend 1 0 Sample.spend_store
                 = Returned (true, 50)) by reflexivity.
  split; [exact Hrun|].
  assert (Hfit : 2 * Sample.max_money < Cxx.size_t_modulus)
    by (vm_compute; reflexivity).
  assert (Hval : forall o, In o (outputs Sample.spend_store) ->
                   0 <= internal_value o).
  { intros o [<-|[]]. cbn. lia. }
  assert (Hin : 0 <= 0 <= Sample.max_money)
    by (vm_compute; split; discriminate).
  exact (@validate_transaction_keeps_total Sample.max_money
           Sample.coinbase_maturity Sample.is_coinbase Sample.run
           Sample.info_4 Sample.spend_store Hfit Hval Sample.spend 1 0 50
           Hin Hrun).
Defined.

Lemma connect_input_ignores_other_spends_sample :
  connect_input Sample.max_money Sample.coinbase_maturity
    Sample.is_coinbase Sample.run Sample.info_4 2 Sample.spend 0 0
    double_spend_store = Returned (true, 50).
Proof.
  change double_spend_store
    with (with_more_inputs
            [ {| input_id := 3; in_transaction_id := 7;
                 in_index_in_parent := 0;
                 previous_output_hash := "cb"; previous_output_index := 0;
                 in_script_id := 4; in_sequence := 4294967295 |} ]
            Sample.spend_store).
  set (more := [ {| input_id := 3; in_transaction_id := 7;
                    in_index_in_parent := 0;
                    previous_output_hash := "cb";
                    previous_output_index := 0;
                    in_script_id := 4; in_sequence := 4294967295 |} ]).
  assert (Hi : nth_error (message.inputs Sample.spend) 0
               = Some sample_input) by reflexivity.
  assert (Hmore : forall r t,
            In r more -> In t (transactions Sample.spend_store) ->
            transaction_hash t = message.hash sample_input ->
            in_transaction_id r <> transaction_id t).
  { intros r t [<-|[]] [<-|[<-|[]]] E; cbn in *; discriminate. }
  rewrite (proj2 (@connect_input_ignores_other_spends Sample.max_money
                    Sample.coinbase_maturity Sample.is_coinbase Sample.run
                    Sample.info_4 Sample.spend_store 2 Sample.spend 0 0
                    sample_input more Hi Hmore)).
  reflexivity.
Defined.

Lemma connect_input_coinbase_off_branch_sample :
  connect_input Sample.max_money Sample.coinbase_maturity
    Sample.is_coinbase Sample.run info_other_branch 2 Sample.spend 0 0
    Sample.spend_store = Thrown empty_row_access.
Proof.
  apply (@connect_input_coinbase_off_branch Sample.max_money
           Sample.coinbase_maturity Sample.is_coinbase Sample.run
           info_other_branch Sample.spend_store 2 Sample.spend 0 0
           sample_input sample_coinbase sample_output sample_refers_to).
  - vm_compute. discriminate.
  - reflexivity.
  - intros tp b Htp Hid Hb Hbid Hsp. cbn in Htp, Hb.
    destruct Htp as [<-|[<-|[]]]; cbn in Hid; try discriminate.
    repeat (destruct Hb as [<-|Hb]; [cbn in *; lia|]). contradiction.
Defined.

End ValidateMore.

(** * Further properties of [validate] *)

Module ValidateRunMore.
Import Blockchain FrameFacts.

(** A store whose only block is an unvalidated genesis block: it has no
    previous block. *)
Definition genesis_store : database :=
  {| blocks := [ Sample.block 1 "h1" "h0" None 0 0 0 0 100 orphan ];
     chains := [ {| chain_id := 0; work := Some 0; chain_depth := 0 |} ];
     transactions := []; transactions_parents := []; inputs := [];
     outputs := []; operations := [] |}.

(** A checker that accepts every block. *)
Definition accept_all (db : database) (info : postgresql_block_info)
    (blk : message.block) : outcome bool := Returned true.

Lemma split_bits (head body : Z) :
  0 <= body < 2 ^ 24 -> 0 <= head < 2 ^ 8 ->
  Z.shiftr (Reader.join_bits head body) 24 = head
  /\ Z.land (Reader.join_bits head body) 16777215 = body.
Proof.
  intros Hb Hh.
  assert (Hj : Reader.join_bits head body = body + head * 2 ^ 24).
  { unfold Reader.join_bits, Cxx.uint32_t, Cxx.uint32_modulus.
    rewrite Z.shiftl_mul_pow2 by lia.
    change (2 ^ 32) with (2 ^ 8 * 2 ^ 24).
    rewrite (Z.mod_small (head * 2 ^ 24)) by nia.
    apply Z.mod_small. nia. }
  rewrite Hj. split.
  - rewrite Z.shiftr_div_pow2 by lia.
    rewrite Z.div_add by lia. rewrite Z.div_small by lia. lia.
  - change 16777215 with (Z.ones 24). rewrite Z.land_ones by lia.
    rewrite Z.mod_add by lia. now apply Z.mod_small.
Qed.

Section Validate.

Variable difficulty : Z -> Z -> Z.
Variable validates :
  database -> postgresql_block_info -> message.block -> outcome bool.

(** X7. [read_block] joins [bits_head] and [bits_body] of the row into
    [bits] and [finalize_status] splits them again: for a head of one byte
    and a body of 24 bits the work added to the chains of the block's span
    is the difficulty of the row's own [bits_head] and [bits_body], and the
    depth of those chains becomes the block's. *)
Theorem finalize_status_adds_row_difficulty (r : block_row)
    (info : postgresql_block_info) (db : database) :
  0 <= bits_body r < 2 ^ 24 -> 0 <= bits_head r < 2 ^ 8 ->
  chains (finalize_status difficulty info (Reader.read_block r db) db)
  = map (fun c =>
           if (info_span_left info <=? chain_id c)
              && (chain_id c <=? info_span_right info)
           then {| chain_id := chain_id c;
                   work :=
                     sql_plus (work c)
                       (Some (difficulty (bits_head r) (bits_body r)));
                   chain_depth := info_depth info |}
           else c)
      (chains db).
Proof.
  intros Hb Hh. destruct (split_bits Hb Hh) as (Hhead & Hbody).
  unfold finalize_status. cbn [chains with_blocks with_chains].
  cbn [message.bits Reader.read_block]. rewrite Hhead, Hbody.
  unfold sql_update. apply map_ext. intros c.
  rewrite Z.geb_leb. reflexivity.
Qed.

Lemma finalize_status_marks (info : postgresql_block_info)
    (blk : message.block) (db : database) :
  Forall2
    (fun b b' =>
       same_but_status b b'
       /\ (status b = valid \/ block_id b = info_block_id info ->
           status b' = valid))
    (blocks db) (blocks (finalize_status difficulty info blk db)).
Proof.
  unfold finalize_status. cbn [blocks with_blocks with_chains].
  apply Forall2_sql_update_cases; intros b E.
  - split; [apply same_but_status_refl|].
    intros [Hv|Hid]; [exact Hv|]. apply Z.eqb_neq in E. contradiction.
  - split; [|reflexivity]. unfold same_but_status; cbn; repeat split.
Qed.

Lemma validate_rows_marks (result : list block_row) :
  forall db db',
  validate_rows difficulty validates result db = validate_returned db' ->
  Forall2
    (fun b b' =>
       same_but_status b b'
       /\ (status b = valid \/ In (block_id b) (map block_id result) ->
           status b' = valid))
    (blocks db) (blocks db').
Proof.
  induction result as [|r rest IH]; intros db db'; cbn.
  - intros [= <-]. apply Forall2_refl. intros b.
    split; [apply same_but_status_refl|]. tauto.
  - destruct (Reader.read_block_info r) as [info|e] eqn:Hinfo;
      [|discriminate].
    destruct (validates db info (Reader.read_block r db)) as [[|]|e];
      try discriminate.
    intros Hrest. apply IH in Hrest.
    assert (Hid : info_block_id info = block_id r).
    { unfold Reader.read_block_info in Hinfo.
      destruct (prev_block_id r); [|discriminate].
      injection Hinfo as <-. reflexivity. }
    eapply Forall2_compose;
      [| apply (finalize_status_marks info (Reader.read_block r db) db)
       | exact Hrest].
    cbn beta. intros a b c (Hab & Ha) (Hbc & Hb).
    split; [eauto using same_but_status_trans|].
    assert (Hidb : block_id b = block_id a) by apply Hab.
    intros [Hv|[Hr|Hin]].
    + apply Hb. left. apply Ha. now left.
    + apply Hb. left. apply Ha. right. congruence.
    + apply Hb. right. now rewrite Hidb.
Qed.

(** X8. When [validate] returns, no block of space 0 is left an orphan:
    every one of them has status valid. *)
Theorem validate_returns_all_valid (db db' : database) :
  validate difficulty validates db = validate_returned db' ->
  forall b', In b' (blocks db') -> space b' = 0 -> status b' = valid.
Proof.
  intros Hv b' Hb' Hsp. unfold validate in Hv.
  apply validate_rows_marks in Hv.
  destruct (Forall2_In_r _ Hv Hb') as (b & Hb & Hsame & Hvalid).
  apply Hvalid. destruct (status b) eqn:Hst; [right | now left].
  assert (Hsel : In b (orphan_blocks db)).
  { unfold orphan_blocks.
    apply Permutation_in with
      (l := sql_select (fun b => is_orphan (status b) && (space b =? 0))
              (blocks db)).
    - apply Permutation_sym, order_by_perm.
    - unfold sql_select. apply filter_In. split; [exact Hb|].
      rewrite Hst. cbn.
      assert (Hs : space b' = space b) by apply Hsame.
      apply Z.eqb_eq. congruence. }
  now apply in_map.
Qed.

Lemma validate_rows_needs_previous (result : list block_row)
    (r : block_row) :
  In r result -> prev_block_id r = None ->
  forall db db',
    validate_rows difficulty validates result db <> validate_returned db'.
Proof.
  induction result as [|x rest IH]; cbn; [tauto|].
  intros [->|Hin] Hnone db db'.
  - unfold Reader.read_block_info. rewrite Hnone. discriminate.
  - destruct (Reader.read_block_info x) as [info|e]; [|discriminate].
    destruct (validates db info (Reader.read_block x db)) as [[|]|e];
      try discriminate.
    now apply IH.
Qed.

(** X9. [validate] reads [prev_block_id] of every block it checks: with
    an orphan block of space 0 whose [prev_block_id] is NULL in the store
    (a genesis block), [validate] does not return; reaching that block it
    raises [null_value_fetch]. *)
Theorem validate_needs_previous_block (db : database) (b : block_row) :
  In b (blocks db) -> status b = orphan -> space b = 0 ->
  prev_block_id b = None ->
  (forall db', validate difficulty validates db <> validate_returned db')
  /\ (forall rest d,
        validate_rows difficulty validates (b :: rest) d
        = validate_thrown null_value_fetch d).
Proof.
  intros Hb Hst Hsp Hnone. split.
  - intros db'. unfold validate.
    apply validate_rows_needs_previous with (r := b); [|exact Hnone].
    unfold orphan_blocks.
    apply Permutation_in with
      (l := sql_select (fun b => is_orphan (status b) && (space b =? 0))
              (blocks db)).
    + apply Permutation_sym, order_by_perm.
    + unfold sql_select. apply filter_In. split; [exact Hb|].
      rewrite Hst, Hsp. reflexivity.
  - intros rest d. cbn. unfold Reader.read_block_info. now rewrite Hnone.
Qed.

End Validate.

Lemma finalize_status_adds_row_difficulty_sample :
  chains
    (finalize_status Sample.body_work Sample.info_4
       (Reader.read_block
          (Sample.block 4 "h4" "h3" (Some 3) 0 3 0 0 400 orphan)
          Sample.store)
       Sample.store)
  = [ {| chain_id := 0; work := Some 65538; chain_depth := 3 |} ].
Proof.
  assert (Hb : 0 <= bits_body
                      (Sample.block 4 "h4" "h3" (Some 3) 0 3 0 0 400 orphan)
               < 2 ^ 24) by (vm_compute; split; [discriminate | reflexivity]).
  assert (Hh : 0 <= bits_head
                      (Sample.block 4 "h4" "h3" (Some 3) 0 3 0 0 400 orphan)
               < 2 ^ 8) by (vm_compute; split; [discriminate | reflexivity]).
  rewrite (@finalize_status_adds_row_difficulty Sample.body_work
             (Sample.block 4 "h4" "h3" (Some 3) 0 3 0 0 400 orphan)
             Sample.info_4 Sample.store Hb Hh).
  reflexivity.
Defined.

Lemma validate_returns_all_valid_sample :
  exists db',
    validate Sample.body_work accept_all Sample.store = validate_returned db'
    /\ forall b', In b' (blocks db') -> space b' = 0 -> status b' = valid.
Proof.
  eexists. split; [reflexivity|].
  apply (@validate_returns_all_valid Sample.body_work accept_all
           Sample.store). reflexivity.
Defined.

Lemma validate_needs_previous_block_genesis :
  validate Sample.body_work accept_all genesis_store
  <> validate_returned genesis_store
  /\ validate Sample.body_work accept_all genesis_store
     = validate_thrown null_value_fetch genesis_store.
Proof.
  split; [|vm_compute; reflexivity].
  apply (@validate_needs_previous_block Sample.body_work accept_all
           genesis_store
           (Sample.block 1 "h1" "h0" None 0 0 0 0 100 orphan)).
  - cbn. tauto.
  - reflexivity.
  - reflexivity.
  - reflexivity.
Defined.

End ValidateRunMore.

(** * Further properties of the organizer *)

Module OrganizerMore.
Import Organizer OrganizerFacts.

Lemma size_t_unsigned (z : Z) : 0 <= Cxx.size_t z.
Proof.
  unfold Cxx.size_t, Cxx.size_t_modulus. apply Z.mod_pos_bound. reflexivity.
Qed.

Lemma Forall_sql_update (A : Type) (P : A -> Prop) (where_ : A -> bool)
    (set : A -> A) (t : list A) :
  (forall r, P r -> where_ r = true -> P (set r)) ->
  Forall P t -> Forall P (sql_update where_ set t).
Proof.
  intros Hset. unfold sql_update. induction 1 as [|r t Hr _ IH]; cbn;
    constructor; auto.
  destruct (where_ r) eqn:E; auto.
Qed.

(** The span of the row is an interval and its depth is not negative. *)
Definition well_spanned (b : block_row) : Prop :=
  span_left b <= span_right b /\ 0 <= depth b.

(** What the three [UPDATE]s of [reserve_branch_area] make of a row. *)
Definition reserved (parent_space parent_right new_child_depth
    child_width : Z) (b : block_row) : block_row :=
  let b1 :=
    if (space b =? parent_space) && (span_right b >? parent_right)
    then set_span_right (span_right b + child_width) b else b in
  let b2 :=
    if (space b1 =? parent_space) && (span_left b1 >? parent_right)
    then set_span_left (span_left b1 + child_width) b1 else b1 in
  if (space b2 =? parent_space) && (depth b2 <? new_child_depth)
     && (span_right b2 =? parent_right)
  then set_span_right (span_right b2 + child_width) b2 else b2.

Lemma blocks_reserve_branch_area (parent_space parent_width : Z)
    (parent_span : span) (new_child_depth child_width : Z) (db : database) :
  blocks (reserve_branch_area parent_space parent_width parent_span
            new_child_depth child_width db)
  = if (parent_width =? 0) && (child_width =? 1) then blocks db
    else map (reserved parent_space (right parent_span) new_child_depth
                child_width) (blocks db).
Proof.
  unfold reserve_branch_area.
  destruct ((parent_width =? 0) && (child_width =? 1)); [reflexivity|].
  assert (H : forall d : database,
            blocks (if negb (parent_space =? 0) then d
                    else fold_left
                           (fun d0 sub_chain =>
                              with_chains
                                (tween_chains sub_chain (left parent_span)
                                   (chains d0)) d0)
                           (sub_chains parent_width
                              (Cxx.add parent_width child_width))
                           (with_chains
                              (sql_update
                                 (fun c => chain_id c >? right parent_span)
                                 (fun c =>
                                    set_chain_id (chain_id c + child_width) c)
                                 (chains d)) d))
            = blocks d).
  { intros d. destruct (negb (parent_space =? 0)); [reflexivity|].
    now rewrite blocks_tween. }
  rewrite H. cbn [blocks with_blocks]. unfold sql_update.
  rewrite !map_map. reflexivity.
Qed.

Lemma reserved_well_spanned (parent_space parent_right new_child_depth
    child_width : Z) (b : block_row) :
  0 <= child_width -> well_spanned b ->
  well_spanned
    (reserved parent_space parent_right new_child_depth child_width b).
Proof.
  intros Hw (Hs & Hd). unfold reserved, well_spanned.
  destruct ((space b =? parent_space) && (span_right b >? parent_right))
    eqn:E1; cbn;
    destruct ((space b =? parent_space) && (span_left b >? parent_right))
      eqn:E2; cbn; rewrite ?E1, ?E2; cbn;
    match goal with
    | |- context [if ?c then _ else _] => destruct c eqn:E3
    end; cbn; where_to_prop; lia.
Qed.

Lemma graft_well_spanned (o : orphan_pair) (db : database) :
  Forall well_spanned (blocks db) ->
  Forall well_spanned (blocks (turn_store (graft o db))).
Proof.
  intros H.
  assert (H1 : Forall well_spanned
                 (blocks (point_prev_statement (parent_id o) (child_id o)
                            db))).
  { unfold point_prev_statement. cbn [blocks with_blocks].
    apply Forall_sql_update; [|exact H]. intros r Hr _. exact Hr. }
  unfold graft.
  destruct (load_position_info _ _) as [[[[ps pd] psp]|]|e]; cbn; auto.
  destruct (load_span _ _) as [[csp|]|e]; cbn; auto.
  unfold position_child_branch. cbn [blocks with_blocks].
  apply Forall_sql_update.
  - intros r (Hs & Hd) _. unfold well_spanned; cbn.
    pose proof (size_t_unsigned (pd + 1)). unfold Cxx.add. lia.
  - rewrite blocks_reserve_branch_area.
    destruct ((_ =? 0) && (_ =? 1)); [exact H1|].
    apply Forall_map. eapply Forall_impl; [|exact H1].
    intros b. apply reserved_well_spanned. apply size_t_unsigned.
Qed.

(** X10. [organize] keeps every span an interval and every depth
    non-negative: if [span_left <= span_right] and [0 <= depth] hold for
    all rows before, they hold for all rows of the store it leaves,
    however it ends. *)
Theorem organize_keeps_spans_ordered (db : database) :
  Forall well_spanned (blocks db) ->
  Forall well_spanned (blocks (organized_store (organize db))).
Proof.
  unfold organize. generalize (orphans_statement db) as pairs.
  intros pairs. revert db.
  induction pairs as [|o pairs IH]; intros db H; cbn; [exact H|].
  pose proof (@graft_well_spanned o db H) as Hg.
  destruct (graft o db) as [db'|db'|e db']; cbn in *; auto.
Qed.

Lemma organize_keeps_spans_ordered_sample :
  Forall well_spanned
    (blocks (organized_store (organize Sample.orphan_store))).
Proof.
  apply organize_keeps_spans_ordered.
  cbn. repeat constructor; cbn; lia.
Defined.

Lemma orphans_statement_sound (db : database) (o : orphan_pair) :
  In o (orphans_statement db) ->
  exists b, In b (blocks db) /\ orphan_root_with_parent (blocks db) b.
Proof.
  unfold orphans_statement. intros Ho.
  apply in_flat_map in Ho. destruct Ho as (b & Hb & Ho).
  apply in_flat_map in Ho. destruct Ho as (parent & Hp & Ho).
  destruct (String.eqb (prev_block_hash b) (block_hash parent)
            && (space b >? 0) && (depth b =? 0)) eqn:E; [|contradiction].
  exists b. split; [exact Hb|].
  apply andb_true_iff in E. destruct E as (E & Ed).
  apply andb_true_iff in E. destruct E as (Eh & Es).
  apply String.eqb_eq in Eh. apply Z.gtb_lt in Es. apply Z.eqb_eq in Ed.
  split; [lia|]. split; [exact Ed|]. exists parent. split; [exact Hp|].
  congruence.
Qed.

(** X11. [organize] finishes its work in one run.  On a store with
    distinct block identifiers, whose orphan trees do not hang on each
    other in a circle and whose depths are below [bound] (with [bound]
    times the number of blocks within [size_t]), [organize] returns a
    store in which its query selects no pair, so that a second
    [organize] returns that store as it is. *)
Theorem organize_twice (rank : Z -> Z) (bound : Z) (db : database) :
  0 < bound ->
  (forall b, In b (blocks db) -> 0 <= depth b < bound) ->
  bound * Z.of_nat (List.length (blocks db)) < Cxx.size_t_modulus ->
  NoDup (map block_id (blocks db)) ->
  (forall c p,
     In c (blocks db) -> In p (blocks db) ->
     space c > 0 -> depth c = 0 -> block_hash p = prev_block_hash c ->
     rank (space p) < rank (space c)) ->
  exists db',
    organize db = organize_returned db'
    /\ orphans_statement db' = []
    /\ organize db' = organize_returned db'.
Proof.
  intros Hpos Hdepth Hfit Hn Hrank.
  destruct (@organize_tracked rank bound db Hpos Hdepth Hfit Hn Hrank)
    as (db' & Hrun & Ht & _).
  destruct (@tracked_no_orphan_root rank db (blocks db') Ht) as (_ & Hnone).
  assert (Hempty : orphans_statement db' = []).
  { destruct (orphans_statement db') as [|o l] eqn:E; [reflexivity|].
    exfalso.
    assert (Ho : In o (orphans_statement db')) by (rewrite E; now left).
    apply orphans_statement_sound in Ho.
    destruct Ho as (b & Hb & Horphan). exact (Hnone b Hb Horphan). }
  exists db'. split; [exact Hrun|]. split; [exact Hempty|].
  unfold organize. now rewrite Hempty.
Qed.

Lemma organize_twice_sample :
  exists db',
    organize Sample.orphan_store = organize_returned db'
    /\ orphans_statement db' = []
    /\ organize db' = organize_returned db'.
Proof.
  assert (Hpos : 0 < 10) by reflexivity.
  assert (Hdepth : forall b, In b (blocks Sample.orphan_store) ->
                     0 <= depth b < 10).
  { intros b Hb. cbn in Hb.
    repeat (destruct Hb as [<-|Hb]; [cbn; lia|]). contradiction. }
  assert (Hfit :
    10 * Z.of_nat (List.length (blocks Sample.orphan_store))
    < Cxx.size_t_modulus) by (vm_compute; reflexivity).
  assert (Hn : NoDup (map block_id (blocks Sample.orphan_store))).
  { cbn. repeat constructor; cbn; intuition discriminate. }
  assert (Hrank : forall c p,
            In c (blocks Sample.orphan_store) ->
            In p (blocks Sample.orphan_store) ->
            space c > 0 -> depth c = 0 ->
            block_hash p = prev_block_hash c ->
            (fun s : Z => s) (space p) < (fun s : Z => s) (space c)).
  { intros c p Hc Hp Hs Hd Hh. cbn in Hc, Hp.
    repeat (destruct Hc as [<-|Hc]; [cbn in Hs; try lia|]);
      [|contradiction].
    repeat (destruct Hp as [<-|Hp];
            [cbn in Hh |- *; try discriminate; try lia|]).
    contradiction. }
  exact (@organize_twice (fun s => s) 10 Sample.orphan_store Hpos Hdepth
           Hfit Hn Hrank).
Defined.

End OrganizerMore.

(** * Further properties of the chains table *)

Module ChainsMore.
Import Organizer OrganizerFacts DeleteBranchFacts.

(** The rows of a chain, and the loop of [tween_chains] on the table. *)
Definition chain_rows (i : Z) (cs : list chain_row) : list chain_row :=
  sql_select (fun c => chain_id c =? i) cs.

Definition tween_all (parent_left : Z) (subs : list Z) (cs : list chain_row)
    : list chain_row :=
  fold_left (fun t sub_chain => tween_chains sub_chain parent_left t) subs cs.

(** The chain rows after [update_other_chains]. *)
Definition shifted (parent_right child_width : Z) (c : chain_row)
    : chain_row :=
  if chain_id c >? parent_right
  then set_chain_id (chain_id c + child_width) c else c.

Lemma chains_tween (parent_left : Z) (subs : list Z) : forall db,
  chains
    (fold_left
       (fun d sub_chain =>
          with_chains (tween_chains sub_chain parent_left (chains d)) d)
       subs db)
  = tween_all parent_left subs (chains db).
Proof.
  unfold tween_all. induction subs as [|z l IH]; intros db; cbn;
    [reflexivity|]. now rewrite IH.
Qed.

Lemma chains_reserve_branch_area (parent_width : Z) (parent_span : span)
    (new_child_depth child_width : Z) (db : database) :
  (parent_width =? 0) && (child_width =? 1) = false ->
  chains (reserve_branch_area 0 parent_width parent_span new_child_depth
            child_width db)
  = tween_all (left parent_span)
      (sub_chains parent_width (Cxx.add parent_width child_width))
      (map (shifted (right parent_span) child_width) (chains db)).
Proof.
  intros E. unfold reserve_branch_area. rewrite E. cbn [Z.eqb negb].
  rewrite chains_tween. reflexivity.
Qed.

Lemma sub_chains_range (from upto sub : Z) :
  In sub (sub_chains from upto) -> from <= sub < upto.
Proof.
  unfold sub_chains. intros H. apply in_map_iff in H.
  destruct H as (i & <- & Hi). apply in_seq in Hi. lia.
Qed.

Lemma chain_rows_app (i : Z) (a b : list chain_row) :
  chain_rows i (a ++ b) = chain_rows i a ++ chain_rows i b.
Proof. apply filter_app. Qed.

Lemma chain_rows_In (i : Z) (cs : list chain_row) (c : chain_row) :
  In c (chain_rows i cs) <-> In c cs /\ chain_id c = i.
Proof.
  unfold chain_rows, sql_select. rewrite filter_In. now rewrite Z.eqb_eq.
Qed.

Lemma tween_all_closed (parent_left : Z) (subs : list Z) :
  forall (acc src : list chain_row),
  (forall sub, In sub subs -> sub <> 0) ->
  chain_rows parent_left acc = src ->
  tween_all parent_left subs acc
  = acc ++ flat_map
             (fun sub => map (fun c => set_chain_id (chain_id c + sub) c) src)
             subs.
Proof.
  induction subs as [|sub subs IH]; intros acc src Hne Hsrc; cbn.
  - now rewrite app_nil_r.
  - unfold tween_all in *. unfold tween_chains at 2.
    fold (chain_rows parent_left acc). rewrite Hsrc.
    rewrite (IH _ src).
    + now rewrite <- app_assoc.
    + intros s Hs. apply Hne. now right.
    + rewrite chain_rows_app, Hsrc.
      unfold chain_rows. rewrite select_none; [apply app_nil_r|].
      intros c' Hc'. apply in_map_iff in Hc'.
      destruct Hc' as (c & <- & Hc). subst src.
      fold (chain_rows parent_left acc) in Hc.
      apply chain_rows_In in Hc. destruct Hc as (_ & Hid). cbn.
      apply Z.eqb_neq. specialize (Hne sub (or_introl eq_refl)). lia.
Qed.

Lemma chain_rows_shifted (parent_left parent_right child_width : Z)
    (cs : list chain_row) :
  parent_left <= parent_right -> 0 <= child_width ->
  chain_rows parent_left (map (shifted parent_right child_width) cs)
  = chain_rows parent_left cs.
Proof.
  intros Hl Hw.
  assert (Hrow : forall c,
            (chain_id (shifted parent_right child_width c) =? parent_left)
            = (chain_id c =? parent_left)
            /\ ((chain_id c =? parent_left) = true ->
                shifted parent_right child_width c = c)).
  { intros c. unfold shifted.
    destruct (chain_id c >? parent_right) eqn:E; cbn; [|auto].
    where_to_prop.
    assert (E1 : (chain_id c + child_width =? parent_left) = false)
      by (apply Z.eqb_neq; lia).
    assert (E2 : (chain_id c =? parent_left) = false)
      by (apply Z.eqb_neq; lia).
    rewrite E1, E2. split; [reflexivity | intros; lia]. }
  unfold chain_rows, sql_select.
  induction cs as [|c cs IH]; cbn; [reflexivity|].
  destruct (Hrow c) as (-> & Heq). rewrite IH.
  destruct (chain_id c =? parent_left); [|reflexivity].
  now rewrite Heq.
Qed.

(** The chains table after [reserve_branch_area] under a parent with
    children. *)
Lemma reserve_chains (parent_width : Z) (parent_span : span)
    (new_child_depth child_width : Z) (db : database) :
  1 <= parent_width -> 0 <= child_width ->
  parent_width + child_width < Cxx.size_t_modulus ->
  left parent_span <= right parent_span ->
  chains (reserve_branch_area 0 parent_width parent_span new_child_depth
            child_width db)
  = map (shifted (right parent_span) child_width) (chains db)
    ++ flat_map
         (fun sub =>
            map (fun c => set_chain_id (chain_id c + sub) c)
              (chain_rows (left parent_span) (chains db)))
         (sub_chains parent_width (parent_width + child_width)).
Proof.
  intros Hpw Hcw Hfit Hspan.
  assert (E : (parent_width =? 0) && (child_width =? 1) = false).
  { apply andb_false_iff. left. apply Z.eqb_neq. lia. }
  rewrite (@chains_reserve_branch_area _ _ _ _ _ E), add_small by lia.
  apply tween_all_closed.
  - intros sub Hs. apply sub_chains_range in Hs. lia.
  - now apply chain_rows_shifted.
Qed.

(** X12. Making room under a parent of the main tree that has children
    (width 1 or more): the chains above the parent's span move up by the
    child's width, and for each new slot a row is added that copies
    [work] and [depth] of the parent's chain [parent_span.left], with the
    chain ids [left + parent_width], ..., [left + parent_width +
    child_width - 1]. *)
Theorem reserve_branch_area_copies_parent_chain (parent_width : Z)
    (parent_span : span) (new_child_depth child_width : Z) (db : database) :
  1 <= parent_width -> 0 <= child_width ->
  parent_width + child_width < Cxx.size_t_modulus ->
  left parent_span <= right parent_span ->
  chains (reserve_branch_area 0 parent_width parent_span new_child_depth
            child_width db)
  = map (fun c =>
           {| chain_id := if chain_id c >? right parent_span
                          then chain_id c + child_width else chain_id c;
              work := work c;
              chain_depth := chain_depth c |})
      (chains db)
    ++ flat_map
         (fun sub =>
            map (fun c => {| chain_id := left parent_span + sub;
                             work := work c;
                             chain_depth := chain_depth c |})
              (chain_rows (left parent_span) (chains db)))
         (sub_chains parent_width (parent_width + child_width)).
Proof.
  intros Hpw Hcw Hfit Hspan. rewrite reserve_chains by assumption.
  f_equal.
  - apply map_ext. intros [id w d]. unfold shifted; cbn.
    now destruct (id >? right parent_span).
  - apply flat_map_ext. intros sub. apply map_ext_in.
    intros c Hc. apply chain_rows_In in Hc. destruct Hc as (_ & Hid).
    unfold set_chain_id. now rewrite Hid.
Qed.

Lemma reserve_branch_area_copies_parent_chain_fork :
  chains (reserve_branch_area 0 2 {| left := 0; right := 1 |} 3 1
            Sample.fork_store)
  = chains Sample.fork_store
    ++ [ {| chain_id := 2; work := Some 33; chain_depth := 3 |} ].
Proof.
  rewrite (@reserve_branch_area_copies_parent_chain 2
             {| left := 0; right := 1 |} 3 1 Sample.fork_store).
  - reflexivity.
  - lia.
  - lia.
  - vm_compute. reflexivity.
  - cbn. lia.
Defined.

Lemma shifted_back (parent_right child_width : Z) (c : chain_row) :
  0 <= child_width ->
  (if chain_id (shifted parent_right child_width c)
      >? parent_right + child_width
   then set_chain_id
          (chain_id (shifted parent_right child_width c) - child_width)
          (shifted parent_right child_width c)
   else shifted parent_right child_width c) = c.
Proof.
  intros Hw. unfold shifted. destruct c as [id w d]. cbn.
  destruct (id >? parent_right) eqn:E; cbn.
  - where_to_prop.
    assert (E1 : (id + child_width >? parent_right + child_width) = true)
      by (apply Z.gtb_lt; lia).
    rewrite E1. unfold set_chain_id; cbn. f_equal. lia.
  - assert (E1 : (id >? parent_right + child_width) = false)
      by (rewrite Z.gtb_ltb in *; apply Z.ltb_ge; apply Z.ltb_ge in E; lia).
    now rewrite E1.
Qed.

(** X13. The chains that [reserve_branch_area] adds under a parent with
    children are the chains of the span of the grafted branch:
    [delete_chains] on that span, [right + 1 .. right + child_width],
    gives back the chains table as it was before the room was made. *)
Theorem delete_chains_undoes_reserve (parent_span : span)
    (new_child_depth child_width : Z) (db : database) :
  0 <= left parent_span <= right parent_span ->
  0 <= child_width ->
  right parent_span + child_width + 1 < Cxx.size_t_modulus ->
  let parent_width := right parent_span - left parent_span + 1 in
  chains
    (delete_chains (right parent_span + 1) (right parent_span + child_width)
       (reserve_branch_area 0 parent_width parent_span new_child_depth
          child_width db))
  = chains db.
Proof.
  intros Hspan Hcw Hfit parent_width.
  rewrite chains_delete_chains.
  rewrite reserve_chains by (unfold parent_width; lia).
  rewrite add_small, sub_small by lia.
  replace (right parent_span + child_width + 1 - (right parent_span + 1))
    with child_width by lia.
  rewrite filter_app, map_app.
  match goal with
  | |- _ ++ map _ (filter ?w (flat_map ?f ?l)) = _ =>
      assert (Hnew : filter w (flat_map f l) = [])
  end.
  { apply (@select_none chain_row). intros c Hc.
    apply in_flat_map in Hc. destruct Hc as (sub & Hsub & Hc).
    apply in_map_iff in Hc. destruct Hc as (c0 & <- & Hc0).
    apply chain_rows_In in Hc0. destruct Hc0 as (_ & Hid). cbn.
    apply sub_chains_range in Hsub. unfold parent_width in Hsub.
    apply negb_false_iff, andb_true_iff. split; apply Z.leb_le; lia. }
  rewrite Hnew. cbn [map]. rewrite app_nil_r.
  assert (Hkept : forall cs,
            filter (fun c => negb ((right parent_span + 1 <=? chain_id c)
                                   && (chain_id c
                                       <=? right parent_span + child_width)))
              (map (shifted (right parent_span) child_width) cs)
            = map (shifted (right parent_span) child_width) cs).
  { intros cs. induction cs as [|c cs IH]; cbn; [reflexivity|].
    rewrite IH.
    assert (E : negb ((right parent_span + 1
                       <=? chain_id (shifted (right parent_span)
                                       child_width c))
                      && (chain_id (shifted (right parent_span)
                                      child_width c)
                          <=? right parent_span + child_width)) = true).
    { unfold shifted. destruct (chain_id c >? right parent_span) eqn:E;
        cbn; apply negb_true_iff, andb_false_iff;
        [right | left]; apply Z.leb_gt; where_to_prop; lia. }
    now rewrite E. }
  rewrite Hkept, map_map.
  rewrite <- (map_id (chains db)) at 2. apply map_ext.
  intros c. now apply shifted_back.
Qed.

Lemma delete_chains_undoes_reserve_fork :
  chains
    (delete_chains 2 2
       (reserve_branch_area 0 2 {| left := 0; right := 1 |} 3 1
          Sample.fork_store))
  = chains Sample.fork_store.
Proof.
  assert (Hspan : 0 <= left {| left := 0; right := 1 |}
                  <= right {| left := 0; right := 1 |}) by (cbn; lia).
  assert (Hcw : 0 <= 1) by lia.
  assert (Hfit : right {| left := 0; right := 1 |} + 1 + 1
                 < Cxx.size_t_modulus) by (vm_compute; reflexivity).
  exact (@delete_chains_undoes_reserve {| left := 0; right := 1 |} 3 1
           Sample.fork_store Hspan Hcw Hfit).
Defined.

Lemma tween_all_extends (parent_left : Z) (subs : list Z) :
  forall acc, exists extra, tween_all parent_left subs acc = acc ++ extra.
Proof.
  unfold tween_all. induction subs as [|sub subs IH]; intros acc; cbn.
  - exists []. now rewrite app_nil_r.
  - destruct (IH (tween_chains sub parent_left acc)) as (extra & ->).
    unfold tween_chains. rewrite <- app_assoc. eauto.
Qed.

Lemma select_all (A : Type) (w : A -> bool) (l : list A) :
  (forall a, In a l -> w a = true) -> sql_select w l = l.
Proof.
  intros H. unfold sql_select. induction l as [|a l IH]; cbn; [reflexivity|].
  rewrite (H a) by now left. f_equal. apply IH. intros; apply H; now right.
Qed.

(** X14. Under a leaf (width 0) the loop of [tween_chains] starts at
    [sub_chain = 0]: for a child two or more chains wide its first turn
    adds a second row with the chain id of the parent, so that the
    parent's chain is in the table at least twice afterwards. *)
Theorem reserve_branch_area_under_leaf_doubles_chain (parent_span : span)
    (new_child_depth child_width : Z) (db : database) (c : chain_row) :
  2 <= child_width < Cxx.size_t_modulus ->
  left parent_span <= right parent_span ->
  In c (chains db) -> chain_id c = left parent_span ->
  (2 <= List.length
          (chain_rows (left parent_span)
             (chains (reserve_branch_area 0 0 parent_span new_child_depth
                        child_width db))))%nat.
Proof.
  intros Hcw Hspan Hc Hid.
  assert (E : (0 =? 0) && (child_width =? 1) = false).
  { apply andb_false_iff. right. apply Z.eqb_neq. lia. }
  rewrite (@chains_reserve_branch_area _ _ _ _ _ E), add_small by lia.
  set (cs := map (shifted (right parent_span) child_width) (chains db)).
  assert (Hsubs : exists rest,
            sub_chains 0 (0 + child_width) = 0 :: rest).
  { unfold sub_chains.
    destruct (Z.to_nat (0 + child_width - 0)) as [|n] eqn:En; [lia|].
    cbn. eauto. }
  destruct Hsubs as (rest & ->). unfold tween_all. cbn [fold_left].
  fold (tween_all (left parent_span) rest
          (tween_chains 0 (left parent_span) cs)).
  destruct (tween_all_extends (left parent_span) rest
              (tween_chains 0 (left parent_span) cs)) as (extra & ->).
  unfold tween_chains. fold (chain_rows (left parent_span) cs).
  assert (Hsrc : chain_rows (left parent_span) cs
                 = chain_rows (left parent_span) (chains db)).
  { apply chain_rows_shifted; lia. }
  rewrite !chain_rows_app, Hsrc, !length_app.
  assert (Hone : (1 <= List.length
                         (chain_rows (left parent_span) (chains db)))%nat).
  { assert (Hin : In c (chain_rows (left parent_span) (chains db)))
      by (apply chain_rows_In; auto).
    destruct (chain_rows (left parent_span) (chains db));
      [contradiction | cbn; lia]. }
  assert (Hcopy : chain_rows (left parent_span)
                    (map (fun c0 => set_chain_id (chain_id c0 + 0) c0)
                       (chain_rows (left parent_span) (chains db)))
                  = map (fun c0 => set_chain_id (chain_id c0 + 0) c0)
                      (chain_rows (left parent_span) (chains db))).
  { apply select_all. intros c' Hc'. apply in_map_iff in Hc'.
    destruct Hc' as (c0 & <- & Hc0). apply chain_rows_In in Hc0. cbn.
    apply Z.eqb_eq. lia. }
  rewrite Hcopy, length_map. lia.
Qed.

Lemma reserve_branch_area_under_leaf_doubles_chain_sample :
  (2 <= List.length
          (chain_rows 0
             (chains (reserve_branch_area 0 0 {| left := 0; right := 0 |}
                        4 2 Sample.store))))%nat.
Proof.
  apply (@reserve_branch_area_under_leaf_doubles_chain
           {| left := 0; right := 0 |} 4 2 Sample.store
           {| chain_id := 0; work := Some 3; chain_depth := 2 |}).
  - vm_compute. split; [discriminate | reflexivity].
  - cbn. lia.
  - cbn. tauto.
  - reflexivity.
Defined.

Lemma NoDup_map_injective (A B : Type) (f : A -> B) (l : list A)
    (x y : A) :
  NoDup (map f l) -> In x l -> In y l -> f x = f y -> x = y.
Proof.
  induction l as [|a l IH]; cbn; [tauto|].
  intros Hn Hx Hy E. inversion Hn as [|? ? Ha Hn']; subst.
  destruct Hx as [->|Hx], Hy as [->|Hy]; auto.
  - exfalso. apply Ha. rewrite E. now apply in_map.
  - exfalso. apply Ha. rewrite <- E. now apply in_map.
Qed.

(** X15. [delete_chains] closes the gap it makes: when the chain ids are
    the distinct numbers [0 .. n-1], after deleting the chains [left ..
    right] they are the distinct numbers [0 .. n - width - 1]. *)
Theorem delete_chains_closes_gap (left_ right_ n : Z) (db : database) :
  0 <= left_ <= right_ -> right_ < n ->
  right_ + 1 < Cxx.size_t_modulus ->
  (forall i, In i (map chain_id (chains db)) <-> 0 <= i < n) ->
  NoDup (map chain_id (chains db)) ->
  let ids := map chain_id (chains (delete_chains left_ right_ db)) in
  (forall i, In i ids <-> 0 <= i < n - (right_ - left_ + 1))
  /\ NoDup ids.
Proof.
  intros Hspan Hn Hfit Hids Hnodup ids. subst ids.
  rewrite chains_delete_chains, add_small, sub_small by lia.
  set (w := right_ + 1 - left_).
  set (keep := fun c => negb ((left_ <=? chain_id c)
                              && (chain_id c <=? right_))).
  set (g := fun c => if chain_id c >? right_
                     then set_chain_id (chain_id c - w) c else c).
  assert (Hg : forall c, chain_id (g c)
                         = if chain_id c >? right_ then chain_id c - w
                           else chain_id c).
  { intros c. unfold g. now destruct (chain_id c >? right_). }
  assert (Hkeep : forall c, keep c = true
                            <-> chain_id c < left_ \/ right_ < chain_id c).
  { intros c. unfold keep. rewrite negb_true_iff, andb_false_iff.
    rewrite !Z.leb_gt. tauto. }
  split.
  - intros i. rewrite map_map, in_map_iff. split.
    + intros (c & Hi & Hc). apply filter_In in Hc. destruct Hc as (Hc & Hk).
      apply Hkeep in Hk. rewrite Hg in Hi.
      assert (Hr : 0 <= chain_id c < n) by (apply Hids; now apply in_map).
      destruct (chain_id c >? right_) eqn:E; where_to_prop; unfold w in *;
        lia.
    + intros Hi.
      assert (Hex : exists c, In c (chains db)
                /\ chain_id c = if i <? left_ then i else i + w).
      { assert (Hin : In (if i <? left_ then i else i + w)
                        (map chain_id (chains db))).
        { apply Hids. destruct (i <? left_) eqn:E; where_to_prop;
            unfold w; lia. }
        apply in_map_iff in Hin. destruct Hin as (c & Hc & Hin). eauto. }
      destruct Hex as (c & Hc & Hid). exists c. split.
      * rewrite Hg, Hid.
        destruct (i <? left_) eqn:E; where_to_prop.
        -- assert (E1 : (i >? right_) = false)
             by (rewrite Z.gtb_ltb; apply Z.ltb_ge; lia).
           now rewrite E1.
        -- assert (E1 : (i + w >? right_) = true)
             by (apply Z.gtb_lt; unfold w; lia).
           rewrite E1. lia.
      * apply filter_In. split; [exact Hc|]. apply Hkeep. rewrite Hid.
        destruct (i <? left_) eqn:E; where_to_prop; unfold w; lia.
  - rewrite map_map. apply NoDup_map_NoDup_ForallPairs.
    + intros x y Hx Hy E.
      apply filter_In in Hx. destruct Hx as (Hx & Hkx).
      apply filter_In in Hy. destruct Hy as (Hy & Hky).
      apply Hkeep in Hkx. apply Hkeep in Hky. rewrite !Hg in E.
      apply (@NoDup_map_injective _ _ chain_id (chains db) x y Hnodup Hx Hy).
      destruct (chain_id x >? right_) eqn:Ex;
        destruct (chain_id y >? right_) eqn:Ey; where_to_prop;
        unfold w in *; lia.
    + apply NoDup_filter. now apply NoDup_map_inv in Hnodup.
Qed.

Lemma delete_chains_closes_gap_fork :
  In 0 (map chain_id (chains (delete_chains 1 1 Sample.fork_store)))
  /\ ~ In 1 (map chain_id (chains (delete_chains 1 1 Sample.fork_store)))
  /\ NoDup (map chain_id (chains (delete_chains 1 1 Sample.fork_store))).
Proof.
  assert (Hspan : 0 <= 1 <= 1) by lia.
  assert (Hn : 1 < 2) by lia.
  assert (Hfit : 1 + 1 < Cxx.size_t_modulus) by (vm_compute; reflexivity).
  assert (Hids : forall i, In i (map chain_id (chains Sample.fork_store))
                           <-> 0 <= i < 2) by (intros i; cbn; lia).
  assert (Hnodup : NoDup (map chain_id (chains Sample.fork_store))).
  { cbn. repeat constructor; cbn; intuition discriminate. }
  destruct (@delete_chains_closes_gap 1 1 2 Sample.fork_store Hspan Hn Hfit
              Hids Hnodup) as (Hin & Hnd).
  split; [apply Hin; lia | split; [rewrite Hin; lia | exact Hnd]].
Defined.

End ChainsMore.

(** * Further properties of grafting and deleting *)

Module GraftMore.
Import Organizer OrganizerFacts OrganizerMore DeleteBranchFacts ChainsMore.

(** What [reserve_branch_area] makes of the span of a row. *)
Definition makes_room (parent_space parent_right new_child_depth
    child_width : Z) (b b' : block_row) : Prop :=
  same_but_span b b'
  /\ span_left b'
     = (if (space b =? parent_space) && (span_left b >? parent_right)
        then span_left b + child_width else span_left b)
  /\ span_right b'
     = (if (space b =? parent_space)
           && ((span_right b >? parent_right)
               || ((span_right b =? parent_right)
                   && (depth b <? new_child_depth)))
        then span_right b + child_width else span_right b).

(** X16. Unless the parent is a leaf and the child one chain wide,
    [reserve_branch_area] changes the spans of the parent's space only:
    a [span_left] right of the parent's span moves right by the child's
    width; a [span_right] moves right by that width when it lies right of
    the parent's [span_right], or equals it on a row above the new
    child's depth (the parent and its ancestors); every other column and
    every row of another space stay as they are. *)
Theorem reserve_branch_area_makes_room (parent_space parent_width : Z)
    (parent_span : span) (new_child_depth child_width : Z) (db : database) :
  (parent_width =? 0) && (child_width =? 1) = false ->
  0 <= child_width ->
  Forall2
    (makes_room parent_space (right parent_span) new_child_depth child_width)
    (blocks db)
    (blocks (reserve_branch_area parent_space parent_width parent_span
               new_child_depth child_width db)).
Proof.
  intros E Hw. rewrite blocks_reserve_branch_area, E.
  induction (blocks db) as [|b t IH]; cbn; constructor; [|exact IH].
  destruct b as [id h ph pid sp d l r v wc bh bb n m st].
  unfold makes_room, reserved, same_but_span, unmoved, same_content.
  simpl.
  destruct (sp =? parent_space) eqn:Es;
    destruct (r >? right parent_span) eqn:Er;
    destruct (l >? right parent_span) eqn:El;
    destruct (d <? new_child_depth) eqn:Ed;
    simpl;
    repeat (progress (rewrite ?Es, ?Er, ?El, ?Ed; simpl));
    repeat match goal with
           | |- context [?a =? ?b] => destruct (a =? b) eqn:?; simpl
           end;
    first [ solve [repeat split] | exfalso; where_to_prop; lia ].
Qed.

Lemma reserve_branch_area_makes_room_fork :
  Forall2 (makes_room 0 1 3 1) (blocks Sample.fork_store)
    (blocks (reserve_branch_area 0 2 {| left := 0; right := 1 |} 3 1
               Sample.fork_store))
  /\ map (fun b => (span_left b, span_right b))
       (blocks (reserve_branch_area 0 2 {| left := 0; right := 1 |} 3 1
                  Sample.fork_store))
     = [ (0, 2); (0, 2); (0, 2); (0, 0); (1, 1) ].
Proof.
  assert (E : (2 =? 0) && (1 =? 1) = false) by reflexivity.
  assert (Hw : 0 <= 1) by lia.
  split; [|reflexivity].
  exact (@reserve_branch_area_makes_room 0 2 {| left := 0; right := 1 |} 3 1
           Sample.fork_store E Hw).
Defined.

Lemma sql_update_same (A : Type) (where_ : A -> bool) (set : A -> A)
    (t : list A) :
  (forall r, set r = r) -> sql_update where_ set t = t.
Proof.
  intros H. unfold sql_update. rewrite <- (map_id t) at 2.
  apply map_ext. intros r. rewrite H. now destruct (where_ r).
Qed.

Lemma select_the_one (A B : Type) (w : B -> bool) (g : A -> B)
    (l : list A) (a : A) :
  NoDup l -> In a l ->
  (forall b, In b l -> (w (g b) = true <-> b = a)) ->
  sql_select w (map g l) = [g a].
Proof.
  unfold sql_select. induction l as [|x l IH]; cbn; [tauto|].
  intros Hn Ha Hw. inversion Hn as [|? ? Hx Hn']; subst.
  destruct Ha as [->|Ha].
  - rewrite (proj2 (Hw a (or_introl eq_refl)) eq_refl). f_equal.
    apply (@select_none B). intros b Hb. apply in_map_iff in Hb.
    destruct Hb as (y & <- & Hy).
    destruct (w (g y)) eqn:E; [|reflexivity].
    apply (Hw y (or_intror Hy)) in E. subst y. contradiction.
  - assert (Hxa : x <> a) by (intros ->; contradiction).
    destruct (w (g x)) eqn:E.
    + apply (Hw x (or_introl eq_refl)) in E. contradiction.
    + apply IH; auto.
Qed.

(** [delete_chains] on an empty range, [right + 1 .. right]. *)
Lemma delete_chains_nothing (right_ : Z) (db : database) :
  0 <= right_ -> right_ + 1 < Cxx.size_t_modulus ->
  chains (delete_chains (Cxx.add right_ 1) right_ db) = chains db.
Proof.
  intros H0 H1. rewrite chains_delete_chains.
  rewrite add_small, sub_small by lia.
  rewrite (@select_all chain_row).
  - rewrite <- (map_id (chains db)) at 2. apply map_ext. intros [id w d]. cbn.
    destruct (id >? right_); [|reflexivity].
    unfold set_chain_id; cbn. f_equal. lia.
  - intros c _. apply negb_true_iff, andb_false_iff.
    destruct (right_ + 1 <=? chain_id c) eqn:E; [right | now left].
    apply Z.leb_gt. apply Z.leb_le in E. lia.
Qed.

Section FinalizeThenDelete.

Variable difficulty : Z -> Z -> Z.

(** X17. Validating a block that is the tip of its chain and the only
    child of its parent, then deleting it again: [delete_branch] removes
    the row of the block and leaves every other row of [blocks] as it was
    before the validation, and it takes the block's difficulty off the
    work of its chain again, so that every [work] is as before; but the
    [depth] that [finalize_status] wrote into the chain stays. *)
Theorem finalize_then_delete_branch (db : database) (c p : block_row)
    (info : postgresql_block_info) :
  NoDup (map block_id (blocks db)) ->
  Forall well_spanned (blocks db) ->
  In c (blocks db) -> In p (blocks db) ->
  Reader.read_block_info c = Returned info ->
  space c = 0 -> span_right c = span_left c ->
  0 <= span_left c -> span_left c + 1 < Cxx.size_t_modulus ->
  0 <= bits_body c < 2 ^ 24 -> 0 <= bits_head c < 2 ^ 8 ->
  space p = 0 -> depth p = depth c - 1 ->
  span_left p = span_left c -> span_right p = span_left c ->
  (forall b, In b (blocks db) -> space b = 0 -> depth c <= depth b ->
     span_left b <= span_left c <= span_right b -> b = c) ->
  let db1 := Blockchain.finalize_status difficulty info
               (Reader.read_block c db) db in
  let db2 := delete_branch difficulty 0 (depth c) (span_left c)
               (span_right c) db1 in
  blocks db2 = filter (fun b => negb (block_id b =? block_id c)) (blocks db)
  /\ chains db2
     = map (fun ch =>
              if chain_id ch =? span_left c
              then {| chain_id := chain_id ch; work := work ch;
                      chain_depth := depth c |}
              else ch)
         (chains db).
Proof.
  intros Hn Hws Hc Hp Hinfo Hsc Hrc Hl0 Hl1 Hbody Hhead Hsp Hdp Hlp Hrp
    Honly db1 db2.
  set (l := span_left c) in *. set (d := depth c) in *.
  assert (Hi : info_block_id info = block_id c /\ info_depth info = d
               /\ info_span_left info = l /\ info_span_right info = l).
  { unfold Reader.read_block_info in Hinfo.
    destruct (prev_block_id c); [|discriminate].
    injection Hinfo as <-. cbn. auto. }
  destruct Hi as (Hiid & Hid & Hil & Hir).
  set (f := fun b => if block_id b =? block_id c
                     then set_status valid b else b).
  assert (Hb1 : blocks db1 = map f (blocks db)).
  { unfold db1, Blockchain.finalize_status.
    cbn [blocks with_blocks with_chains]. now rewrite Hiid. }
  assert (Hf : forall b, space (f b) = space b /\ depth (f b) = depth b
                         /\ span_left (f b) = span_left b
                         /\ span_right (f b) = span_right b
                         /\ block_id (f b) = block_id b).
  { intros b. unfold f. destruct (block_id b =? block_id c); cbn; auto. }
  assert (Hfc : f c = set_status valid c).
  { unfold f. now rewrite Z.eqb_refl. }
  assert (Hfother : forall b, In b (blocks db) -> b <> c -> f b = b).
  { intros b Hb Hne. unfold f.
    destruct (block_id b =? block_id c) eqn:E; [|reflexivity].
    apply Z.eqb_eq in E. exfalso. apply Hne.
    exact (@same_id_same_row _ _ _ Hn Hb Hc E). }
  assert (Hpc : p <> c) by (intros ->; unfold d in Hdp; lia).
  set (x := difficulty (bits_head c) (bits_body c)).
  assert (Hc1 : chains db1
                = map (fun ch =>
                         if (chain_id ch >=? l) && (chain_id ch <=? l)
                         then set_work_depth (sql_plus (work ch) (Some x)) d ch
                         else ch) (chains db)).
  { unfold db1, Blockchain.finalize_status.
    cbn [chains with_blocks with_chains message.bits Reader.read_block].
    destruct (ValidateRunMore.split_bits Hbody Hhead) as (-> & ->).
    now rewrite Hil, Hir, Hid. }
  assert (Hlonely : is_empty (lonely_child 0 d l l db1) = false).
  { destruct (is_empty (lonely_child 0 d l l db1)) eqn:E; [|reflexivity].
    exfalso. apply (lonely_child_empty difficulty) in E. apply E.
    exists p. rewrite Hb1. split.
    - rewrite <- (Hfother p Hp Hpc). now apply in_map.
    - auto. }
  assert (Hsel : sql_select
                   (fun b => (space b =? 0) && (depth b >=? d)
                             && (span_left b <=? l) && (span_right b >=? l)
                             && is_valid (status b))
                   (map f (blocks db))
                 = [f c]).
  { apply select_the_one; [now apply NoDup_map_inv in Hn | exact Hc |].
    intros b Hb. destruct (Hf b) as (-> & -> & -> & -> & _). split.
    - intros Hw. apply andb_true_iff in Hw. destruct Hw as (Hw & _).
      where_to_prop. apply Honly; auto; lia.
    - intros ->. rewrite Hfc. cbn. fold l d. rewrite Hsc, Hrc.
      rewrite andb_true_r. where_to_prop. lia. }
  assert (Hsub : forall t, incl t (blocks db) ->
            filter (fun b => negb ((space b =? 0) && (depth b >=? d)
                                   && (span_left b >=? l)
                                   && (span_right b <=? l)))
              (map f t)
            = filter (fun b => negb (block_id b =? block_id c)) t).
  { induction t as [|b t IH]; intros Hin; cbn; [reflexivity|].
    assert (Hb : In b (blocks db)) by (apply Hin; now left).
    rewrite IH by (intros y Hy; apply Hin; now right).
    destruct (Hf b) as (-> & -> & -> & -> & _).
    destruct (block_id b =? block_id c) eqn:E; cbn.
    - apply Z.eqb_eq in E.
      assert (b = c) by exact (@same_id_same_row _ _ _ Hn Hb Hc E).
      subst b. fold l d. rewrite Hsc, Hrc.
      assert (E1 : (0 =? 0) && (d >=? d) && (l >=? l) && (l <=? l) = true)
        by (where_to_prop; lia).
      now rewrite E1.
    - destruct ((space b =? 0) && (depth b >=? d) && (span_left b >=? l)
                && (span_right b <=? l)) eqn:E1; cbn.
      + exfalso. apply Z.eqb_neq in E. apply E. f_equal.
        rewrite Forall_forall in Hws. destruct (Hws b Hb) as (Hlr & _).
        where_to_prop. apply Honly; auto; lia.
      + f_equal. apply Hfother; [exact Hb|].
        intros ->. rewrite Z.eqb_refl in E. discriminate. }
  assert (Hoff : delete_branch_offset 0 d l l db1 = 0).
  { unfold delete_branch_offset. rewrite Hlonely.
    rewrite sub_small by (unfold Cxx.size_t_modulus; lia). lia. }
  subst db2. rewrite Hrc. fold l d. unfold delete_branch.
  rewrite Hoff, Hlonely. split.
  - cbn [blocks with_blocks unwind_chain with_chains].
    rewrite blocks_delete_chains, Hb1.
    rewrite !sql_update_same.
    + unfold sql_delete. apply Hsub, incl_refl.
    + intros [? ? ? ? ? ? ? ? ? ? ? ? ? ? ?].
      unfold set_span_left, set_span_right; cbn. f_equal. lia.
    + intros [? ? ? ? ? ? ? ? ? ? ? ? ? ? ?].
      unfold set_span_left, set_span_right; cbn. f_equal. lia.
  - cbn [chains with_blocks]. unfold unwind_chain.
    cbn [chains with_chains blocks].
    rewrite blocks_delete_chains, Hb1, Hsel, delete_chains_nothing by lia.
    rewrite Hc1, Hfc. cbn [map sql_sum fold_right bits_head bits_body
                            set_status].
    fold x. unfold sql_update. rewrite map_map. apply map_ext.
    intros [id w dd]. cbn.
    destruct (id =? l) eqn:E.
    + apply Z.eqb_eq in E. subst id.
      assert (E1 : (l >=? l) && (l <=? l) = true) by (where_to_prop; lia).
      rewrite E1. cbn. rewrite Z.eqb_refl. unfold set_work; cbn.
      f_equal. destruct w as [a|]; cbn; [f_equal; lia | reflexivity].
    + assert (E1 : (id >=? l) && (id <=? l) = false).
      { apply andb_false_iff. apply Z.eqb_neq in E.
        destruct (id >=? l) eqn:E2; [right | now left].
        apply Z.leb_gt. apply Z.geb_le in E2. lia. }
      rewrite E1. cbn. now rewrite E.
Qed.

End FinalizeThenDelete.

(** Block 4 of the sample chain, and the store after validating and then
    deleting it. *)
Definition tip_block : block_row :=
  Sample.block 4 "h4" "h3" (Some 3) 0 3 0 0 400 orphan.

Definition tip_deleted : database :=
  delete_branch Sample.body_work 0 3 0 0
    (Blockchain.finalize_status Sample.body_work Sample.info_4
       (Reader.read_block tip_block Sample.store) Sample.store).

Lemma finalize_then_delete_branch_sample :
  List.length (blocks tip_deleted) = 3%nat
  /\ chains tip_deleted
     = [ {| chain_id := 0; work := Some 3; chain_depth := 3 |} ].
Proof.
  pose (c := tip_block). pose (db2 := tip_deleted).
  set (p := Sample.block 3 "h3" "h2" (Some 2) 0 2 0 0 200 valid).
  assert (Hn : NoDup (map block_id (blocks Sample.store))).
  { cbn. repeat constructor; cbn; intuition discriminate. }
  assert (Hws : Forall well_spanned (blocks Sample.store)).
  { cbn. repeat constructor; cbn; lia. }
  assert (Hc : In c (blocks Sample.store)) by (cbn; tauto).
  assert (Hp : In p (blocks Sample.store)) by (cbn; tauto).
  assert (Hl1 : span_left c + 1 < Cxx.size_t_modulus)
    by (vm_compute; reflexivity).
  assert (Hbody : 0 <= bits_body c < 2 ^ 24)
    by (vm_compute; split; [discriminate | reflexivity]).
  assert (Hhead : 0 <= bits_head c < 2 ^ 8)
    by (vm_compute; split; [discriminate | reflexivity]).
  assert (Honly : forall b, In b (blocks Sample.store) -> space b = 0 ->
            depth c <= depth b ->
            span_left b <= span_left c <= span_right b -> b = c).
  { intros b Hb. cbn in Hb.
    repeat (destruct Hb as [<-|Hb]; [cbn; intros; try lia; auto|]).
    contradiction. }
  destruct (@finalize_then_delete_branch Sample.body_work Sample.store c p
              Sample.info_4 Hn Hws Hc Hp eq_refl eq_refl eq_refl
              (Z.le_refl 0) Hl1 Hbody Hhead eq_refl eq_refl eq_refl eq_refl
              Honly) as (Hblocks & Hchains).
  split.
  - unfold tip_deleted.
    change (delete_branch Sample.body_work 0 3 0 0)
      with (delete_branch Sample.body_work 0 (depth c) (span_left c)
              (span_right c)).
    change tip_block with c.
    rewrite Hblocks. reflexivity.
  - unfold tip_deleted.
    change (delete_branch Sample.body_work 0 3 0 0)
      with (delete_branch Sample.body_work 0 (depth c) (span_left c)
              (span_right c)).
    change tip_block with c.
    rewrite Hchains. reflexivity.
Defined.

End GraftMore.

(** * Further properties: the retarget timespan and the frame of
      [organize] *)

Module TimespanMore.
Import ValidateBlock.

(** The blocks of the validated block's branch at one depth. *)
Definition branch_at (info : postgresql_block_info) (d : Z) (db : database)
    : list block_row :=
  sql_select
    (fun b => (space b =? 0) && (depth b =? d)
              && (span_left b <=? info_span_left info)
              && (span_right b >=? info_span_right info))
    (blocks db).

(** X18. For an interval from 1 to the block's depth (the two depths
    bound to the statement do not wrap): with one block of the branch at
    [depth - interval] and one at [depth - 1], [actual_timespan] answers
    the seconds from the first to the second; with no block of the branch
    at one of the two depths the query selects nothing and reading its
    result raises [empty_row_access]. *)
Theorem actual_timespan_along_branch (info : postgresql_block_info)
    (interval : Z) (db : database) :
  0 < interval <= info_depth info ->
  info_depth info < 2 ^ 63 ->
  (forall s e,
     branch_at info (info_depth info - interval) db = [s] ->
     branch_at info (info_depth info - 1) db = [e] ->
     0 <= when_created e - when_created s < Cxx.uint32_modulus ->
     actual_timespan info interval db
     = Some (Returned (when_created e - when_created s)))
  /\ (branch_at info (info_depth info - interval) db = []
      \/ branch_at info (info_depth info - 1) db = [] ->
      actual_timespan info interval db = Some (Thrown empty_row_access)).
Proof.
  intros Hi Hd.
  assert (Hmod : Cxx.size_t_modulus = 2 * 2 ^ 63) by reflexivity.
  assert (Hpos : 0 < 2 ^ 63) by reflexivity.
  assert (Hb : bind_size_t (info_depth info - interval)
               = Some (info_depth info - interval)).
  { unfold bind_size_t.
    assert (E : (info_depth info - interval <? 2 ^ 63) = true)
      by (apply Z.ltb_lt; lia).
    now rewrite E. }
  assert (He : bind_size_t (info_depth info - 1)
               = Some (info_depth info - 1)).
  { unfold bind_size_t.
    assert (E : (info_depth info - 1 <? 2 ^ 63) = true)
      by (apply Z.ltb_lt; lia).
    now rewrite E. }
  split.
  - intros s e Hs Hend Hr. unfold actual_timespan.
    rewrite !sub_small by lia. rewrite Hb, He.
    fold (branch_at info (info_depth info - interval) db).
    fold (branch_at info (info_depth info - 1) db).
    rewrite Hs, Hend. cbn [flat_map map app row].
    destruct Hr as (H0 & H1).
    apply Z.leb_le in H0. apply Z.ltb_lt in H1. now rewrite H0, H1.
  - intros Hnone. unfold actual_timespan.
    rewrite !sub_small by lia. rewrite Hb, He.
    fold (branch_at info (info_depth info - interval) db).
    fold (branch_at info (info_depth info - 1) db).
    destruct Hnone as [-> | ->]; [reflexivity|].
    cbn [map].
    assert (Hflat : forall l : list block_row,
              flat_map (fun _ : block_row => @nil Z) l = [])
      by (induction l; cbn; auto).
    now rewrite Hflat.
Qed.

Lemma actual_timespan_along_branch_sample :
  actual_timespan Sample.info_4 3 Sample.store = Some (Returned 100).
Proof.
  assert (Hi : 0 < 3 <= info_depth Sample.info_4)
    by (vm_compute; split; [reflexivity | discriminate]).
  assert (Hd : info_depth Sample.info_4 < 2 ^ 63)
    by (vm_compute; reflexivity).
  destruct (@actual_timespan_along_branch Sample.info_4 3 Sample.store Hi Hd)
    as (Hspan & _).
  apply (Hspan (Sample.block 1 "h1" "h0" None 0 0 0 0 100 valid)
           (Sample.block 3 "h3" "h2" (Some 2) 0 2 0 0 200 valid)).
  - reflexivity.
  - reflexivity.
  - vm_compute. split; [discriminate | reflexivity].
Defined.

End TimespanMore.

Module OrganizeFrame.
Import Organizer OrganizerFacts FrameFacts.

Lemma tween_transactions (parent_left : Z) (subs : list Z) : forall db,
  same_transactions db
    (fold_left
       (fun d sub_chain =>
          with_chains (tween_chains sub_chain parent_left (chains d)) d)
       subs db).
Proof.
  induction subs as [|z l IH]; intros db; cbn.
  - unfold same_transactions; repeat split.
  - specialize (IH (with_chains (tween_chains z parent_left (chains db)) db)).
    unfold same_transactions in *. cbn in IH. exact IH.
Qed.

Lemma reserve_branch_area_transactions (parent_space parent_width : Z)
    (parent_span : span) (new_child_depth child_width : Z) (db : database) :
  same_transactions db
    (reserve_branch_area parent_space parent_width parent_span
       new_child_depth child_width db)
  /\ (parent_space <> 0 ->
      chains (reserve_branch_area parent_space parent_width parent_span
                new_child_depth child_width db) = chains db).
Proof.
  unfold reserve_branch_area.
  destruct ((parent_width =? 0) && (child_width =? 1)).
  { split; [unfold same_transactions; repeat split | reflexivity]. }
  destruct (parent_space =? 0) eqn:E; cbn [negb].
  - split; [|intros H; apply Z.eqb_eq in E; contradiction].
    match goal with
    | |- same_transactions _ (fold_left _ ?l ?d) =>
        pose proof (tween_transactions (left parent_span) l d) as Ht
    end.
    unfold same_transactions in *. cbn in Ht. exact Ht.
  - split; [unfold same_transactions; repeat split | reflexivity].
Qed.

(** The tables that a turn of the loop passes on, given that the parent
    found is not in space 0. *)
Lemma graft_frame (o : orphan_pair) (db : database) :
  same_transactions db (turn_store (graft o db))
  /\ ((forall b, In b (blocks db) -> space b <> 0) ->
      chains (turn_store (graft o db)) = chains db).
Proof.
  unfold graft, load_position_info.
  set (db1 := point_prev_statement (parent_id o) (child_id o) db).
  assert (H1 : same_transactions db db1 /\ chains db1 = chains db).
  { split; [unfold same_transactions; repeat split | reflexivity]. }
  fold (by_id (parent_id o) (blocks db1)).
  destruct (row (by_id (parent_id o) (blocks db1))) as [|p1|] eqn:Hp;
    cbn [turn_store]; try (split; [apply H1 | intros _; apply H1]).
  destruct (load_span (child_id o) db1) as [[csp|]|e];
    cbn [turn_store]; try (split; [apply H1 | intros _; apply H1]).
  match goal with
  | |- context [reserve_branch_area ?a ?b ?c ?d ?e db1] =>
      destruct (reserve_branch_area_transactions a b c d e db1) as (Ht & Hc)
  end.
  split.
  - unfold same_transactions in *. cbn. exact Ht.
  - intros Hsp. cbn. rewrite Hc; [reflexivity|].
    apply row_one_In in Hp. unfold by_id, sql_select in Hp.
    apply filter_In in Hp. destruct Hp as (Hp & _).
    destruct (Forall2_In_r _ (point_prev_statement_rows (parent_id o)
                                (child_id o) db) Hp) as (p & Hpin & Hrel).
    destruct Hrel as (_ & Hs & _). rewrite Hs. now apply Hsp.
Qed.

Lemma graft_spaces (o : orphan_pair) (db : database) :
  (forall b, In b (blocks db) -> space b <> 0) ->
  forall b', In b' (blocks (turn_store (graft o db))) -> space b' <> 0.
Proof.
  intros Hsp b' Hb'.
  pose proof (graft_cases o db) as Hg. cbn zeta in Hg.
  assert (H1 : forall b1,
            In b1 (blocks (point_prev_statement (parent_id o) (child_id o)
                             db)) -> space b1 <> 0).
  { intros b1 Hb1.
    destruct (Forall2_In_r _ (point_prev_statement_rows (parent_id o)
                                (child_id o) db) Hb1) as (b & Hb & Hrel).
    destruct Hrel as (_ & Hs & _). rewrite Hs. now apply Hsp. }
  destruct (row (by_id (parent_id o) (blocks db))) as [|p|] eqn:Hp;
    try (rewrite Hg in Hb'; cbn in Hb'; now apply H1).
  destruct (row (by_id (child_id o) (blocks db))) as [|c|];
    try (rewrite Hg in Hb'; cbn in Hb'; now apply H1).
  destruct Hg as (db' & Hg & Hrows). rewrite Hg in Hb'. cbn in Hb'.
  destruct (Forall2_In_r _ Hrows Hb') as (b & Hb & _ & Hmove).
  apply row_one_In in Hp. unfold by_id, sql_select in Hp.
  apply filter_In in Hp. destruct Hp as (Hp & _).
  destruct (space b =? child_space o).
  - destruct Hmove as (-> & _). now apply Hsp.
  - destruct Hmove as (-> & _). now apply Hsp.
Qed.

(** Two orphan trees of one block each, block 6 the parent of block 7,
    beside a table of chains that belongs to neither. *)
Definition orphan_trees : database :=
  {| blocks := [ Sample.block 6 "h6" "h5" None 1 0 0 0 600 orphan;
                 Sample.block 7 "h7" "h6" None 2 0 0 0 700 orphan ];
     chains := [ {| chain_id := 0; work := Some 3; chain_depth := 2 |} ];
     transactions := []; transactions_parents := []; inputs := [];
     outputs := []; operations := [] |}.

(** X19. [organize] works on [blocks] and [chains] only: the tables of
    transactions, inputs, outputs and operations are as before, however
    it ends; and while no block is in space 0 (orphan trees are joined
    with each other only) the table [chains] is as before too. *)
Theorem organize_frame (db : database) :
  same_transactions db (organized_store (organize db))
  /\ ((forall b, In b (blocks db) -> space b <> 0) ->
      chains (organized_store (organize db)) = chains db).
Proof.
  unfold organize. generalize (orphans_statement db) as pairs.
  intros pairs. revert db.
  induction pairs as [|o pairs IH]; intros db; cbn.
  - split; [unfold same_transactions; repeat split | reflexivity].
  - destruct (graft_frame o db) as (Ht & Hc).
    pose proof (graft_spaces o db) as Hs.
    destruct (graft o db) as [db1|db1|e db1]; cbn in *; auto.
    destruct (IH db1) as (Ht' & Hc'). split.
    + unfold same_transactions in *. intuition congruence.
    + intros Hsp. rewrite Hc' by (apply Hs, Hsp). now apply Hc.
Qed.

Lemma organize_frame_orphan_trees :
  chains (organized_store (organize orphan_trees)) = chains orphan_trees
  /\ map space (blocks (organized_store (organize orphan_trees))) = [1; 1]
  /\ map depth (blocks (organized_store (organize orphan_trees))) = [0; 1].
Proof.
  split; [|split; vm_compute; reflexivity].
  apply (organize_frame orphan_trees).
  intros b Hb. cbn in Hb.
  destruct Hb as [<- | [<- | []]]; cbn; discriminate.
Defined.

End OrganizeFrame.
